(** * Vote operator: content-addressed signing service

    A shallow embedding of [index.js] (the Express server of the vote
    operator) and of the library calls it relies on: [JSON.stringify],
    [JSON.parse], [parseInt], and the [ethers] helpers [toUtf8Bytes],
    [keccak256], [getBytes], [hexlify], [isHexString], [hashMessage].

    JavaScript strings are sequences of UTF-16 code units, bytes are
    integers in [0, 256), both carried by [Z].  JavaScript numbers are
    IEEE 754 doubles, written by [Number::toString] and read with the
    number grammar of JSON. *)

From Stdlib Require Import String Ascii ZArith List Bool Lia Permutation.
Import ListNotations.
Open Scope Z_scope.
Set Warnings "-register-all".

(** ** Strings and bytes *)

Definition jsstring := list Z.
Definition bytes := list Z.

(** A literal of the source text: one code unit per character. *)
Definition str (s : string) : jsstring :=
  map (fun a => Z.of_N (N_of_ascii a)) (list_ascii_of_string s).

Fixpoint jsstring_eqb (a b : jsstring) : bool :=
  match a, b with
  | [], [] => true
  | x :: a', y :: b' => (x =? y) && jsstring_eqb a' b'
  | _, _ => false
  end.

(** [String.prototype.toLowerCase] on the ASCII letters.  Code units
    outside [A-Z] are left as they are. *)
Definition lower_unit (c : Z) : Z :=
  if (65 <=? c) && (c <=? 90) then c + 32 else c.

Definition toLowerCase (s : jsstring) : jsstring := map lower_unit s.

(** ** Hexadecimal rendering ([ethers] [hexlify], [getBytes], [isHexString]) *)

Definition hex_digit (n : Z) : Z :=
  if n <? 10 then 48 + n else 87 + n.

Definition hex_byte (b : Z) : jsstring :=
  [hex_digit (Z.shiftr b 4); hex_digit (Z.land b 15)].

(** [hexlify]: ["0x"] followed by two lowercase digits per byte. *)
Definition hexlify (bs : bytes) : jsstring :=
  str "0x" ++ flat_map hex_byte bs.

(** The character class [[0-9A-Fa-f]]. *)
Definition is_hex_char (c : Z) : bool :=
  ((48 <=? c) && (c <=? 57)) || ((65 <=? c) && (c <=? 70))
  || ((97 <=? c) && (c <=? 102)).

Definition hex_value (c : Z) : Z :=
  if c <=? 57 then c - 48 else if c <=? 70 then c - 55 else c - 87.

(** The regular expression [/^0x[0-9A-Fa-f]*$/]. *)
Definition match_hex (s : jsstring) : bool :=
  match s with
  | 48 :: 120 :: ds => forallb is_hex_char ds
  | _ => false
  end.

(** [isHexString(value, length)]: the pattern above and, when a byte
    length is given, exactly [2 + 2 * length] code units. *)
Definition isHexString (s : jsstring) (len : option Z) : bool :=
  match_hex s &&
  match len with
  | Some n => Z.of_nat (length s) =? 2 + 2 * n
  | None => true
  end.

Fixpoint unhex (ds : jsstring) : option bytes :=
  match ds with
  | [] => Some []
  | h :: l :: rest =>
      match unhex rest with
      | Some bs => Some (hex_value h * 16 + hex_value l :: bs)
      | None => None
      end
  | _ => None
  end.

(** [getBytes] on a string: the pattern [/^0x(?:[0-9a-f][0-9a-f])*$/i],
    a hex string of even length read two digits at a time, or it throws
    (here [None]). *)
Definition getBytes (s : jsstring) : option bytes :=
  match s with
  | z :: x :: ds =>
      if (z =? 48) && ((x =? 120) || (x =? 88)) && forallb is_hex_char ds
      then unhex ds
      else None
  | _ => None
  end.

(** ** UTF-8 encoding ([ethers] [toUtf8Bytes]) *)

(** Leading surrogates are the code units D800-DBFF, trailing ones
    DC00-DFFF: the top six bits decide. *)
Definition is_high_surrogate (c : Z) : bool := Z.land c 64512 =? 55296.
Definition is_low_surrogate (c : Z) : bool := Z.land c 64512 =? 56320.

Fixpoint toUtf8Bytes (s : jsstring) : option bytes :=
  match s with
  | [] => Some []
  | c :: rest =>
      if c <? 128 then option_map (cons c) (toUtf8Bytes rest)
      else if c <? 2048 then
        option_map
          (fun t => Z.lor (Z.shiftr c 6) 192 :: Z.lor (Z.land c 63) 128 :: t)
          (toUtf8Bytes rest)
      else if is_high_surrogate c then
        match rest with
        | c2 :: rest' =>
            if is_low_surrogate c2 then
              let pair :=
                65536 + Z.shiftl (Z.land c 1023) 10 + Z.land c2 1023 in
              option_map
                (fun t =>
                   Z.lor (Z.shiftr pair 18) 240
                   :: Z.lor (Z.land (Z.shiftr pair 12) 63) 128
                   :: Z.lor (Z.land (Z.shiftr pair 6) 63) 128
                   :: Z.lor (Z.land pair 63) 128 :: t)
                (toUtf8Bytes rest')
            else None
        | [] => None
        end
      else
        option_map
          (fun t =>
             Z.lor (Z.shiftr c 12) 224
             :: Z.lor (Z.land (Z.shiftr c 6) 63) 128
             :: Z.lor (Z.land c 63) 128 :: t)
          (toUtf8Bytes rest)
  end.

(** ** Keccak-256 *)

Module Keccak.

Definition mask64 : Z := 0xFFFFFFFFFFFFFFFF.

Definition rotl (x n : Z) : Z :=
  Z.land (Z.lor (Z.shiftl x n) (Z.shiftr x (64 - n))) mask64.

(** The state is 25 lanes of 64 bits; lane (x, y) sits at [x + 5 * y]. *)
Definition lane (st : list Z) (x y : nat) : Z :=
  nth (x mod 5 + 5 * (y mod 5)) st 0.

Definition coords : list (nat * nat) :=
  map (fun i => (i mod 5, i / 5)%nat) (seq 0 25).

Definition rotc : list Z :=
  [ 0;  1; 62; 28; 27;
   36; 44;  6; 55; 20;
    3; 10; 43; 25; 39;
   41; 45; 15; 21;  8;
   18;  2; 61; 56; 14].

Definition RC : list Z :=
  [0x0000000000000001; 0x0000000000008082; 0x800000000000808A;
   0x8000000080008000; 0x000000000000808B; 0x0000000080000001;
   0x8000000080008081; 0x8000000000008009; 0x000000000000008A;
   0x0000000000000088; 0x0000000080008009; 0x000000008000000A;
   0x000000008000808B; 0x800000000000008B; 0x8000000000008089;
   0x8000000000008003; 0x8000000000008002; 0x8000000000000080;
   0x000000000000800A; 0x800000008000000A; 0x8000000080008081;
   0x8000000000008080; 0x0000000080000001; 0x8000000080008008].

Definition column (st : list Z) (x : nat) : Z :=
  Z.lxor (lane st x 0)
    (Z.lxor (lane st x 1)
       (Z.lxor (lane st x 2) (Z.lxor (lane st x 3) (lane st x 4)))).

Definition theta (st : list Z) : list Z :=
  map (fun '(x, y) =>
         Z.lxor (lane st x y)
           (Z.lxor (column st (x + 4)) (rotl (column st (x + 1)) 1)))
      coords.

(** rho and pi together: the lane written at (x, y) is read from
    (x + 3y, x) and rotated by that lane's offset. *)
Definition rho_pi (st : list Z) : list Z :=
  map (fun '(x, y) =>
         let sx := ((x + 3 * y) mod 5)%nat in
         rotl (lane st sx x) (nth (sx + 5 * x) rotc 0))
      coords.

Definition chi (st : list Z) : list Z :=
  map (fun '(x, y) =>
         Z.lxor (lane st x y)
           (Z.land (Z.lxor (lane st (x + 1) y) mask64)
              (lane st (x + 2) y)))
      coords.

Definition iota (rc : Z) (st : list Z) : list Z :=
  match st with
  | l0 :: rest => Z.lxor l0 rc :: rest
  | [] => []
  end.

Definition round (st : list Z) (rc : Z) : list Z :=
  iota rc (chi (rho_pi (theta st))).

Definition keccak_f (st : list Z) : list Z := fold_left round RC st.

(** Little-endian lanes. *)
Fixpoint lane_of_bytes (bs : bytes) : Z :=
  match bs with
  | [] => 0
  | b :: rest => b + 256 * lane_of_bytes rest
  end.

Fixpoint bytes_of_lane (n : nat) (l : Z) : bytes :=
  match n with
  | O => []
  | S k => l mod 256 :: bytes_of_lane k (l / 256)
  end.

Fixpoint lanes_of_block (n : nat) (bs : bytes) : list Z :=
  match n with
  | O => []
  | S k => lane_of_bytes (firstn 8 bs) :: lanes_of_block k (skipn 8 bs)
  end.

Fixpoint xor_lanes (st blk : list Z) : list Z :=
  match st, blk with
  | s :: st', b :: blk' => Z.lxor s b :: xor_lanes st' blk'
  | _, _ => st
  end.

Definition rate : nat := 136.

(** Keccak padding (domain byte 0x01, final bit 0x80). *)
Definition pad (len : nat) : bytes :=
  let q := (rate - len mod rate)%nat in
  if (q =? 1)%nat then [0x81]
  else 0x01 :: repeat 0 (q - 2) ++ [0x80].

Fixpoint absorb (fuel : nat) (st : list Z) (bs : bytes) : list Z :=
  match fuel with
  | O => st
  | S f =>
      match bs with
      | [] => st
      | _ =>
          absorb f
            (keccak_f (xor_lanes st (lanes_of_block 17 (firstn rate bs))))
            (skipn rate bs)
      end
  end.

Definition squeeze (st : list Z) : bytes :=
  flat_map (fun i => bytes_of_lane 8 (nth i st 0)) (seq 0 4).

Definition keccak_256 (msg : bytes) : bytes :=
  let padded := msg ++ pad (length msg) in
  squeeze (absorb (S (length padded / rate)) (repeat 0 25%nat) padded).

End Keccak.

(** [ethers.keccak256]: the digest rendered by [hexlify]. *)
Definition keccak256 (data : bytes) : jsstring :=
  hexlify (Keccak.keccak_256 data).

(** ** Numbers

    A JavaScript number is an IEEE 754 double.  A finite one is carried
    as its sign and the pair [m], [e] of its value [m * 2 ^ e], with [m]
    odd, or [m = 0] and [e = 0]; the two zeros differ by the sign. *)

Inductive number :=
| Finite (negative : bool) (m e : Z)
| Infinite (negative : bool).

Definition number_eqb (x y : number) : bool :=
  match x, y with
  | Finite a m e, Finite b m' e' => Bool.eqb a b && (m =? m') && (e =? e')
  | Infinite a, Infinite b => Bool.eqb a b
  | _, _ => false
  end.

Definition is_finite (x : number) : bool :=
  match x with
  | Finite _ _ _ => true
  | Infinite _ => false
  end.

Definition is_zero (x : number) : bool :=
  match x with
  | Finite _ m _ => m =? 0
  | Infinite _ => false
  end.

Fixpoint strip_twos (p : positive) (e : Z) : positive * Z :=
  match p with
  | xO p' => strip_twos p' (e + 1)
  | _ => (p, e)
  end.

(** The number [m * 2 ^ e], for [0 <= m]. *)
Definition dyadic (negative : bool) (m e : Z) : number :=
  match m with
  | Zpos p => let (p', e') := strip_twos p e in Finite negative (Zpos p') e'
  | _ => Finite negative 0 0
  end.

(** The number of an integer; a double when it is below 2^53. *)
Definition of_Z (n : Z) : number := dyadic (n <? 0) (Z.abs n) 0.

(** The values of the double format: 53 bits, exponents from -1074, and
    a magnitude below 2^1024. *)
Definition is_double (x : number) : bool :=
  match x with
  | Finite _ m e =>
      if m =? 0 then e =? 0
      else (0 <? m) && Z.odd m && (m <? 2 ^ 53) && (-1074 <=? e)
           && (Z.log2 m + e <? 1024)
  | Infinite _ => true
  end.

(** *** Rounding to the nearest double *)

(** The integer [l] with [2 ^ l <= p / q < 2 ^ (l + 1)]. *)
Definition floor_log2 (p q : Z) : Z :=
  let l := Z.log2 p - Z.log2 q in
  if (if 0 <=? l then q * 2 ^ l <=? p else q <=? p * 2 ^ (- l))
  then l else l - 1.

(** The double nearest to [p / q], for positive [p] and [q]; a tie goes
    to the even significand, and a magnitude of 2^1024 or more after
    rounding is an infinity. *)
Definition round_ratio (negative : bool) (p q : Z) : number :=
  let e := Z.max (floor_log2 p q - 52) (-1074) in
  let num := if 0 <=? e then p else p * 2 ^ (- e) in
  let den := if 0 <=? e then q * 2 ^ e else q in
  let m := num / den in
  let r := num mod den in
  let m' := if (den <? 2 * r) || ((den =? 2 * r) && Z.odd m)
            then m + 1 else m in
  if (0 <? m') && (1024 <=? Z.log2 m' + e) then Infinite negative
  else dyadic negative m' e.

(** The double nearest to [s * 10 ^ E], for [0 <= s]. *)
Definition round_decimal (negative : bool) (s E : Z) : number :=
  if s =? 0 then Finite negative 0 0
  else if 0 <=? E then round_ratio negative (s * 10 ^ E) 1
  else round_ratio negative s (10 ^ (- E)).

(** ** JSON values

    The values [JSON.parse] builds: null, booleans, numbers, strings,
    arrays and plain objects.  An object is its list of own properties in
    enumeration order.  [None] of type [option json] is [undefined]. *)

Inductive json : Type :=
| JNull
| JBool (b : bool)
| JNum (x : number)
| JStr (s : jsstring)
| JArr (xs : list json)
| JObj (kvs : list (jsstring * json)).

(** The number of an integer. *)
Definition JInt (n : Z) : json := JNum (of_Z n).

(** [ToBoolean]. *)
Definition truthy (v : option json) : bool :=
  match v with
  | None => false
  | Some JNull => false
  | Some (JBool b) => b
  | Some (JNum x) => negb (is_zero x)
  | Some (JStr s) => match s with [] => false | _ => true end
  | Some (JArr _) => true
  | Some (JObj _) => true
  end.

Inductive jstype := TUndefined | TObject | TBoolean | TNumber | TString.

(** The [typeof] operator. *)
Definition typeof (v : option json) : jstype :=
  match v with
  | None => TUndefined
  | Some JNull => TObject
  | Some (JBool _) => TBoolean
  | Some (JNum _) => TNumber
  | Some (JStr _) => TString
  | Some (JArr _) => TObject
  | Some (JObj _) => TObject
  end.

Definition jstype_eqb (a b : jstype) : bool :=
  match a, b with
  | TUndefined, TUndefined | TObject, TObject | TBoolean, TBoolean
  | TNumber, TNumber | TString, TString => true
  | _, _ => false
  end.

Fixpoint assoc (k : jsstring) (kvs : list (jsstring * json)) : option json :=
  match kvs with
  | [] => None
  | (k', v) :: rest => if jsstring_eqb k k' then Some v else assoc k rest
  end.

(** Property read [o.name] on a parsed value: an own property of an
    object, [undefined] otherwise. *)
Definition get_prop (o : json) (name : string) : option json :=
  match o with
  | JObj kvs => assoc (str name) kvs
  | _ => None
  end.

(** *** Property order of an object

    Array-index keys come first in ascending numeric order, the other
    keys follow in creation order. *)

Definition is_digit (c : Z) : bool := (48 <=? c) && (c <=? 57).

Fixpoint digits_value (acc : Z) (s : jsstring) : Z :=
  match s with
  | [] => acc
  | c :: rest => digits_value (acc * 10 + (c - 48)) rest
  end.

(** A canonical numeric string below 2^32 - 1. *)
Definition array_index (k : jsstring) : option Z :=
  match k with
  | [] => None
  | c :: rest =>
      if forallb is_digit k
         && (negb (c =? 48) || match rest with [] => true | _ => false end)
         && (length k <=? 10)%nat
         && (digits_value 0 k <? 4294967295)
      then Some (digits_value 0 k)
      else None
  end.

Fixpoint replace_prop (k : jsstring) (v : json) (kvs : list (jsstring * json))
  : list (jsstring * json) :=
  match kvs with
  | [] => []
  | (k', v') :: rest =>
      if jsstring_eqb k k' then (k', v) :: rest
      else (k', v') :: replace_prop k v rest
  end.

Fixpoint insert_index (i : Z) (k : jsstring) (v : json)
  (kvs : list (jsstring * json)) : list (jsstring * json) :=
  match kvs with
  | [] => [(k, v)]
  | (k', v') :: rest =>
      match array_index k' with
      | Some j =>
          if j <? i then (k', v') :: insert_index i k v rest
          else (k, v) :: kvs
      | None => (k, v) :: kvs
      end
  end.

(** Defining property [k] with value [v] on an object. *)
Definition set_prop (kvs : list (jsstring * json)) (k : jsstring) (v : json)
  : list (jsstring * json) :=
  match assoc k kvs with
  | Some _ => replace_prop k v kvs
  | None =>
      match array_index k with
      | Some i => insert_index i k v kvs
      | None => kvs ++ [(k, v)]
      end
  end.

(** ** [JSON.stringify] *)

Definition hex4 (c : Z) : jsstring :=
  [hex_digit (Z.land (Z.shiftr c 12) 15); hex_digit (Z.land (Z.shiftr c 8) 15);
   hex_digit (Z.land (Z.shiftr c 4) 15); hex_digit (Z.land c 15)].

Definition unicode_escape (c : Z) : jsstring := 92 :: 117 :: hex4 c.

(** One code unit that is not part of a surrogate pair. *)
Definition quote_unit (c : Z) : jsstring :=
  if c =? 8 then str "\b"
  else if c =? 9 then str "\t"
  else if c =? 10 then str "\n"
  else if c =? 12 then str "\f"
  else if c =? 13 then str "\r"
  else if c =? 34 then [92; 34]
  else if c =? 92 then [92; 92]
  else if (c <? 32) || is_high_surrogate c || is_low_surrogate c
  then unicode_escape c
  else [c].

Fixpoint quote_units (s : jsstring) : jsstring :=
  match s with
  | [] => []
  | c :: rest =>
      if is_high_surrogate c then
        match rest with
        | c2 :: rest' =>
            if is_low_surrogate c2 then c :: c2 :: quote_units rest'
            else quote_unit c ++ quote_units rest
        | [] => quote_unit c
        end
      else quote_unit c ++ quote_units rest
  end.

(** [QuoteJSONString]. *)
Definition quote (s : jsstring) : jsstring := 34 :: quote_units s ++ [34].

Fixpoint digits_fuel (fuel : nat) (n : Z) (acc : jsstring) : jsstring :=
  match fuel with
  | O => acc
  | S f =>
      if n <? 10 then 48 + n :: acc
      else digits_fuel f (n / 10) (48 + n mod 10 :: acc)
  end.

Definition decimal (n : Z) : jsstring :=
  digits_fuel (S (Z.to_nat (Z.log2 n))) n [].

(** [Number::toString]. *)

(** [m * 2 ^ e] as [s * 10 ^ E]. *)
Definition exact_decimal (m e : Z) : Z * Z :=
  if 0 <=? e then (m * 2 ^ e, 0) else (m * 5 ^ (- e), e).

Fixpoint strip_zeros (fuel : nat) (s E : Z) : Z * Z :=
  match fuel with
  | O => (s, E)
  | S f =>
      if (0 <? s) && (s mod 10 =? 0) then strip_zeros f (s / 10) (E + 1)
      else (s, E)
  end.

(** [s * 10 ^ E] without the trailing zeros of [s]. *)
Definition significand (s E : Z) : Z * Z :=
  strip_zeros (Z.to_nat (Z.log2 s)) s E.

(** [s * 10 ^ E], when it rounds to [x]. *)
Definition rounds_to (x : number) (s E : Z) : option (Z * Z) :=
  let (s', E') := significand s E in
  if number_eqb (round_decimal false s' E') x then Some (s', E') else None.

(** The decimal of [k] digits, the first of weight [10 ^ (n - 1)], that
    rounds to [x] and is nearest to [P / Q], the value of [x]; the even
    one of two that are as near. *)
Definition candidate (x : number) (P Q n k : Z) : option (Z * Z) :=
  let E := n - k in
  let num := if 0 <=? E then P else P * 10 ^ (- E) in
  let den := if 0 <=? E then Q * 10 ^ E else Q in
  let lo := num / den in
  let r := num mod den in
  match rounds_to x lo E, rounds_to x (lo + 1) E with
  | Some a, Some b =>
      if (2 * r <? den) || ((2 * r =? den) && Z.even lo) then Some a
      else Some b
  | Some a, None => Some a
  | None, Some b => Some b
  | None, None => None
  end.

Fixpoint shortest (fuel : nat) (x : number) (P Q n k : Z) : option (Z * Z) :=
  match fuel with
  | O => None
  | S f =>
      match candidate x P Q n k with
      | Some c => Some c
      | None => shortest f x P Q n (k + 1)
      end
  end.

(** The digits [s] and the exponent [E] of the text of [m * 2 ^ e]: the
    decimal [s * 10 ^ E] with the fewest digits that rounds to it. *)
Definition digits_of (m e : Z) : Z * Z :=
  let (S0, E0) := exact_decimal m e in
  let K := Z.of_nat (length (decimal S0)) in
  let P := if 0 <=? e then m * 2 ^ e else m in
  let Q := if 0 <=? e then 1 else 2 ^ (- e) in
  match shortest (Z.to_nat K) (Finite false m e) P Q (K + E0) 1 with
  | Some c => c
  | None => significand S0 E0
  end.

(** The text of [s * 10 ^ E], with [n] the position of the decimal
    point after the first digit of [s]. *)
Definition decimal_text (s E : Z) : jsstring :=
  let ds := decimal s in
  let k := Z.of_nat (length ds) in
  let n := k + E in
  if (k <=? n) && (n <=? 21) then ds ++ repeat 48 (Z.to_nat (n - k))
  else if (0 <? n) && (n <=? 21)
  then firstn (Z.to_nat n) ds ++ 46 :: skipn (Z.to_nat n) ds
  else if (-6 <? n) && (n <=? 0)
  then 48 :: 46 :: repeat 48 (Z.to_nat (- n)) ++ ds
  else
    let exponent :=
      101 :: (if n - 1 <? 0 then 45 else 43) :: decimal (Z.abs (n - 1)) in
    match ds with
    | d :: (_ :: _) as rest => d :: 46 :: rest ++ exponent
    | _ => ds ++ exponent
    end.

Definition NumberToString (x : number) : jsstring :=
  match x with
  | Infinite negative => if negative then str "-Infinity" else str "Infinity"
  | Finite negative m e =>
      if m =? 0 then str "0"
      else
        let (s, E) := digits_of m e in
        if negative then 45 :: decimal_text s E else decimal_text s E
  end.

Fixpoint join_comma (parts : list jsstring) : jsstring :=
  match parts with
  | [] => []
  | [p] => p
  | p :: rest => p ++ 44 :: join_comma rest
  end.

Fixpoint stringify (v : json) : jsstring :=
  match v with
  | JNull => str "null"
  | JBool true => str "true"
  | JBool false => str "false"
  | JNum x => if is_finite x then NumberToString x else str "null"
  | JStr s => quote s
  | JArr xs => 91 :: join_comma (map stringify xs) ++ [93]
  | JObj kvs =>
      123 :: join_comma
               (map (fun '(k, x) => quote k ++ 58 :: stringify x) kvs)
          ++ [125]
  end.

(** [JSON.stringify(value)]; [undefined] yields [undefined]. *)
Definition JSON_stringify (v : option json) : option jsstring :=
  option_map stringify v.

(** ** [JSON.parse] *)

Definition is_ws (c : Z) : bool :=
  (c =? 32) || (c =? 9) || (c =? 10) || (c =? 13).

Fixpoint skip_ws (s : jsstring) : jsstring :=
  match s with
  | c :: rest => if is_ws c then skip_ws rest else s
  | [] => []
  end.

Definition unhex4 (a b c d : Z) : option Z :=
  if is_hex_char a && is_hex_char b && is_hex_char c && is_hex_char d
  then Some (((hex_value a * 16 + hex_value b) * 16 + hex_value c) * 16
             + hex_value d)
  else None.

Definition unescape (c : Z) : option Z :=
  if c =? 34 then Some 34
  else if c =? 92 then Some 92
  else if c =? 47 then Some 47
  else if c =? 98 then Some 8
  else if c =? 102 then Some 12
  else if c =? 110 then Some 10
  else if c =? 114 then Some 13
  else if c =? 116 then Some 9
  else None.

(** The characters of a string literal after its opening quote. *)
Fixpoint parse_string (s : jsstring) : option (jsstring * jsstring) :=
  match s with
  | [] => None
  | c :: rest =>
      if c =? 34 then Some ([], rest)
      else if c =? 92 then
        match rest with
        | e :: rest1 =>
            if e =? 117 then
              match rest1 with
              | h1 :: h2 :: h3 :: h4 :: rest2 =>
                  match unhex4 h1 h2 h3 h4, parse_string rest2 with
                  | Some u, Some (t, r) => Some (u :: t, r)
                  | _, _ => None
                  end
              | _ => None
              end
            else
              match unescape e, parse_string rest1 with
              | Some u, Some (t, r) => Some (u :: t, r)
              | _, _ => None
              end
        | [] => None
        end
      else if c <? 32 then None
      else
        match parse_string rest with
        | Some (t, r) => Some (c :: t, r)
        | None => None
        end
  end.

Fixpoint parse_digits (acc : Z) (s : jsstring) : Z * jsstring :=
  match s with
  | c :: rest =>
      if is_digit c then parse_digits (acc * 10 + (c - 48)) rest
      else (acc, s)
  | [] => (acc, [])
  end.

(** The digits of a fraction: the value with them appended, and their
    number. *)
Fixpoint parse_fraction (acc count : Z) (s : jsstring) : Z * Z * jsstring :=
  match s with
  | c :: rest =>
      if is_digit c then parse_fraction (acc * 10 + (c - 48)) (count + 1) rest
      else (acc, count, s)
  | [] => (acc, count, [])
  end.

(** The exponent part, when there is one. *)
Definition parse_exponent (s : jsstring) : option (Z * jsstring) :=
  match s with
  | c :: r =>
      if (c =? 101) || (c =? 69) then
        let (negative, r1) :=
          match r with
          | c1 :: r' =>
              if c1 =? 45 then (true, r')
              else if c1 =? 43 then (false, r')
              else (false, r)
          | [] => (false, r)
          end in
        match r1 with
        | d :: _ =>
            if is_digit d then
              let (x, r2) := parse_digits 0 r1 in
              Some (if negative then - x else x, r2)
            else None
        | [] => None
        end
      else Some (0, s)
  | [] => Some (0, s)
  end.

(** The literal after its sign: an integer part without a leading zero,
    an optional fraction and an optional exponent. *)
Definition parse_magnitude (negative : bool) (s : jsstring)
  : option (number * jsstring) :=
  match s with
  | d :: r =>
      if is_digit d then
        let (i, r1) := parse_digits 0 s in
        if (d =? 48) && match r with c :: _ => is_digit c | [] => false end
        then None
        else
          let fraction :=
            match r1 with
            | c :: r2 =>
                if c =? 46 then
                  match r2 with
                  | d2 :: _ =>
                      if is_digit d2 then Some (parse_fraction i 0 r2)
                      else None
                  | [] => None
                  end
                else Some (i, 0, r1)
            | [] => Some (i, 0, r1)
            end in
          match fraction with
          | Some (digits, count, r3) =>
              match parse_exponent r3 with
              | Some (x, r4) =>
                  Some (round_decimal negative digits (x - count), r4)
              | None => None
              end
          | None => None
          end
      else None
  | [] => None
  end.

(** A number literal. *)
Definition parse_number (s : jsstring) : option (number * jsstring) :=
  match s with
  | c :: r =>
      if c =? 45 then parse_magnitude true r else parse_magnitude false s
  | [] => None
  end.

Fixpoint strip_prefix (p s : jsstring) : option jsstring :=
  match p, s with
  | [], _ => Some s
  | a :: p', b :: s' => if a =? b then strip_prefix p' s' else None
  | _ :: _, [] => None
  end.

Fixpoint parse_value (fuel : nat) (s : jsstring) : option (json * jsstring) :=
  match fuel with
  | O => None
  | S f =>
      match skip_ws s with
      | [] => None
      | c :: r =>
          if c =? 34 then
            match parse_string r with
            | Some (t, r') => Some (JStr t, r')
            | None => None
            end
          else if c =? 91 then
            match skip_ws r with
            | c' :: r' =>
                if c' =? 93 then Some (JArr [], r')
                else parse_elements f [] r
            | [] => None
            end
          else if c =? 123 then
            match skip_ws r with
            | c' :: r' =>
                if c' =? 125 then Some (JObj [], r')
                else parse_members f [] r
            | [] => None
            end
          else if c =? 110 then
            option_map (pair JNull) (strip_prefix (str "ull") r)
          else if c =? 116 then
            option_map (pair (JBool true)) (strip_prefix (str "rue") r)
          else if c =? 102 then
            option_map (pair (JBool false)) (strip_prefix (str "alse") r)
          else
            match parse_number (c :: r) with
            | Some (n, r') => Some (JNum n, r')
            | None => None
            end
      end
  end

with parse_elements (fuel : nat) (acc : list json) (s : jsstring)
  : option (json * jsstring) :=
  match fuel with
  | O => None
  | S f =>
      match parse_value f s with
      | Some (v, r) =>
          match skip_ws r with
          | c :: r' =>
              if c =? 44 then parse_elements f (v :: acc) r'
              else if c =? 93 then Some (JArr (rev (v :: acc)), r')
              else None
          | [] => None
          end
      | None => None
      end
  end

with parse_members (fuel : nat) (acc : list (jsstring * json)) (s : jsstring)
  : option (json * jsstring) :=
  match fuel with
  | O => None
  | S f =>
      match skip_ws s with
      | q :: r0 =>
          if q =? 34 then
            match parse_string r0 with
            | Some (k, r1) =>
                match skip_ws r1 with
                | c1 :: r2 =>
                    if c1 =? 58 then
                      match parse_value f r2 with
                      | Some (v, r3) =>
                          match skip_ws r3 with
                          | c :: r' =>
                              if c =? 44 then
                                parse_members f (set_prop acc k v) r'
                              else if c =? 125 then
                                Some (JObj (set_prop acc k v), r')
                              else None
                          | [] => None
                          end
                      | None => None
                      end
                    else None
                | [] => None
                end
            | None => None
            end
          else None
      | [] => None
      end
  end.

(** [JSON.parse(text)]; a syntax error is [None]. *)
Definition JSON_parse (s : jsstring) : option json :=
  match parse_value (S (length s)) s with
  | Some (v, rest) =>
      match skip_ws rest with
      | [] => Some v
      | _ => None
      end
  | None => None
  end.

(** ** The values a request can carry

    Strings are made of code units, numbers are doubles, and the keys of
    an object are distinct and in property order. *)

Definition code_unit (c : Z) : bool := (0 <=? c) && (c <? 65536).

(** A number that [JSON.stringify] writes and [JSON.parse] reads back
    as it is: a finite double other than the negative zero. *)
Definition json_number (x : number) : bool :=
  is_double x && is_finite x
  && negb (match x with
           | Finite negative m _ => negative && (m =? 0)
           | Infinite _ => false
           end).

Fixpoint nodup_keys (ks : list jsstring) : bool :=
  match ks with
  | [] => true
  | k :: rest => negb (existsb (jsstring_eqb k) rest) && nodup_keys rest
  end.

(** [lo] is the last array index seen, [strings] tells that a key that
    is not an array index was seen. *)
Fixpoint ordered_keys (lo : Z) (strings : bool) (ks : list jsstring) : bool :=
  match ks with
  | [] => true
  | k :: rest =>
      match array_index k with
      | Some i => negb strings && (lo <? i) && ordered_keys i false rest
      | None => ordered_keys lo true rest
      end
  end.

Definition object_keys (ks : list jsstring) : bool :=
  forallb (forallb code_unit) ks && nodup_keys ks && ordered_keys (-1) false ks.

(** A value that [JSON.parse] can build. *)
Fixpoint parsable (v : json) : bool :=
  match v with
  | JNull => true
  | JBool _ => true
  | JNum x => is_double x
  | JStr s => forallb code_unit s
  | JArr xs => forallb parsable xs
  | JObj kvs =>
      object_keys (map fst kvs)
      && forallb (fun kv => parsable (snd kv)) kvs
  end.

(** Such a value whose numbers are all written and read back as they
    are. *)
Fixpoint well_formed (v : json) : bool :=
  match v with
  | JNull => true
  | JBool _ => true
  | JNum x => json_number x
  | JStr s => forallb code_unit s
  | JArr xs => forallb well_formed xs
  | JObj kvs =>
      object_keys (map fst kvs)
      && forallb (fun kv => well_formed (snd kv)) kvs
  end.

(** What [JSON.stringify] keeps of a value: a number that is not finite
    is written [null], and the negative zero is written [0]. *)
Fixpoint reparsed (v : json) : json :=
  match v with
  | JNum x =>
      if is_finite x then
        if is_zero x then JNum (Finite false 0 0) else JNum x
      else JNull
  | JArr xs => JArr (map reparsed xs)
  | JObj kvs => JObj (map (fun kv => (fst kv, reparsed (snd kv))) kvs)
  | _ => v
  end.

(** ** [parseInt]

    The integer denoted by the longest numeric prefix, [None] for [NaN].
    Below 2^53 this integer is the resulting number itself. *)

Definition is_str_ws (c : Z) : bool :=
  ((9 <=? c) && (c <=? 13)) || (c =? 32) || (c =? 160) || (c =? 5760)
  || ((8192 <=? c) && (c <=? 8202)) || (c =? 8232) || (c =? 8233)
  || (c =? 8239) || (c =? 8287) || (c =? 12288) || (c =? 65279).

Fixpoint trim_start (s : jsstring) : jsstring :=
  match s with
  | c :: rest => if is_str_ws c then trim_start rest else s
  | [] => []
  end.

Definition radix_digit (radix c : Z) : option Z :=
  if is_digit c then Some (c - 48)
  else if (radix =? 16) && is_hex_char c then Some (hex_value c)
  else None.

Fixpoint radix_prefix (radix : Z) (acc : option Z) (s : jsstring) : option Z :=
  match s with
  | c :: rest =>
      match radix_digit radix c with
      | Some d =>
          radix_prefix radix
            (Some (match acc with Some a => a * radix + d | None => d end))
            rest
      | None => acc
      end
  | [] => acc
  end.

Definition parseInt_string (s : jsstring) : option Z :=
  let s0 := trim_start s in
  let (sign, s1) :=
    match s0 with
    | c :: r =>
        if c =? 45 then (-1, r) else if c =? 43 then (1, r) else (1, s0)
    | [] => (1, s0)
    end in
  let (radix, s2) :=
    match s1 with
    | z :: x :: r =>
        if (z =? 48) && ((x =? 120) || (x =? 88)) then (16, r) else (10, s1)
    | _ => (10, s1)
    end in
  option_map (Z.mul sign) (radix_prefix radix None s2).

(** A parsed query-string parameter (the [qs] shapes). *)
Inductive qvalue :=
| QUndefined
| QStr (s : jsstring)
| QArr (items : list jsstring)
| QObj.

Definition ToString (q : qvalue) : jsstring :=
  match q with
  | QUndefined => str "undefined"
  | QStr s => s
  | QArr items => join_comma items
  | QObj => str "[object Object]"
  end.

Definition parseInt (q : qvalue) : option Z := parseInt_string (ToString q).

(** [x || d] on a number: [NaN] and zero are falsy. *)
Definition or_default (x : option Z) (d : Z) : Z :=
  match x with
  | Some n => if n =? 0 then d else n
  | None => d
  end.

(** ** Signatures ([ethers] [Signature], [hashMessage], [verifyMessage]) *)

(** The secp256k1 primitives, the address check and the reading of a
    signature that is not a string are library code:
    [ecrecover digest r s yParity] recovers the public key and renders its
    address (or throws); [isAddress] is [ethers.isAddress];
    [Signature_like] is [Signature.from] on a value that is not a string,
    such as an object with the fields r, s and v, with [None] when it
    throws. *)
Record Ethers := {
  ecrecover : bytes -> bytes -> bytes -> bool -> option jsstring;
  isAddress : option json -> bool;
  Signature_like : option json -> option (bytes * bytes * bool)
}.

(** [new ethers.Wallet(privateKey)]: its address and its signing key,
    which maps a 32-byte digest to (r, s, yParity). *)
Record Wallet := {
  address : jsstring;
  sign : bytes -> bytes * bytes * bool
}.

(** [Signature.serialized]: r, s and the byte 0x1b or 0x1c. *)
Definition serialized (sg : bytes * bytes * bool) : jsstring :=
  let '(r, s, yParity) := sg in
  hexlify (r ++ s ++ [if yParity then 28 else 27]).

(** [Signature.getNormalizedV], as a parity. *)
Definition getNormalizedV (v : Z) : option bool :=
  if (v =? 0) || (v =? 27) then Some false
  else if (v =? 1) || (v =? 28) then Some true
  else if 35 <=? v then Some (negb (Z.odd v))
  else None.

(** [Signature.from] on a string: 64 bytes in compact form or 65 bytes
    with a canonical s. *)
Definition Signature_from (sig : jsstring) : option (bytes * bytes * bool) :=
  match getBytes sig with
  | None => None
  | Some bs =>
      let r := firstn 32 bs in
      let s := firstn 32 (skipn 32 bs) in
      if (length bs =? 64)%nat then
        match s with
        | s0 :: s' =>
            Some (r, Z.land s0 127 :: s', negb (Z.land s0 128 =? 0))
        | [] => None
        end
      else if (length bs =? 65)%nat then
        match s, skipn 64 bs with
        | s0 :: _, [v] =>
            if Z.land s0 128 =? 0 then
              option_map (fun p => (r, s, p)) (getNormalizedV v)
            else None
        | _, _ => None
        end
      else None
  end.

Definition MessagePrefix : bytes :=
  25 :: str "Ethereum Signed Message:" ++ [10].

(** [hashMessage] on bytes: prefix, decimal length, message. *)
Definition hashMessage (message : bytes) : jsstring :=
  keccak256
    (MessagePrefix ++ decimal (Z.of_nat (length message)) ++ message).

(** ** The votes table *)

Record row := {
  row_id : jsstring;
  row_data : jsstring;
  row_signature : jsstring;
  row_signer : option jsstring;
  row_created_at : Z
}.

Definition table := list row.

Definition select_by_id (id : jsstring) (t : table) : list row :=
  filter (fun r => jsstring_eqb (row_id r) id) t.

Fixpoint insert_desc (r : row) (sorted : list row) : list row :=
  match sorted with
  | [] => [r]
  | r' :: rest =>
      if row_created_at r' <? row_created_at r then r :: sorted
      else r' :: insert_desc r rest
  end.

(** [ORDER BY created_at DESC]. *)
Definition order_desc (t : table) : list row := fold_right insert_desc [] t.

(** ** Handlers: state, exceptions and effects *)

(** The statements sent to the database, with their parameters. *)
Inductive statement :=
| Insert (id data signature : jsstring) (signer : option jsstring)
| SelectById (id : jsstring)
| SelectPage (limit offset : Z).

Inductive event :=
| EvSign (digest : jsstring)
| EvDb (st : statement).

Inductive exn :=
| ER_DUP_ENTRY
| ER_WRONG_ARGUMENTS
| InvalidArgument
| TypeError
| SyntaxError.

(** A computation reads and writes the table, may throw, and leaves a
    trace of the signing and database calls it made. *)
Definition M (A : Type) : Type := table -> (exn + A) * table * list event.

Definition ret {A} (a : A) : M A := fun t => (inr a, t, []).

Definition throw {A} (e : exn) : M A := fun t => (inl e, t, []).

Definition bind {A B} (m : M A) (k : A -> M B) : M B :=
  fun t =>
    match m t with
    | (inl e, t1, tr1) => (inl e, t1, tr1)
    | (inr a, t1, tr1) =>
        match k a t1 with
        | (res, t2, tr2) => (res, t2, tr1 ++ tr2)
        end
    end.

(** [try { m } catch (error) { h error }]. *)
Definition try_catch {A} (m : M A) (h : exn -> M A) : M A :=
  fun t =>
    match m t with
    | (inl e, t1, tr1) =>
        match h e t1 with
        | (res, t2, tr2) => (res, t2, tr1 ++ tr2)
        end
    | (inr a, t1, tr1) => (inr a, t1, tr1)
    end.

Definition emit (ev : event) : M unit := fun t => (inr tt, t, [ev]).

Definition orThrow {A} (o : option A) (e : exn) : M A :=
  match o with
  | Some a => ret a
  | None => throw e
  end.

Declare Scope m_scope.
Delimit Scope m_scope with M.
Notation "x <- m ;; k" := (bind m (fun x => k))
  (at level 61, m at next level, right associativity) : m_scope.
Notation "m ;;; k" := (bind m (fun _ => k))
  (at level 61, right associativity) : m_scope.

Open Scope m_scope.

(** [INSERT INTO votes ...]: the primary key rejects a second row with
    the same id; [created_at] takes the current timestamp. *)
Definition db_insert (now : Z) (id data signature : jsstring)
  (signer : option jsstring) : M unit :=
  emit (EvDb (Insert id data signature signer)) ;;;
  fun t =>
    match select_by_id id t with
    | [] =>
        (inr tt,
         t ++ [{| row_id := id; row_data := data;
                  row_signature := signature; row_signer := signer;
                  row_created_at := now |}],
         [])
    | _ :: _ => (inl ER_DUP_ENTRY, t, [])
    end.

(** [SELECT * FROM votes WHERE id = ?]. *)
Definition db_select (id : jsstring) : M (list row) :=
  emit (EvDb (SelectById id)) ;;;
  fun t => (inr (select_by_id id t), t, []).

(** [SELECT id, created_at ... ORDER BY created_at DESC LIMIT ? OFFSET ?];
    negative arguments are refused by the server. *)
Definition db_page (limit offset : Z) : M (list row) :=
  emit (EvDb (SelectPage limit offset)) ;;;
  fun t =>
    if (limit <? 0) || (offset <? 0) then (inl ER_WRONG_ARGUMENTS, t, [])
    else
      (inr (firstn (Z.to_nat limit) (skipn (Z.to_nat offset) (order_desc t))),
       t, []).

(** ** Responses *)

Record response := { status : Z; body : json }.

Definition text (s : string) : json := JStr (str s).
Definition field (k : string) (v : json) : jsstring * json := (str k, v).

Definition json_response (st : Z) (b : json) : M response :=
  ret {| status := st; body := b |}.

Definition error_response (st : Z) (msg code : string) : response :=
  {| status := st;
     body := JObj [field "error" (text msg); field "code" (text code)] |}.

Definition opt_json (o : option jsstring) : json :=
  match o with
  | Some s => JStr s
  | None => JNull
  end.

Definition code_of (r : response) : option json := get_prop (body r) "code".

(** ** Code shared by the variants of [index.js] *)

Section Common.

Variable E : Ethers.
Variable wallet : Wallet.

(** [wallet.signMessage(message)]: sign the personal-message digest
    and serialize the signature. *)
Definition signMessage (message : bytes) : M jsstring :=
  let digest := hashMessage message in
  emit (EvSign digest) ;;;
  d <- orThrow (getBytes digest) InvalidArgument ;;
  ret (serialized (sign wallet d)).

(** [ethers.verifyMessage(message, sig)]; [None] when it throws.  The
    signature is read by [Signature.from], a string by its bytes and any
    other value by its fields. *)
Definition verifyMessage (message : bytes) (sig : option json)
  : option jsstring :=
  match match sig with
        | Some (JStr s) => Signature_from s
        | _ => Signature_like E sig
        end,
        getBytes (hashMessage message)
  with
  | Some (r, s', yParity), Some d => ecrecover E d r s' yParity
  | _, _ => None
  end.

(** [ethers.keccak256(ethers.toUtf8Bytes(JSON.stringify(data)))]. *)
Definition data_id (data : option json) : option jsstring :=
  match JSON_stringify data with
  | Some dataString => option_map keccak256 (toUtf8Bytes dataString)
  | None => None
  end.

(** The effective [limit] and [offset] of a list request. *)
Definition pagination (limit offset : qvalue) : Z * Z :=
  (Z.min (or_default (parseInt limit) 10) 100,
   or_default (parseInt offset) 0).

(** A row of the list answer; the timestamp is carried as a number. *)
Definition page_row (r : row) : json :=
  JObj [field "id" (JStr (row_id r));
        field "created_at" (JInt (row_created_at r))].

(** [GET /votes]. *)
Definition handleGetAllVotes (q_limit q_offset : qvalue) : M response :=
  try_catch
    (let (limit, offset) := pagination q_limit q_offset in
     results <- db_page limit offset ;;
     json_response 200
       (JObj [field "success" (JBool true);
              field "data" (JArr (map page_row results));
              field "pagination"
                (JObj [field "limit" (JInt limit);
                       field "offset" (JInt offset);
                       field "count"
                         (JInt (Z.of_nat (length results)))])]))
    (fun _ =>
       ret (error_response 500 "Failed to retrieve votes" "INTERNAL_ERROR")).

(** The [catch] block of [handleCreateVote]. *)
Definition create_failed (error : exn) : M response :=
  match error with
  | ER_DUP_ENTRY =>
      ret (error_response 409 "Vote with this data already exists"
             "DUPLICATE_VOTE")
  | _ => ret (error_response 500 "Failed to save vote" "INTERNAL_ERROR")
  end.

Definition invalid_id : response :=
  error_response 400 "Invalid vote ID format" "INVALID_ID".

Definition vote_not_found : response :=
  error_response 404 "Vote not found" "VOTE_NOT_FOUND".

Definition missing_data : response :=
  error_response 400 "Missing required field: data" "MISSING_DATA".

Definition invalid_data_type : response :=
  error_response 400 "Data must be an object" "INVALID_DATA_TYPE".

End Common.

(** ** The variant without a caller signature *)

Module Basic.
Section Server.

Variable wallet : Wallet.

(** The middleware answers, or hands over with [next()] ([None]). *)
Definition validateVoteData (req_body : json) : option response :=
  let data := get_prop req_body "data" in
  if negb (truthy data) then Some missing_data
  else if negb (jstype_eqb (typeof data) TObject)
  then Some invalid_data_type
  else
    match JSON_stringify data with
    | Some dataString =>
        if (1000000 <? Z.of_nat (length dataString))
        then Some (error_response 400 "Data too large" "DATA_TOO_LARGE")
        else None
    | None => None
    end.

Definition handleCreateVote (now : Z) (req_body : json) : M response :=
  try_catch
    (let data := get_prop req_body "data" in
     dataString <- orThrow (JSON_stringify data) InvalidArgument ;;
     utf8 <- orThrow (toUtf8Bytes dataString) InvalidArgument ;;
     let id := keccak256 utf8 in
     message <- orThrow (getBytes id) InvalidArgument ;;
     signature <- signMessage wallet message ;;
     db_insert now id dataString signature None ;;;
     json_response 201
       (JObj [field "success" (JBool true);
              field "message" (text "Vote saved successfully");
              field "data"
                (JObj [field "id" (JStr id);
                       field "signature" (JStr signature);
                       field "operator" (JStr (address wallet))])]))
    create_failed.

Definition handleGetVote (id : jsstring) : M response :=
  try_catch
    (if negb (truthy (Some (JStr id))) || negb (isHexString id (Some 32))
     then ret invalid_id
     else
       results <- db_select id ;;
       match results with
       | [] => ret vote_not_found
       | vote :: _ =>
           data <- orThrow (JSON_parse (row_data vote)) SyntaxError ;;
           json_response 200
             (JObj [field "success" (JBool true);
                    field "data"
                      (JObj [field "id" (JStr (row_id vote));
                             field "data" data;
                             field "signature" (JStr (row_signature vote));
                             field "createdAt"
                               (JInt (row_created_at vote))])])
       end)
    (fun _ =>
       ret (error_response 500 "Failed to retrieve vote" "INTERNAL_ERROR")).

(** [POST /votes]: the middleware, then the handler. *)
Definition post_votes (now : Z) (req_body : json) : M response :=
  match validateVoteData req_body with
  | Some res => ret res
  | None => handleCreateVote now req_body
  end.

End Server.
End Basic.

(** ** The variant that verifies a caller signature *)

Module Signed.
Section Server.

Variable E : Ethers.
Variable wallet : Wallet.

Definition validateVoteData (req_body : json) : option response :=
  let data := get_prop req_body "data" in
  let signature := get_prop req_body "signature" in
  let signer := get_prop req_body "signer" in
  if negb (truthy data) then Some missing_data
  else if negb (jstype_eqb (typeof data) TObject)
  then Some invalid_data_type
  else if truthy signature && negb (jstype_eqb (typeof signature) TString)
  then Some (error_response 400 "Signature must be a string"
               "INVALID_SIGNATURE_TYPE")
  else if truthy signature
          && negb (match signature with
                   | Some (JStr s) => isHexString s None
                   | _ => false
                   end)
  then Some (error_response 400 "Signature must be a valid hex string"
               "INVALID_SIGNATURE_FORMAT")
  else if truthy signer && negb (isAddress E signer)
  then Some (error_response 400 "Invalid signer address format"
               "INVALID_SIGNER_ADDRESS")
  else None.

Inductive verror := SignerMismatch | VerificationFailed.

Record validation := {
  isValid : bool;
  error : option verror;
  recoveredSigner : option jsstring
}.

Definition failed : validation :=
  {| isValid := false; error := Some VerificationFailed;
     recoveredSigner := None |}.

Definition validateSignature (data signature expectedSigner : option json)
  : validation :=
  match JSON_stringify data with
  | None => failed
  | Some dataString =>
      match toUtf8Bytes dataString with
      | None => failed
      | Some utf8 =>
          let messageHash := keccak256 utf8 in
          match getBytes messageHash with
          | None => failed
          | Some message =>
              match verifyMessage E message signature with
              | None => failed
              | Some recovered =>
                  if truthy expectedSigner then
                    match expectedSigner with
                    | Some (JStr expected) =>
                        if negb (jsstring_eqb (toLowerCase recovered)
                                   (toLowerCase expected))
                        then {| isValid := false;
                                error := Some SignerMismatch;
                                recoveredSigner := Some recovered |}
                        else {| isValid := true; error := None;
                                recoveredSigner := Some recovered |}
                    | _ => failed
                    end
                  else {| isValid := true; error := None;
                          recoveredSigner := Some recovered |}
              end
          end
      end
  end.

(** The text of [validationResult.error]; the message of the caught
    library exception is left out. *)
Definition error_text (v : validation) : json :=
  match error v with
  | Some SignerMismatch => text "Signature does not match expected signer"
  | Some VerificationFailed => text "Signature verification failed: "
  | None => JNull
  end.

Definition handleCreateVote (now : Z) (req_body : json) : M response :=
  try_catch
    (let data := get_prop req_body "data" in
     let providedSignature := get_prop req_body "signature" in
     let signer := get_prop req_body "signer" in
     dataString <- orThrow (JSON_stringify data) InvalidArgument ;;
     utf8 <- orThrow (toUtf8Bytes dataString) InvalidArgument ;;
     let id := keccak256 utf8 in
     if truthy providedSignature then
       let validationResult :=
         validateSignature data providedSignature signer in
       if negb (isValid validationResult) then
         json_response 400
           (JObj [field "error" (error_text validationResult);
                  field "code" (text "INVALID_SIGNATURE")])
       else
         let signerAddress := recoveredSigner validationResult in
         message <- orThrow (getBytes id) InvalidArgument ;;
         operatorSignature <- signMessage wallet message ;;
         db_insert now id dataString operatorSignature signerAddress ;;;
         json_response 201
           (JObj [field "success" (JBool true);
                  field "message" (text "Vote saved successfully");
                  field "data"
                    (JObj [field "id" (JStr id);
                           field "signature" (JStr operatorSignature);
                           field "signer" (opt_json signerAddress);
                           field "operator" (JStr (address wallet))])])
     else
       ret (error_response 400 "signature is required" "INVALID_SIGNATURE"))
    create_failed.

Definition handleGetVote (id : jsstring) : M response :=
  try_catch
    (if negb (truthy (Some (JStr id))) || negb (isHexString id (Some 32))
     then ret invalid_id
     else
       results <- db_select id ;;
       match results with
       | [] => ret vote_not_found
       | vote :: _ =>
           data <- orThrow (JSON_parse (row_data vote)) SyntaxError ;;
           json_response 200
             (JObj [field "success" (JBool true);
                    field "data"
                      (JObj [field "id" (JStr (row_id vote));
                             field "data" data;
                             field "signature" (JStr (row_signature vote));
                             field "signer" (opt_json (row_signer vote));
                             field "createdAt"
                               (JInt (row_created_at vote))])])
       end)
    (fun _ =>
       ret (error_response 500 "Failed to retrieve vote" "INTERNAL_ERROR")).

Definition handleVerifySignature (req_body : json) : M response :=
  try_catch
    (let data := get_prop req_body "data" in
     let signature := get_prop req_body "signature" in
     let signer := get_prop req_body "signer" in
     if negb (truthy signature) then
       ret (error_response 400 "Signature is required for verification"
              "MISSING_SIGNATURE")
     else
       let validationResult := validateSignature data signature signer in
       if negb (isValid validationResult) then
         json_response 400
           (JObj [field "success" (JBool false);
                  field "error" (error_text validationResult);
                  field "code" (text "SIGNATURE_VERIFICATION_FAILED")])
       else
         dataHash <- orThrow (data_id data) InvalidArgument ;;
         json_response 200
           (JObj [field "success" (JBool true);
                  field "message" (text "Signature is valid");
                  field "data"
                    (JObj [field "isValid" (JBool true);
                           field "recoveredSigner"
                             (opt_json
                                (recoveredSigner validationResult));
                           field "dataHash" (JStr dataHash)])]))
    (fun _ =>
       ret (error_response 500 "Failed to verify signature"
              "INTERNAL_ERROR")).

Definition post_votes (now : Z) (req_body : json) : M response :=
  match validateVoteData req_body with
  | Some res => ret res
  | None => handleCreateVote now req_body
  end.

Definition post_verify_signature (req_body : json) : M response :=
  match validateVoteData req_body with
  | Some res => ret res
  | None => handleVerifySignature req_body
  end.

End Server.
End Signed.

(** ** A stand-in for the curve arithmetic

    Used to run the handlers on concrete requests: the signature of a
    digest carries the digest as r, and recovery answers the operator for
    such a signature and an address made of r otherwise.  The requests
    that are run carry their signatures as strings; any other value is
    refused as a signature. *)

Definition demo_address : jsstring :=
  str "0x8ba1f109551bD432803012645Ac136ddd64DBA72".

Definition demo_wallet : Wallet :=
  {| address := demo_address;
     sign := fun d => (d, repeat 1 32%nat, false) |}.

Fixpoint bytes_eqb (a b : bytes) : bool :=
  match a, b with
  | [], [] => true
  | x :: a', y :: b' => (x =? y) && bytes_eqb a' b'
  | _, _ => false
  end.

Definition demo_ethers : Ethers :=
  {| ecrecover := fun d r s yParity =>
       if bytes_eqb r d then Some demo_address
       else Some (hexlify (firstn 20 r));
     isAddress := fun v =>
       match v with
       | Some (JStr a) => isHexString a (Some 20)
       | _ => false
       end;
     Signature_like := fun _ => None |}.

(** ** The routes of either variant *)

Inductive variant := Unsigned | CallerSigned.

Inductive request :=
| CreateVote (now : Z) (req_body : json)
| GetVote (id : jsstring)
| GetAllVotes (limit offset : qvalue)
| VerifySignature (req_body : json).

Definition endpoint_not_found : response :=
  error_response 404 "Endpoint not found" "NOT_FOUND".

(** [POST /votes]. *)
Definition create_route (E : Ethers) (wallet : Wallet) (var : variant)
  : Z -> json -> M response :=
  match var with
  | Unsigned => Basic.post_votes wallet
  | CallerSigned => Signed.post_votes E wallet
  end.

(** [GET /votes/:id]. *)
Definition get_route (var : variant) : jsstring -> M response :=
  match var with
  | Unsigned => Basic.handleGetVote
  | CallerSigned => Signed.handleGetVote
  end.

(** [POST /verify-signature]; the first variant has no such route and
    answers with its 404 handler. *)
Definition verify_route (E : Ethers) (var : variant) : json -> M response :=
  match var with
  | Unsigned => fun _ => ret endpoint_not_found
  | CallerSigned => Signed.post_verify_signature E
  end.

Definition serve (E : Ethers) (wallet : Wallet) (var : variant) (rq : request)
  : M response :=
  match rq with
  | CreateVote now req_body => create_route E wallet var now req_body
  | GetVote id => get_route var id
  | GetAllVotes limit offset => handleGetAllVotes limit offset
  | VerifySignature req_body => verify_route E var req_body
  end.

(** ** Start-up checks *)

(** [process.env]: a variable is unset ([None]) or holds a string. *)
Definition environment := string -> option jsstring.

Definition requiredVars : list string :=
  ["OPERATOR_PRIVATE_KEY"%string; "DB_HOST"%string; "DB_USER"%string;
   "DB_PASSWORD"%string; "DB_DATABASE"%string].

(** [!process.env[varName]]: unset, or the empty string. *)
Definition env_missing (env : environment) (varName : string) : bool :=
  negb (truthy (option_map JStr (env varName))).

(** [validateEnvironment]: [Some missing] when the process exits with
    the message that lists [missing], [None] when it goes on. *)
Definition validateEnvironment (env : environment) : option (list string) :=
  let missing := filter (env_missing env) requiredVars in
  if (0 <? length missing)%nat then Some missing else None.

(** [initializeWallet]: [None] when the process exits.  [new_Wallet] is
    [new ethers.Wallet(privateKey)], which throws on a key it cannot
    use. *)
Definition initializeWallet (new_Wallet : jsstring -> option Wallet)
  (env : environment) : option Wallet :=
  let privateKey := env "OPERATOR_PRIVATE_KEY"%string in
  if negb (truthy (option_map JStr privateKey)) then None
  else
    match privateKey with
    | Some key => new_Wallet key
    | None => None
    end.

(** ** The first version of the server

    One table with the columns id, data and created_at; the operator
    signature is returned and not stored.  Nothing is caught: an
    exception leaves the request unanswered ([None]). *)

Module Legacy.

Record vote := {
  vote_id : jsstring;
  vote_data : jsstring;
  vote_created_at : Z
}.

Definition votes := list vote.

Definition select_vote (id : jsstring) (t : votes) : list vote :=
  filter (fun v => jsstring_eqb (vote_id v) id) t.

(** [INSERT INTO votes (data, id)]: an error for a second row with the
    same primary key. *)
Definition insert_vote (now : Z) (data id : jsstring) (t : votes)
  : option votes :=
  match select_vote id t with
  | [] => Some (t ++ [{| vote_id := id; vote_data := data;
                         vote_created_at := now |}])
  | _ :: _ => None
  end.

Section Server.

Variable wallet : Wallet.

(** [wallet.signMessage(message)]. *)
Definition signMessage (message : bytes) : option jsstring :=
  match getBytes (hashMessage message) with
  | Some d => Some (serialized (sign wallet d))
  | None => None
  end.

Definition data_required : response :=
  {| status := 400;
     body := JObj [field "error" (text "Data field is required")] |}.

Definition save_failed : response :=
  {| status := 500; body := JObj [field "error" (text "Failed to save data")] |}.

Definition saved (id signature : jsstring) : response :=
  {| status := 201;
     body := JObj [field "message" (text "Data saved successfully");
                   field "id" (JStr id);
                   field "signature" (JStr signature)] |}.

(** [POST /votes]. *)
Definition post_votes (now : Z) (req_body : json) (t : votes)
  : option response * votes :=
  let data := get_prop req_body "data" in
  if negb (truthy data) then (Some data_required, t)
  else
    match JSON_stringify data with
    | None => (None, t)
    | Some dataString =>
        match toUtf8Bytes dataString with
        | None => (None, t)
        | Some utf8 =>
            let id := keccak256 utf8 in
            match getBytes id with
            | None => (None, t)
            | Some message =>
                match signMessage message with
                | None => (None, t)
                | Some signature =>
                    match insert_vote now dataString id t with
                    | None => (Some save_failed, t)
                    | Some t' => (Some (saved id signature), t')
                    end
                end
            end
        end
    end.

Definition id_required : response :=
  {| status := 400; body := JObj [field "error" (text "ID is required")] |}.

Definition found (data : json) : response :=
  {| status := 200; body := JObj [field "data" data] |}.

(** [GET /votes/:id]. *)
Definition get_vote (id : jsstring) (t : votes) : option response :=
  if negb (truthy (Some (JStr id))) then Some id_required
  else
    match select_vote id t with
    | [] => Some (found (JArr []))
    | v :: _ =>
        match JSON_parse (vote_data v) with
        | Some data => Some (found data)
        | None => None
        end
    end.

End Server.
End Legacy.

(** * Vocabulary of the properties *)

(** ** Bytes and encodings *)

Definition is_byte (b : Z) : Prop := 0 <= b < 256.

(** A text that [toUtf8Bytes] accepts. *)
Definition encodable (s : jsstring) : Prop := exists b, toUtf8Bytes s = Some b.

(** Code units below 128 encode as themselves. *)
Definition ascii_text (s : jsstring) : Prop := Forall (fun c => c < 128) s.

(** ** What may follow a value in a text *)

Definition no_digit_ahead (rest : jsstring) : Prop :=
  match rest with
  | c :: _ => is_digit c = false
  | [] => True
  end.

(** The start of a fraction or of an exponent. *)
Definition starts_fraction (s : jsstring) : bool :=
  match s with
  | c :: _ => (c =? 46) || (c =? 101) || (c =? 69)
  | [] => false
  end.

(** Where a number literal ends. *)
Definition number_end (rest : jsstring) : Prop :=
  no_digit_ahead rest /\ starts_fraction rest = false.

(** ** The parts of a number literal *)

(** The fraction of a literal, absent when it has no digits. *)
Definition fraction_text (digits : jsstring) : jsstring :=
  match digits with
  | [] => []
  | _ :: _ => 46 :: digits
  end.

(** The exponent of a literal, with its sign written out. *)
Definition exponent_text (x : option Z) : jsstring :=
  match x with
  | Some x => 101 :: (if x <? 0 then 45 else 43) :: decimal (Z.abs x)
  | None => []
  end.

(** Defining the properties [kvs] one after the other on [acc], as the
    parser does. *)
Definition define_all (kvs acc : list (jsstring * json)) : list (jsstring * json) :=
  fold_left (fun a kv => set_prop a (fst kv) (snd kv)) kvs acc.

(** The end of the text, a comma or a closing bracket. *)
Definition delimited (rest : jsstring) : Prop :=
  match rest with
  | [] => True
  | c :: _ => c = 44 \/ c = 93 \/ c = 125
  end.

(** The first character of a serialized value starts a value. *)
Definition value_start (c : Z) : Prop :=
  c = 110 \/ c = 116 \/ c = 102 \/ c = 34 \/ c = 91 \/ c = 123 \/ c = 45
  \/ is_digit c = true.

(** The parser, given enough fuel, reads from the text of [v] what the
    text keeps of it, and stops at the delimiter that follows. *)
Definition reads_back (v : json) : Prop :=
  forall fuel rest,
    (length (stringify v) < fuel)%nat -> delimited rest ->
    parse_value fuel (stringify v ++ rest) = Some (reparsed v, rest).

(** The text of one property of an object. *)
Definition member (kv : jsstring * json) : jsstring :=
  let '(k, x) := kv in quote k ++ 58 :: stringify x.

(** ** Results, responses and requests *)

(** What a computation leaves behind. *)
Definition result_of {A} (r : (exn + A) * table * list event) : exn + A :=
  fst (fst r).

Definition table_of {A} (r : (exn + A) * table * list event) : table :=
  snd (fst r).

Definition trace_of {A} (r : (exn + A) * table * list event) : list event :=
  snd r.

(** A [code] field. *)
Definition code (c : string) : option json := Some (text c).

(** ** Identifier patterns *)

Definition is_lower_hex_char (c : Z) : bool :=
  ((48 <=? c) && (c <=? 57)) || ((97 <=? c) && (c <=? 102)).

(** The pattern of the specification, [^0x[0-9a-f]{64}$]. *)
Definition lower_hex_id (id : jsstring) : bool :=
  match id with
  | 48 :: 120 :: ds => (length ds =? 64)%nat && forallb is_lower_hex_char ds
  | _ => false
  end.

(** The pattern [^0x[0-9A-Fa-f]{64}$]. *)
Definition hex_id (id : jsstring) : bool :=
  match id with
  | 48 :: 120 :: ds => (length ds =? 64)%nat && forallb is_hex_char ds
  | _ => false
  end.

(** [0x] and sixty-four times the letter A. *)
Definition upper_id : jsstring := str "0x" ++ repeat 65 64%nat.

(** ** Payloads *)

(** Absent, or one of the falsy JSON values: false, a zero of either
    sign, the empty string, null. *)
Definition falsy_data (data : option json) : Prop :=
  data = None \/ data = Some (JBool false)
  \/ (exists x, is_zero x = true /\ data = Some (JNum x))
  \/ data = Some (JStr []) \/ data = Some JNull.

(** A non-empty string, a non-zero number, or [true]. *)
Definition truthy_scalar (data : option json) : Prop :=
  (exists s, s <> [] /\ data = Some (JStr s))
  \/ (exists x, is_zero x = false /\ data = Some (JNum x))
  \/ data = Some (JBool true).

(** The 32 raw bytes of the identifier of a value. *)
Definition id_bytes (data : json) : bytes :=
  match toUtf8Bytes (stringify data) with
  | Some utf8 => Keccak.keccak_256 utf8
  | None => []
  end.

(** Equality of case-insensitive comparison, as [toLowerCase] decides it. *)
Definition same_ignoring_case (a b : jsstring) : Prop :=
  toLowerCase a = toLowerCase b.

(** Equality of value trees up to the order of object keys. *)
Fixpoint json_equiv (a b : json) : bool :=
  match a, b with
  | JNull, JNull => true
  | JBool x, JBool y => Bool.eqb x y
  | JNum x, JNum y => number_eqb x y
  | JStr x, JStr y => jsstring_eqb x y
  | JArr xs, JArr ys =>
      (fix all2 (xs ys : list json) : bool :=
         match xs, ys with
         | [], [] => true
         | x :: xs', y :: ys' => json_equiv x y && all2 xs' ys'
         | _, _ => false
         end) xs ys
  | JObj kx, JObj ky =>
      (length kx =? length ky)%nat
      && forallb (fun '(k, x) =>
                    match assoc k ky with
                    | Some y => json_equiv x y
                    | None => false
                    end) kx
  | _, _ => false
  end.

(** The same two properties in either order. *)
Definition ab_payload : json := JObj [field "a" (JInt 1); field "b" (JInt 2)].

Definition ba_payload : json := JObj [field "b" (JInt 2); field "a" (JInt 1)].

Definition data_too_large : response :=
  error_response 400 "Data too large" "DATA_TOO_LARGE".

(** An array or an object. *)
Definition structured (v : json) : bool :=
  match v with
  | JArr _ | JObj _ => true
  | _ => false
  end.

(** ** Outcomes of a create request *)

(** The signature the operator stores for the 32 identifier bytes: over
    the digest of the prefix, the length "32" and the bytes. *)
Definition operator_signature (wallet : Wallet) (idb : bytes) : jsstring :=
  serialized
    (sign wallet (Keccak.keccak_256 (MessagePrefix ++ str "32" ++ idb))).

(** The row an INSERT adds. *)
Definition new_row (now : Z) (id data signature : jsstring)
  (signer : option jsstring) : row :=
  {| row_id := id; row_data := data; row_signature := signature;
     row_signer := signer; row_created_at := now |}.

Definition duplicate_vote : response :=
  error_response 409 "Vote with this data already exists" "DUPLICATE_VOTE".

(** The 201 answer of the variant without a caller signature. *)
Definition basic_created (wallet : Wallet) (id signature : jsstring) : response :=
  {| status := 201;
     body :=
       JObj [field "success" (JBool true);
             field "message" (text "Vote saved successfully");
             field "data"
               (JObj [field "id" (JStr id);
                      field "signature" (JStr signature);
                      field "operator" (JStr (address wallet))])] |}.

(** The three outcomes of [POST /votes]. *)
Inductive basic_outcome (wallet : Wallet) (now : Z) (req_body : json) (t : table)
  : (exn + response) * table * list event -> Prop :=
| basic_Rejected res :
    status res = 400 -> Basic.validateVoteData req_body = Some res ->
    basic_outcome wallet now req_body t (inr res, t, [])
| basic_Stored v utf8 :
    get_prop req_body "data" = Some v -> structured v = true ->
    toUtf8Bytes (stringify v) = Some utf8 ->
    select_by_id (keccak256 utf8) t = [] ->
    let id := keccak256 utf8 in
    let signature := operator_signature wallet (Keccak.keccak_256 utf8) in
    basic_outcome wallet now req_body t
      (inr (basic_created wallet id signature),
       t ++ [new_row now id (stringify v) signature None],
       [EvSign (hashMessage (Keccak.keccak_256 utf8));
        EvDb (Insert id (stringify v) signature None)])
| basic_Duplicate v utf8 :
    get_prop req_body "data" = Some v -> structured v = true ->
    toUtf8Bytes (stringify v) = Some utf8 ->
    select_by_id (keccak256 utf8) t <> [] ->
    let id := keccak256 utf8 in
    let signature := operator_signature wallet (Keccak.keccak_256 utf8) in
    basic_outcome wallet now req_body t
      (inr duplicate_vote, t,
       [EvSign (hashMessage (Keccak.keccak_256 utf8));
        EvDb (Insert id (stringify v) signature None)]).

(** The answers of the variant that verifies a caller signature. *)
Definition signed_created (wallet : Wallet) (id signature : jsstring)
  (signer : option jsstring) : response :=
  {| status := 201;
     body :=
       JObj [field "success" (JBool true);
             field "message" (text "Vote saved successfully");
             field "data"
               (JObj [field "id" (JStr id);
                      field "signature" (JStr signature);
                      field "signer" (opt_json signer);
                      field "operator" (JStr (address wallet))])] |}.

Definition signed_invalid_signature (v : Signed.validation) : response :=
  {| status := 400;
     body := JObj [field "error" (Signed.error_text v);
                   field "code" (text "INVALID_SIGNATURE")] |}.

Definition signed_signature_required : response :=
  error_response 400 "signature is required" "INVALID_SIGNATURE".

(** The three outcomes of [POST /votes] in that variant. *)
Inductive signed_outcome (E : Ethers) (wallet : Wallet) (now : Z) (req_body : json)
  (t : table) : (exn + response) * table * list event -> Prop :=
| signed_Rejected res :
    status res = 400 -> signed_outcome E wallet now req_body t (inr res, t, [])
| signed_Stored v utf8 :
    get_prop req_body "data" = Some v -> structured v = true ->
    toUtf8Bytes (stringify v) = Some utf8 ->
    let vr := Signed.validateSignature E (Some v)
                (get_prop req_body "signature")
                (get_prop req_body "signer") in
    Signed.isValid vr = true ->
    select_by_id (keccak256 utf8) t = [] ->
    let id := keccak256 utf8 in
    let signature := operator_signature wallet (Keccak.keccak_256 utf8) in
    signed_outcome E wallet now req_body t
      (inr (signed_created wallet id signature (Signed.recoveredSigner vr)),
       t ++ [new_row now id (stringify v) signature
               (Signed.recoveredSigner vr)],
       [EvSign (hashMessage (Keccak.keccak_256 utf8));
        EvDb (Insert id (stringify v) signature
                (Signed.recoveredSigner vr))])
| signed_Duplicate v utf8 :
    get_prop req_body "data" = Some v -> structured v = true ->
    toUtf8Bytes (stringify v) = Some utf8 ->
    let vr := Signed.validateSignature E (Some v)
                (get_prop req_body "signature")
                (get_prop req_body "signer") in
    Signed.isValid vr = true ->
    select_by_id (keccak256 utf8) t <> [] ->
    let id := keccak256 utf8 in
    let signature := operator_signature wallet (Keccak.keccak_256 utf8) in
    signed_outcome E wallet now req_body t
      (inr duplicate_vote, t,
       [EvSign (hashMessage (Keccak.keccak_256 utf8));
        EvDb (Insert id (stringify v) signature
                (Signed.recoveredSigner vr))]).

(** ** Stored rows *)

(** The contract of the signing key: on a 32-byte digest it yields r and
    s of 32 bytes each, s canonical, from which the library recovers the
    address of the wallet. *)
Definition sound_wallet (E : Ethers) (wallet : Wallet) : Prop :=
  forall d, length d = 32%nat -> Forall is_byte d ->
    let '(r, s, yParity) := sign wallet d in
    length r = 32%nat /\ length s = 32%nat
    /\ Forall is_byte r /\ Forall is_byte s /\ hd 0 s < 128
    /\ ecrecover E d r s yParity = Some (address wallet).

(** A row whose signature is the operator's over its identifier. *)
Definition operator_signed (E : Ethers) (wallet : Wallet) (r : row) : Prop :=
  exists idb,
    length idb = 32%nat /\ getBytes (row_id r) = Some idb
    /\ row_signature r
       = serialized
           (sign wallet
              (Keccak.keccak_256
                 (25 :: str "Ethereum Signed Message:" ++ 10 :: str "32"
                  ++ idb)))
    /\ length (row_signature r) = 132%nat
    /\ verifyMessage E idb (Some (JStr (row_signature r)))
       = Some (address wallet).

(** The tables a server can hold: the empty one, and what a request
    leaves of a table it can hold. *)
Inductive reachable (serve : request -> M response) : table -> Prop :=
| reach_empty : reachable serve []
| reach_serve t rq :
    reachable serve t -> reachable serve (table_of (serve rq t)).

(** ** Two requests in a row *)

(** The identifiers of the INSERT statements of a trace. *)
Definition insert_ids (tr : list event) : list jsstring :=
  flat_map (fun ev => match ev with
                      | EvDb (Insert id _ _ _) => [id]
                      | _ => []
                      end) tr.

(** The [id] field of a created response. *)
Definition response_id (res : response) : option json :=
  match get_prop (body res) "data" with
  | Some d => get_prop d "id"
  | None => None
  end.

(** The second attempt is answered DUPLICATE_VOTE, computes the
    identifier of the first, and leaves the table with the single row of
    that identifier. *)
Definition conflict (first_trace : list event) (res : response) (t1 : table)
  (second : (exn + response) * table * list event) : Prop :=
  result_of second = inr duplicate_vote
  /\ status duplicate_vote = 409
  /\ code_of duplicate_vote = code "DUPLICATE_VOTE"
  /\ table_of second = t1
  /\ exists id,
       response_id res = Some (JStr id)
       /\ insert_ids first_trace = [id]
       /\ insert_ids (trace_of second) = [id]
       /\ length (select_by_id id t1) = 1%nat.

(** The [data] field of the record in a get response. *)
Definition response_data (res : response) : option json :=
  match get_prop (body res) "data" with
  | Some d => get_prop d "data"
  | None => None
  end.

(** The get request for the identifier of [res] is answered 200 with
    the payload [v], after one SELECT, the table unchanged. *)
Definition read_back (get : jsstring -> M response) (res : response)
  (t1 : table) (v : json) : Prop :=
  exists id res',
    response_id res = Some (JStr id)
    /\ get id t1 = (inr res', t1, [EvDb (SelectById id)])
    /\ status res' = 200
    /\ response_data res' = Some v.

(** ** Concrete requests *)

(** An object with one string made of [n] copies of a code unit. *)
Definition long_payload (c : Z) (n : nat) : json :=
  JObj [field "k" (JStr (repeat c n))].

(** A request body with the payload alone, and one with a signature. *)
Definition create_request (v : json) : json := JObj [field "data" v].

(** A signature of 65 bytes: r and s made of the byte 1, v = 27. *)
Definition some_signature : jsstring :=
  hexlify (repeat 1 64%nat ++ [27]).

Definition signed_request (v : json) : json :=
  JObj [field "data" v; field "signature" (JStr some_signature)].

(** One million letters, and four hundred thousand euro signs. *)
Definition ascii_payload : json := long_payload 97 (Z.to_nat 1000000).

Definition euro_payload : json := long_payload 8364 (Z.to_nat 400000).

(** A code unit that is written as itself. *)
Definition plain_unit (c : Z) : Prop :=
  quote_unit c = [c] /\ is_high_surrogate c = false.

(** The text [{"x":1e999}] and the payload read from it. *)
Definition overflow_text : jsstring :=
  123 :: quote (str "x") ++ 58 :: str "1e999" ++ [125].

Definition overflow_payload : json :=
  JObj [field "x" (JNum (Infinite false))].

(** A payload with an integer, a fraction and a string. *)
Definition mixed_payload : json :=
  JObj [field "proposal_id" (JInt 7);
        field "weight" (JNum (Finite false 3 (-1)));
        field "choice" (text "yes")].

(** The payload of the scenario of the specification. *)
Definition vote_payload : json :=
  JObj [field "proposal_id" (text "prop_123"); field "choice" (text "yes")].

(** The first create request of the scenario and what it leaves. *)
Definition first_run (var : variant) (req_body : json)
  : (exn + response) * table * list event :=
  create_route demo_ethers demo_wallet var 5 req_body [].

Definition first_response (var : variant) (req_body : json) : response :=
  match result_of (first_run var req_body) with
  | inr res => res
  | inl _ => endpoint_not_found
  end.

(** The address the stand-in recovers from [some_signature]. *)
Definition other_address : jsstring :=
  str "0x0101010101010101010101010101010101010101".

(** ** Sequences of requests *)

(** The table after the requests [rqs], served one after the other. *)
Definition run (E : Ethers) (wallet : Wallet) (var : variant)
  (rqs : list request) (t : table) : table :=
  fold_left (fun t0 rq => table_of (serve E wallet var rq t0)) rqs t.

(** The number of create requests among [rqs]. *)
Definition creates (rqs : list request) : nat :=
  length (filter (fun rq => match rq with
                            | CreateVote _ _ => true
                            | _ => false
                            end) rqs).

(** A field of the record carried by a response. *)
Definition record_field (res : response) (k : string) : option json :=
  match get_prop (body res) "data" with
  | Some d => get_prop d k
  | None => None
  end.

(** A row whose identifier is the digest of its text, the text being
    that of an array or an object. *)
Definition content_addressed (r : row) : Prop :=
  exists v utf8,
    structured v = true /\ row_data r = stringify v
    /\ toUtf8Bytes (row_data r) = Some utf8 /\ row_id r = keccak256 utf8.

(** A row whose signer is the address recovered from a caller signature
    over the bytes of its identifier. *)
Definition caller_signed (E : Ethers) (r : row) : Prop :=
  exists a signature idb,
    row_signer r = Some a /\ getBytes (row_id r) = Some idb
    /\ verifyMessage E idb signature = Some a.

(** Timestamps in descending order. *)
Fixpoint newest_first (rows : list row) : Prop :=
  match rows with
  | [] => True
  | r :: rest =>
      Forall (fun r' => row_created_at r' <= row_created_at r) rest
      /\ newest_first rest
  end.

(** The items and the count of a list answer. *)
Definition listed (res : response) (rows : list row) : Prop :=
  get_prop (body res) "data" = Some (JArr (map page_row rows))
  /\ match get_prop (body res) "pagination" with
     | Some p => get_prop p "count" = Some (JInt (Z.of_nat (length rows)))
     | None => False
     end.

(** The bytes of a signature string are neither 64 nor 65. *)
Definition wrong_length (s : jsstring) : Prop :=
  match getBytes s with
  | None => True
  | Some bs => length bs <> 64%nat /\ length bs <> 65%nat
  end.

(** A create request of the variant that verifies: the middleware lets
    it pass and the caller signature verifies. *)
Definition verified_request (E : Ethers) (req_body : json) : Prop :=
  Signed.validateVoteData E req_body = None
  /\ truthy (get_prop req_body "signature") = true
  /\ Signed.isValid
       (Signed.validateSignature E (get_prop req_body "data")
          (get_prop req_body "signature") (get_prop req_body "signer"))
     = true.

(** An environment given by the list of its variables. *)
Fixpoint env_of (vars : list (string * jsstring)) : environment :=
  fun name =>
    match vars with
    | [] => None
    | (n, v) :: rest => if String.eqb n name then Some v else env_of rest name
    end.


(** A request as the body parser delivers it: the body of a create
    request is a value [JSON.parse] can build. *)
Definition parsed (rq : request) : Prop :=
  match rq with
  | CreateVote _ req_body => parsable req_body = true
  | _ => True
  end.

(** A row whose text [JSON.parse] reads. *)
Definition parses_back (r : row) : Prop :=
  exists v, JSON_parse (row_data r) = Some v.

(** A variable that is set to a non-empty string. *)
Definition configured (env : environment) (name : string) : Prop :=
  exists v, env name = Some v /\ v <> [].

(** An answer with one of the statuses of the server; an error answer
    carries a code, and a success answer the flag. *)
Definition coded_answer (res : response) : Prop :=
  In (status res) [200; 201; 400; 404; 409; 500]
  /\ (400 <= status res -> exists c, code_of res = Some (JStr c))
  /\ (status res < 400 -> get_prop (body res) "success" = Some (JBool true)).

(** ** Concrete histories *)

(** Two create requests, and requests that follow them. *)
Definition two_creates : list request :=
  [CreateVote 5 (signed_request vote_payload);
   CreateVote 6 (signed_request (JArr []))].

Definition later_requests : list request :=
  [GetAllVotes QUndefined QUndefined;
   CreateVote 7 (signed_request (JArr []));
   GetVote upper_id;
   VerifySignature (signed_request vote_payload)].

(** The table the two create requests leave. *)
Definition demo_table (var : variant) : table :=
  run demo_ethers demo_wallet var two_creates [].

(** The identifier of the vote payload. *)
Definition vote_payload_id : jsstring := hexlify (id_bytes vote_payload).

(** An environment with the five required variables. *)
Definition demo_env : environment :=
  env_of [("OPERATOR_PRIVATE_KEY"%string, str "0x01");
          ("DB_HOST"%string, str "localhost");
          ("DB_USER"%string, str "root");
          ("DB_PASSWORD"%string, str "secret");
          ("DB_DATABASE"%string, str "vote_operator")].

(** The first create request of the first version and what it leaves. *)
Definition legacy_first (v : json) : option response * Legacy.votes :=
  Legacy.post_votes demo_wallet 5 (create_request v) [].
(** * Properties *)

(** ** Bytes and hexadecimal strings *)

Lemma nibbles b : is_byte b ->
  0 <= Z.shiftr b 4 < 16 /\ 0 <= Z.land b 15 < 16
  /\ Z.shiftr b 4 * 16 + Z.land b 15 = b.
Proof.
  intros Hb. unfold is_byte in Hb.
  rewrite Z.shiftr_div_pow2 by lia.
  change 15 with (Z.ones 4). rewrite Z.land_ones by lia.
  change (2 ^ 4) with 16.
  pose proof (Z.div_mod b 16). pose proof (Z.mod_pos_bound b 16).
  assert (0 <= b / 16 < 16).
  { split; [apply Z.div_pos; lia | apply Z.div_lt_upper_bound; lia]. }
  lia.
Qed.

Lemma hex_digit_char n : 0 <= n < 16 -> is_hex_char (hex_digit n) = true.
Proof.
  intros Hn. unfold hex_digit, is_hex_char.
  destruct (n <? 10) eqn:E; [apply Z.ltb_lt in E | apply Z.ltb_ge in E].
  - replace (48 <=? 48 + n) with true by (symmetry; apply Z.leb_le; lia).
    replace (48 + n <=? 57) with true by (symmetry; apply Z.leb_le; lia).
    reflexivity.
  - replace (97 <=? 87 + n) with true by (symmetry; apply Z.leb_le; lia).
    replace (87 + n <=? 102) with true by (symmetry; apply Z.leb_le; lia).
    rewrite orb_true_r. reflexivity.
Qed.

Lemma hex_value_digit n : 0 <= n < 16 -> hex_value (hex_digit n) = n.
Proof.
  intros Hn. unfold hex_digit, hex_value.
  destruct (n <? 10) eqn:E; [apply Z.ltb_lt in E | apply Z.ltb_ge in E].
  - replace (48 + n <=? 57) with true by (symmetry; apply Z.leb_le; lia). lia.
  - replace (87 + n <=? 57) with false by (symmetry; apply Z.leb_gt; lia).
    replace (87 + n <=? 70) with false by (symmetry; apply Z.leb_gt; lia).
    lia.
Qed.

Lemma length_hex_digits bs :
  length (flat_map hex_byte bs) = (2 * length bs)%nat.
Proof. induction bs as [|b bs IH]; simpl; [reflexivity | lia]. Qed.

Lemma length_hexlify bs : length (hexlify bs) = (2 + 2 * length bs)%nat.
Proof. unfold hexlify. simpl. rewrite length_hex_digits. reflexivity. Qed.

Lemma hex_digits_chars bs :
  Forall is_byte bs -> forallb is_hex_char (flat_map hex_byte bs) = true.
Proof.
  induction 1 as [|b bs Hb _ IH]; simpl; [reflexivity|].
  destruct (nibbles b Hb) as (H1 & H2 & _).
  rewrite !hex_digit_char, IH by assumption. reflexivity.
Qed.

Lemma match_hex_hexlify bs : Forall is_byte bs -> match_hex (hexlify bs) = true.
Proof. intros H. unfold hexlify. simpl. apply hex_digits_chars, H. Qed.

Lemma unhex_hex_digits bs :
  Forall is_byte bs -> unhex (flat_map hex_byte bs) = Some bs.
Proof.
  induction 1 as [|b bs Hb _ IH]; simpl; [reflexivity|].
  destruct (nibbles b Hb) as (H1 & H2 & H3).
  rewrite IH, !hex_value_digit, H3 by assumption. reflexivity.
Qed.

(** Reading back what [hexlify] wrote. *)
Lemma getBytes_hexlify bs : Forall is_byte bs -> getBytes (hexlify bs) = Some bs.
Proof.
  intros H. unfold getBytes, hexlify. cbn [str list_ascii_of_string map app].
  change (Z.of_N (N_of_ascii "0") =? 48) with true.
  change (Z.of_N (N_of_ascii "x") =? 120) with true.
  cbn [andb orb]. rewrite (hex_digits_chars bs H).
  apply unhex_hex_digits, H.
Qed.

Lemma isHexString_hexlify bs n :
  Forall is_byte bs -> length bs = n ->
  isHexString (hexlify bs) (Some (Z.of_nat n)) = true.
Proof.
  intros H Hn. unfold isHexString.
  rewrite match_hex_hexlify, length_hexlify by assumption.
  rewrite andb_true_l. apply Z.eqb_eq. lia.
Qed.

(** ** The digest is 32 bytes *)

Example keccak256_empty :
  keccak256 [] =
  str "0xc5d2460186f7233c927e7db2dcc703c0e500b653ca82273b7bfad8045d85a470".
Proof. vm_compute. reflexivity. Qed.

Example keccak256_abc :
  option_map keccak256 (toUtf8Bytes (str "abc")) =
  Some (str "0x4e03657aea45a94fc7d47ba826c8d667c0d1e6e33a64a036ec44f58fa12d6c45").
Proof. vm_compute. reflexivity. Qed.

Lemma bytes_of_lane_spec n l :
  length (Keccak.bytes_of_lane n l) = n
  /\ Forall is_byte (Keccak.bytes_of_lane n l).
Proof.
  revert l. induction n as [|n IH]; intros l; simpl.
  - split; [reflexivity | constructor].
  - destruct (IH (l / 256)) as [H1 H2]. split; [now rewrite H1|].
    constructor; [|assumption]. unfold is_byte. apply Z.mod_pos_bound. lia.
Qed.

Lemma squeeze_spec st :
  length (Keccak.squeeze st) = 32%nat /\ Forall is_byte (Keccak.squeeze st).
Proof.
  unfold Keccak.squeeze.
  generalize (seq 0 4) (eq_refl : length (seq 0 4) = 4%nat).
  intros l Hl.
  assert (H : length (flat_map (fun i => Keccak.bytes_of_lane 8 (nth i st 0)) l)
              = (8 * length l)%nat
              /\ Forall is_byte
                   (flat_map (fun i => Keccak.bytes_of_lane 8 (nth i st 0)) l)).
  { clear Hl. induction l as [|i l [IH1 IH2]].
    - split; [reflexivity | constructor].
    - cbn [flat_map].
      destruct (bytes_of_lane_spec 8 (nth i st 0)) as [H1 H2].
      split.
      + rewrite length_app, H1, IH1. cbn [length]. lia.
      + apply Forall_app. split; assumption. }
  rewrite Hl in H. exact H.
Qed.

Lemma keccak_256_length msg : length (Keccak.keccak_256 msg) = 32%nat.
Proof. apply squeeze_spec. Qed.

Lemma keccak_256_bytes msg : Forall is_byte (Keccak.keccak_256 msg).
Proof. apply squeeze_spec. Qed.

Lemma keccak256_length data : length (keccak256 data) = 66%nat.
Proof. unfold keccak256. rewrite length_hexlify, keccak_256_length. reflexivity. Qed.

Lemma getBytes_keccak256 data :
  getBytes (keccak256 data) = Some (Keccak.keccak_256 data).
Proof. apply getBytes_hexlify, keccak_256_bytes. Qed.

Lemma isHexString_keccak256 data : isHexString (keccak256 data) (Some 32) = true.
Proof.
  apply (isHexString_hexlify _ 32); [apply keccak_256_bytes | apply keccak_256_length].
Qed.

(** ** The serialized text always has a UTF-8 encoding *)

Lemma option_map_some {A B} (f : A -> B) o y :
  option_map f o = Some y -> exists x, o = Some x /\ y = f x.
Proof. destruct o; simpl; intros H; inversion H; eauto. Qed.

Lemma toUtf8Bytes_app_aux n : forall a, (length a <= n)%nat ->
  forall x b, toUtf8Bytes a = Some x ->
  toUtf8Bytes (a ++ b) = option_map (app x) (toUtf8Bytes b).
Proof.
  induction n as [|n IH]; intros a Hlen x b Ha.
  - destruct a; [|simpl in Hlen; lia]. simpl in Ha. inversion Ha.
    simpl. destruct (toUtf8Bytes b); reflexivity.
  - destruct a as [|c rest].
    + simpl in Ha. inversion Ha. simpl. destruct (toUtf8Bytes b); reflexivity.
    + simpl in Hlen. cbn [toUtf8Bytes app] in *.
      destruct (c <? 128).
      { apply option_map_some in Ha. destruct Ha as (t & Ht & ->).
        rewrite (IH rest ltac:(lia) t b Ht).
        destruct (toUtf8Bytes b); reflexivity. }
      destruct (c <? 2048).
      { apply option_map_some in Ha. destruct Ha as (t & Ht & ->).
        rewrite (IH rest ltac:(lia) t b Ht).
        destruct (toUtf8Bytes b); reflexivity. }
      destruct (is_high_surrogate c).
      { destruct rest as [|c2 rest']; [discriminate|].
        cbn [app]. destruct (is_low_surrogate c2); [|discriminate].
        apply option_map_some in Ha. destruct Ha as (t & Ht & ->).
        simpl in Hlen.
        rewrite (IH rest' ltac:(lia) t b Ht).
        destruct (toUtf8Bytes b); reflexivity. }
      apply option_map_some in Ha. destruct Ha as (t & Ht & ->).
      rewrite (IH rest ltac:(lia) t b Ht).
      destruct (toUtf8Bytes b); reflexivity.
Qed.

Lemma toUtf8Bytes_app a b x y :
  toUtf8Bytes a = Some x -> toUtf8Bytes b = Some y ->
  toUtf8Bytes (a ++ b) = Some (x ++ y).
Proof.
  intros Ha Hb. rewrite (toUtf8Bytes_app_aux (length a) a (le_n _) x b Ha), Hb.
  reflexivity.
Qed.

Lemma encodable_app a b : encodable a -> encodable b -> encodable (a ++ b).
Proof.
  intros [x Hx] [y Hy]. exists (x ++ y). apply toUtf8Bytes_app; assumption.
Qed.

Lemma encodable_cons c s :
  is_high_surrogate c = false -> encodable s -> encodable (c :: s).
Proof.
  intros Hc [x Hx]. unfold encodable. cbn [toUtf8Bytes]. rewrite Hc, Hx.
  destruct (c <? 128); [|destruct (c <? 2048)]; cbn [option_map]; eauto.
Qed.

Lemma low_not_high c : is_low_surrogate c = true -> is_high_surrogate c = false.
Proof.
  unfold is_low_surrogate, is_high_surrogate. intros H.
  apply Z.eqb_eq in H. rewrite H. reflexivity.
Qed.

Lemma encodable_pair c c2 s :
  is_low_surrogate c2 = true -> encodable s -> encodable (c :: c2 :: s).
Proof.
  intros H2 Hs.
  destruct (is_high_surrogate c) eqn:Hc.
  - destruct Hs as [x Hx]. unfold encodable. cbn [toUtf8Bytes].
    rewrite Hc, H2, Hx.
    destruct (c <? 128) eqn:E1.
    + destruct (c2 <? 128); [|destruct (c2 <? 2048)];
        rewrite ?(low_not_high _ H2); cbn [option_map]; eauto.
    + destruct (c <? 2048); [|cbn [option_map]; eauto].
      destruct (c2 <? 128); [|destruct (c2 <? 2048)];
        rewrite ?(low_not_high _ H2); cbn [option_map]; eauto.
  - apply encodable_cons; [assumption|].
    apply encodable_cons; [apply low_not_high|]; assumption.
Qed.

Lemma toUtf8Bytes_ascii s : ascii_text s -> toUtf8Bytes s = Some s.
Proof.
  induction 1 as [|c s Hc _ IH]; [reflexivity|].
  cbn [toUtf8Bytes]. apply Z.ltb_lt in Hc. rewrite Hc, IH. reflexivity.
Qed.

Lemma encodable_ascii s : ascii_text s -> encodable s.
Proof. intros H. exists s. apply toUtf8Bytes_ascii, H. Qed.

Lemma hex_digit_ascii n : n < 16 -> hex_digit n < 128.
Proof. intros H. unfold hex_digit. destruct (n <? 10); lia. Qed.

Lemma land_15_lt c : Z.land c 15 < 16.
Proof.
  change 15 with (Z.ones 4). rewrite Z.land_ones by lia.
  apply Z.mod_pos_bound. reflexivity.
Qed.

Lemma unicode_escape_ascii c : ascii_text (unicode_escape c).
Proof.
  unfold unicode_escape, hex4.
  repeat constructor; apply hex_digit_ascii, land_15_lt.
Qed.

Lemma encodable_quote_unit c : encodable (quote_unit c).
Proof.
  unfold quote_unit.
  repeat match goal with
         | |- context [if ?b =? ?k then _ else _] =>
             destruct (b =? k);
             [apply encodable_ascii; repeat constructor|]
         end.
  destruct (c <? 32) eqn:E; [apply encodable_ascii, unicode_escape_ascii|].
  destruct (is_high_surrogate c) eqn:Hh;
    [apply encodable_ascii, unicode_escape_ascii|].
  destruct (is_low_surrogate c);
    [apply encodable_ascii, unicode_escape_ascii|].
  simpl. apply encodable_cons; [assumption | exists []; reflexivity].
Qed.

Lemma encodable_quote_units_aux n : forall s, (length s <= n)%nat ->
  encodable (quote_units s).
Proof.
  induction n as [|n IH]; intros s Hlen.
  - destruct s; [exists []; reflexivity | simpl in Hlen; lia].
  - destruct s as [|c rest]; [exists []; reflexivity|].
    simpl in Hlen. cbn [quote_units].
    destruct (is_high_surrogate c).
    + destruct rest as [|c2 rest']; [apply encodable_quote_unit|].
      destruct (is_low_surrogate c2) eqn:H2.
      * apply encodable_pair; [assumption|]. apply IH. simpl in Hlen. lia.
      * apply encodable_app; [apply encodable_quote_unit | apply IH; lia].
    + apply encodable_app; [apply encodable_quote_unit | apply IH; lia].
Qed.

Lemma encodable_quote s : encodable (quote s).
Proof.
  unfold quote. apply encodable_cons; [reflexivity|].
  apply encodable_app.
  - apply (encodable_quote_units_aux (length s)), le_n.
  - apply encodable_ascii. repeat constructor.
Qed.

Lemma digits_fuel_ascii fuel : forall n acc,
  0 <= n -> ascii_text acc -> ascii_text (digits_fuel fuel n acc).
Proof.
  induction fuel as [|f IH]; intros n acc Hn Hacc; cbn [digits_fuel];
    [assumption|].
  destruct (n <? 10) eqn:E.
  - apply Z.ltb_lt in E. constructor; [lia | assumption].
  - apply Z.ltb_ge in E. apply IH.
    + apply Z.div_pos; lia.
    + constructor; [|assumption]. pose proof (Z.mod_pos_bound n 10). lia.
Qed.

Lemma decimal_ascii n : ascii_text (decimal n).
Proof.
  destruct (Z.le_gt_cases 0 n) as [Hn | Hn].
  - apply digits_fuel_ascii; [exact Hn | constructor].
  - unfold decimal. cbn [digits_fuel].
    replace (n <? 10) with true by (symmetry; apply Z.ltb_lt; lia).
    constructor; [lia | constructor].
Qed.

Lemma ascii_app a b : ascii_text a -> ascii_text b -> ascii_text (a ++ b).
Proof. intros Ha Hb. apply Forall_app. split; assumption. Qed.

Lemma ascii_zeros n : ascii_text (repeat 48 n).
Proof. induction n; constructor; [lia | assumption]. Qed.

Lemma In_firstn {A} (x : A) n : forall l, In x (firstn n l) -> In x l.
Proof.
  induction n as [|n IH]; intros [|a l] H; cbn [firstn] in H;
    try contradiction.
  destruct H as [-> | H]; [left; reflexivity | right; apply IH; exact H].
Qed.

Lemma In_skipn {A} (x : A) n : forall l, In x (skipn n l) -> In x l.
Proof.
  induction n as [|n IH]; intros [|a l] H; cbn [skipn] in H;
    try assumption.
  right. apply IH. exact H.
Qed.

Lemma ascii_firstn n s : ascii_text s -> ascii_text (firstn n s).
Proof.
  unfold ascii_text. rewrite !Forall_forall. intros H c Hc.
  apply H. eapply In_firstn. exact Hc.
Qed.

Lemma ascii_skipn n s : ascii_text s -> ascii_text (skipn n s).
Proof.
  unfold ascii_text. rewrite !Forall_forall. intros H c Hc.
  apply H. eapply In_skipn. exact Hc.
Qed.

Lemma decimal_text_ascii s E : ascii_text (decimal_text s E).
Proof.
  unfold decimal_text. pose proof (decimal_ascii s) as Hs.
  set (ds := decimal s) in *. clearbody ds.
  set (n := Z.of_nat (length ds) + E). clearbody n.
  assert (Hx : ascii_text
                 (101 :: (if n - 1 <? 0 then 45 else 43)
                      :: decimal (Z.abs (n - 1)))).
  { constructor; [lia|]. constructor; [destruct (n - 1 <? 0); lia|].
    apply decimal_ascii. }
  destruct (_ && _); [apply ascii_app; [assumption | apply ascii_zeros]|].
  destruct (_ && _).
  { apply ascii_app; [apply ascii_firstn; assumption|].
    constructor; [lia | apply ascii_skipn; assumption]. }
  destruct (_ && _).
  { constructor; [lia|]. constructor; [lia|].
    apply ascii_app; [apply ascii_zeros | assumption]. }
  destruct ds as [|d [|d2 ds']].
  - exact Hx.
  - apply ascii_app; assumption.
  - inversion Hs as [|? ? Hd Hrest]. subst.
    constructor; [assumption|]. constructor; [lia|].
    apply ascii_app; assumption.
Qed.

Lemma NumberToString_ascii x : ascii_text (NumberToString x).
Proof.
  destruct x as [negative m e | negative]; cbn [NumberToString].
  - destruct (m =? 0); [repeat constructor|].
    destruct (digits_of m e) as [s E].
    destruct negative; [constructor; [lia|]|]; apply decimal_text_ascii.
  - destruct negative; repeat constructor.
Qed.

(** Induction on JSON values, with the hypothesis for every element of
    an array and every property value of an object. *)
Lemma json_ind' (P : json -> Prop) :
  P JNull -> (forall b, P (JBool b)) -> (forall n, P (JNum n)) ->
  (forall s, P (JStr s)) ->
  (forall xs, Forall P xs -> P (JArr xs)) ->
  (forall kvs, Forall (fun kv => P (snd kv)) kvs -> P (JObj kvs)) ->
  forall v, P v.
Proof.
  intros Hnull Hbool Hnum Hstr Harr Hobj.
  fix IH 1. intros [| b | n | s | xs | kvs].
  - apply Hnull.
  - apply Hbool.
  - apply Hnum.
  - apply Hstr.
  - apply Harr. induction xs as [|x xs IHxs]; constructor; [apply IH | apply IHxs].
  - apply Hobj. induction kvs as [|[k x] kvs IHkvs]; constructor;
      [apply IH | apply IHkvs].
Qed.

Lemma encodable_join_comma parts :
  Forall encodable parts -> encodable (join_comma parts).
Proof.
  induction 1 as [|p parts Hp Hparts IH]; [exists []; reflexivity|].
  cbn [join_comma]. destruct parts as [|p' parts']; [assumption|].
  apply encodable_app; [assumption|].
  apply encodable_cons; [reflexivity | assumption].
Qed.

Lemma encodable_stringify v : encodable (stringify v).
Proof.
  induction v as [| b | n | s | xs IH | kvs IH] using json_ind'.
  - apply encodable_ascii. repeat constructor.
  - destruct b; apply encodable_ascii; repeat constructor.
  - cbn [stringify]. destruct (is_finite n);
      [apply encodable_ascii, NumberToString_ascii
      |apply encodable_ascii; repeat constructor].
  - apply encodable_quote.
  - cbn [stringify]. apply encodable_cons; [reflexivity|].
    apply encodable_app; [|apply encodable_ascii; repeat constructor].
    apply encodable_join_comma. apply Forall_map. exact IH.
  - cbn [stringify]. apply encodable_cons; [reflexivity|].
    apply encodable_app; [|apply encodable_ascii; repeat constructor].
    apply encodable_join_comma. apply Forall_map.
    eapply Forall_impl; [|exact IH]. intros [k x] Hx. simpl in Hx.
    apply encodable_app; [apply encodable_quote|].
    apply encodable_cons; [reflexivity | assumption].
Qed.

(** The identifier of a value always exists and is a 32-byte digest. *)
Lemma data_id_defined v :
  exists utf8, toUtf8Bytes (stringify v) = Some utf8
               /\ data_id (Some v) = Some (keccak256 utf8).
Proof.
  destruct (encodable_stringify v) as [utf8 H]. exists utf8.
  split; [assumption|]. unfold data_id. simpl. rewrite H. reflexivity.
Qed.

(** ** Parsing back a serialized value *)

Lemma jsstring_eqb_eq a b : jsstring_eqb a b = true <-> a = b.
Proof.
  revert b. induction a as [|x a IH]; intros [|y b]; simpl;
    try (split; [discriminate | discriminate || congruence]).
  - split; reflexivity.
  - rewrite andb_true_iff, Z.eqb_eq, IH. split.
    + intros [-> ->]. reflexivity.
    + intros H. inversion H. auto.
Qed.

Lemma jsstring_eqb_refl a : jsstring_eqb a a = true.
Proof. apply jsstring_eqb_eq. reflexivity. Qed.

Lemma land_high_bits_small c : 0 <= c < 1024 -> Z.land c 64512 = 0.
Proof.
  intros Hc. rewrite <- (Z.mod_small c (2 ^ 10)) by (change (2 ^ 10) with 1024; lia).
  rewrite <- Z.land_ones by lia. rewrite <- Z.land_assoc.
  change (Z.land (Z.ones 10) 64512) with 0. apply Z.land_0_r.
Qed.

Lemma surrogate_large c :
  0 <= c -> is_high_surrogate c || is_low_surrogate c = true -> 1024 <= c.
Proof.
  intros Hc H. destruct (Z_lt_le_dec c 1024) as [Hlt|]; [|assumption].
  unfold is_high_surrogate, is_low_surrogate in H.
  rewrite land_high_bits_small in H by lia. discriminate.
Qed.

Lemma unhex4_hex4 c : 0 <= c < 65536 ->
  match hex4 c with
  | [h1; h2; h3; h4] => unhex4 h1 h2 h3 h4 = Some c
  | _ => False
  end.
Proof.
  intros Hc. unfold hex4, unhex4.
  assert (B : forall k, 0 <= k -> 0 <= Z.land (Z.shiftr c k) 15 < 16).
  { intros k Hk. split; [apply Z.land_nonneg; right; lia | apply land_15_lt]. }
  pose proof (B 12 ltac:(lia)) as B3. pose proof (B 8 ltac:(lia)) as B2.
  pose proof (B 4 ltac:(lia)) as B1.
  assert (B0 : 0 <= Z.land c 15 < 16).
  { split; [apply Z.land_nonneg; right; lia | apply land_15_lt]. }
  rewrite !hex_digit_char by assumption.
  rewrite !hex_value_digit by assumption.
  cbn [andb]. f_equal.
  change 15 with (Z.ones 4). rewrite !Z.land_ones by lia.
  rewrite !Z.shiftr_div_pow2 by lia.
  change (2 ^ 12) with 4096. change (2 ^ 8) with 256. change (2 ^ 4) with 16.
  Z.div_mod_to_equations. lia.
Qed.

Lemma parse_string_escape c X t r :
  0 <= c < 65536 -> parse_string X = Some (t, r) ->
  parse_string (unicode_escape c ++ X) = Some (c :: t, r).
Proof.
  intros Hc HX. pose proof (unhex4_hex4 c Hc) as H.
  unfold unicode_escape. destruct (hex4 c) as [|h1 [|h2 [|h3 [|h4 [|]]]]];
    try contradiction.
  cbn [app parse_string]. change (92 =? 34) with false.
  change (92 =? 92) with true. change (117 =? 117) with true. cbv iota.
  rewrite H, HX. reflexivity.
Qed.

Lemma parse_string_raw c X t r :
  32 <= c -> c <> 34 -> c <> 92 -> parse_string X = Some (t, r) ->
  parse_string (c :: X) = Some (c :: t, r).
Proof.
  intros H32 H34 H92 HX. cbn [parse_string].
  apply Z.eqb_neq in H34, H92. rewrite H34, H92.
  replace (c <? 32) with false by (symmetry; apply Z.ltb_ge; lia).
  rewrite HX. reflexivity.
Qed.

Lemma parse_string_quote_unit c X t r :
  code_unit c = true -> parse_string X = Some (t, r) ->
  parse_string (quote_unit c ++ X) = Some (c :: t, r).
Proof.
  intros Hc HX. unfold code_unit in Hc.
  apply andb_true_iff in Hc. destruct Hc as [H0 H1].
  apply Z.leb_le in H0. apply Z.ltb_lt in H1.
  unfold quote_unit.
  repeat match goal with
         | |- context [if c =? ?k then _ else _] =>
             let E := fresh "E" in
             destruct (c =? k) eqn:E;
             [apply Z.eqb_eq in E; subst c; cbn; rewrite HX; reflexivity
             |apply Z.eqb_neq in E]
         end.
  destruct ((c <? 32) || is_high_surrogate c || is_low_surrogate c) eqn:Esc.
  - apply parse_string_escape; [lia | assumption].
  - apply orb_false_iff in Esc. destruct Esc as [Esc _].
    apply orb_false_iff in Esc. destruct Esc as [Esc _].
    apply Z.ltb_ge in Esc. cbn [app].
    apply parse_string_raw; assumption.
Qed.

Lemma surrogate_raw c X t r :
  0 <= c -> is_high_surrogate c || is_low_surrogate c = true ->
  parse_string X = Some (t, r) -> parse_string (c :: X) = Some (c :: t, r).
Proof.
  intros H0 Hs HX. pose proof (surrogate_large c H0 Hs).
  apply parse_string_raw; try assumption; lia.
Qed.

Lemma parse_string_quote_units_aux n : forall s rest,
  (length s <= n)%nat -> forallb code_unit s = true ->
  parse_string (quote_units s ++ 34 :: rest) = Some (s, rest).
Proof.
  induction n as [|n IH]; intros s rest Hlen Hs.
  - destruct s; [reflexivity | simpl in Hlen; lia].
  - destruct s as [|c s']; [reflexivity|].
    simpl in Hlen. cbn [forallb] in Hs.
    apply andb_true_iff in Hs. destruct Hs as [Hc Hs'].
    cbn [quote_units].
    destruct (is_high_surrogate c) eqn:Hh.
    + destruct s' as [|c2 s''].
      * rewrite (parse_string_quote_unit c (34 :: rest) [] rest Hc);
          reflexivity.
      * destruct (is_low_surrogate c2) eqn:Hl.
        -- cbn [forallb] in Hs'. apply andb_true_iff in Hs'.
           destruct Hs' as [Hc2 Hs''].
           simpl in Hlen.
           assert (0 <= c /\ 0 <= c2) as [P1 P2].
           { unfold code_unit in Hc, Hc2.
             apply andb_true_iff in Hc, Hc2.
             destruct Hc as [Hc _], Hc2 as [Hc2 _].
             apply Z.leb_le in Hc, Hc2. split; assumption. }
           cbn [app].
           apply surrogate_raw; [assumption | rewrite Hh; reflexivity|].
           apply surrogate_raw;
             [assumption | rewrite Hl; apply orb_true_r|].
           apply IH; [lia | assumption].
        -- rewrite <- app_assoc.
           apply parse_string_quote_unit; [assumption|].
           apply IH; [lia | assumption].
    + rewrite <- app_assoc.
      apply parse_string_quote_unit; [assumption|].
      apply IH; [lia | assumption].
Qed.

(** A quoted string reads back as the string. *)
Lemma parse_string_quote s rest :
  forallb code_unit s = true ->
  parse_string (quote_units s ++ 34 :: rest) = Some (s, rest).
Proof. apply (parse_string_quote_units_aux (length s)), le_n. Qed.

Lemma parse_digits_app ds : forall a rest,
  forallb is_digit ds = true -> no_digit_ahead rest ->
  parse_digits a (ds ++ rest) = (digits_value a ds, rest).
Proof.
  induction ds as [|d ds IH]; intros a rest Hds Hrest.
  - cbn [app digits_value]. destruct rest as [|c rest']; [reflexivity|].
    cbn [parse_digits]. simpl in Hrest. rewrite Hrest. reflexivity.
  - cbn [forallb] in Hds. apply andb_true_iff in Hds. destruct Hds as [Hd Hds].
    cbn [app parse_digits digits_value]. rewrite Hd. apply IH; assumption.
Qed.

Lemma digits_value_app ds : forall a d,
  digits_value a (ds ++ [d]) = digits_value a ds * 10 + (d - 48).
Proof.
  induction ds as [|x ds IH]; intros a d; cbn [app digits_value];
    [reflexivity | apply IH].
Qed.

(** What [digits_fuel] writes in front of the accumulator: the decimal
    digits of [n], most significant first, and no leading zero. *)
Lemma digits_fuel_spec fuel : forall n acc,
  0 <= n < 10 ^ Z.of_nat (S fuel) ->
  exists d ds,
    digits_fuel (S fuel) n acc = d :: ds ++ acc
    /\ forallb is_digit (d :: ds) = true
    /\ digits_value 0 (d :: ds) = n
    /\ (d = 48 -> ds = [] /\ n = 0).
Proof.
  induction fuel as [|f IH]; intros n acc Hn;
    cbn [digits_fuel]; destruct (n <? 10) eqn:E;
    try (apply Z.ltb_lt in E; exists (48 + n), [];
         cbn [app forallb digits_value]; unfold is_digit;
         replace (48 <=? 48 + n) with true by (symmetry; apply Z.leb_le; lia);
         replace (48 + n <=? 57) with true by (symmetry; apply Z.leb_le; lia);
         repeat split; lia).
  - apply Z.ltb_ge in E. change (10 ^ Z.of_nat 1) with 10 in Hn. lia.
  - apply Z.ltb_ge in E.
    assert (Hq : 0 <= n / 10 < 10 ^ Z.of_nat (S f)).
    { split; [apply Z.div_pos; lia|].
      apply Z.div_lt_upper_bound; [lia|].
      rewrite (Nat2Z.inj_succ (S f)), Z.pow_succ_r in Hn by lia. lia. }
    destruct (IH (n / 10) (48 + n mod 10 :: acc) Hq)
      as (d & ds & Heq & Hdig & Hval & Hzero).
    exists d, (ds ++ [48 + n mod 10]).
    pose proof (Z.mod_pos_bound n 10 ltac:(lia)) as Hm.
    pose proof (Z.div_mod n 10 ltac:(lia)) as Hdm.
    split; [|split; [|split]].
    + cbn [digits_fuel] in Heq. rewrite Heq, <- app_assoc. reflexivity.
    + cbn [forallb] in Hdig |- *. apply andb_true_iff in Hdig.
      destruct Hdig as [Hd Hds]. rewrite Hd, forallb_app, Hds.
      cbn [forallb]. unfold is_digit.
      replace (48 <=? 48 + n mod 10) with true
        by (symmetry; apply Z.leb_le; lia).
      replace (48 + n mod 10 <=? 57) with true
        by (symmetry; apply Z.leb_le; lia).
      reflexivity.
    + change (d :: ds ++ [48 + n mod 10])
        with ((d :: ds) ++ [48 + n mod 10]).
      rewrite digits_value_app, Hval. lia.
    + intros H48. destruct (Hzero H48) as [_ Hz]. lia.
Qed.

Lemma decimal_fuel n : 0 <= n -> n < 10 ^ Z.of_nat (S (Z.to_nat (Z.log2 n))).
Proof.
  intros Hn. rewrite Nat2Z.inj_succ, Z2Nat.id by apply Z.log2_nonneg.
  destruct (Z.eq_dec n 0) as [->|Hnz]; [reflexivity|].
  pose proof (Z.log2_spec n ltac:(lia)) as [_ H].
  eapply Z.lt_le_trans; [exact H|].
  apply Z.pow_le_mono_l. lia.
Qed.

Lemma decimal_spec n : 0 <= n ->
  exists d ds,
    decimal n = d :: ds
    /\ forallb is_digit (d :: ds) = true
    /\ digits_value 0 (d :: ds) = n
    /\ (d = 48 -> ds = [] /\ n = 0).
Proof.
  intros Hn.
  destruct (digits_fuel_spec (Z.to_nat (Z.log2 n)) n []
              (conj Hn (decimal_fuel n Hn)))
    as (d & ds & Heq & H).
  exists d, ds. rewrite app_nil_r in Heq. split; assumption.
Qed.

Lemma is_digit_not_minus d : is_digit d = true -> (d =? 45) = false.
Proof.
  unfold is_digit. intros H. apply andb_true_iff in H. destruct H as [H _].
  apply Z.leb_le in H. apply Z.eqb_neq. lia.
Qed.

(** ** Doubles *)

(** Texts of numbers as [Number::toString] writes them. *)
Example number_texts :
  NumberToString (Finite false 3602879701896397 (-55)) = str "0.1"
  /\ NumberToString (Finite false 1351079888211149 (-52))
     = str "0.30000000000000004"
  /\ NumberToString (Finite true 5 (-2)) = str "-1.25"
  /\ NumberToString (of_Z (2 ^ 60)) = str "1152921504606847000"
  /\ NumberToString (of_Z (2 ^ 70)) = str "1.1805916207174113e+21"
  /\ NumberToString (of_Z (10 ^ 21)) = str "1e+21"
  /\ NumberToString (Finite false 1 (-1074)) = str "5e-324"
  /\ NumberToString (Finite true 0 0) = str "0"
  /\ NumberToString (Infinite true) = str "-Infinity".
Proof. vm_compute. repeat split. Qed.

(** Literals as [JSON.parse] reads them. *)
Example number_literals :
  parse_number (str "0.1") = Some (Finite false 3602879701896397 (-55), [])
  /\ parse_number (str "-12.5e-1") = Some (Finite true 5 (-2), [])
  /\ parse_number (str "9007199254740993") = Some (of_Z 9007199254740992, [])
  /\ parse_number (str "1E+2") = Some (of_Z 100, [])
  /\ parse_number (str "1e-7") = parse_number (str "0.0000001")
  /\ parse_number (str "-0.0") = Some (Finite true 0 0, [])
  /\ parse_number (str "1.7976931348623157e308")
     = Some (Finite false (2 ^ 53 - 1) 971, [])
  /\ parse_number (str "1.7976931348623159e308") = Some (Infinite false, [])
  /\ parse_number (str "-1e999") = Some (Infinite true, [])
  /\ JSON_parse (str "01") = None
  /\ JSON_parse (str "1.") = None
  /\ JSON_parse (str ".5") = None
  /\ JSON_parse (str "1e") = None
  /\ JSON_parse (str "+1") = None
  /\ JSON_parse (str "-") = None.
Proof. vm_compute. repeat split. Qed.

Lemma number_eqb_eq x y : number_eqb x y = true <-> x = y.
Proof.
  destruct x as [a m e | a], y as [b m' e' | b]; cbn [number_eqb];
    split; intros H; try discriminate H.
  - apply andb_true_iff in H. destruct H as [H He].
    apply andb_true_iff in H. destruct H as [Hs Hm].
    apply Bool.eqb_prop in Hs. apply Z.eqb_eq in Hm, He. subst. reflexivity.
  - injection H as -> -> ->.
    rewrite Bool.eqb_reflx, !Z.eqb_refl. reflexivity.
  - apply Bool.eqb_prop in H. subst. reflexivity.
  - injection H as ->. apply Bool.eqb_reflx.
Qed.

Lemma strip_twos_odd p : forall e,
  Z.odd (Z.pos p) = true -> strip_twos p e = (p, e).
Proof. destruct p; intros e H; [reflexivity | discriminate H | reflexivity]. Qed.

(** An odd significand and its exponent are what [dyadic] keeps of
    [m * 2 ^ d]. *)
Lemma dyadic_exact negative m d : forall e,
  0 < m -> Z.odd m = true -> 0 <= d ->
  dyadic negative (m * 2 ^ d) e = Finite negative m (e + d).
Proof.
  intros e Hm Hodd Hd. revert e.
  pattern d. apply natlike_ind; [| |exact Hd].
  - intros e. rewrite Z.pow_0_r, Z.mul_1_r, Z.add_0_r.
    destruct m as [|p|p]; try lia.
    unfold dyadic. rewrite (strip_twos_odd p e Hodd). reflexivity.
  - intros j Hj IH e. rewrite Z.pow_succ_r by exact Hj.
    replace (m * (2 * 2 ^ j)) with (2 * (m * 2 ^ j)) by ring.
    specialize (IH (e + 1)).
    assert (Hpos : 0 < m * 2 ^ j) by (apply Z.mul_pos_pos; [lia|apply Z.pow_pos_nonneg; lia]).
    destruct (m * 2 ^ j) as [|q|q]; try lia.
    change (2 * Z.pos q) with (Z.pos (xO q)).
    unfold dyadic in *. cbn [strip_twos]. rewrite IH. f_equal. lia.
Qed.

(** *** The binary exponent of a ratio *)

Lemma floor_log2_unique p q l :
  0 < p -> 0 < q ->
  (if 0 <=? l then q * 2 ^ l <= p else q <= p * 2 ^ (- l)) ->
  (if 0 <=? l + 1 then p < q * 2 ^ (l + 1) else p * 2 ^ (- (l + 1)) < q) ->
  floor_log2 p q = l.
Proof.
  intros Hp Hq Hle Hlt.
  pose proof (Z.log2_spec p Hp) as [Hp1 Hp2].
  pose proof (Z.log2_spec q Hq) as [Hq1 Hq2].
  pose proof (Z.log2_nonneg p) as Ha. pose proof (Z.log2_nonneg q) as Hb.
  set (a := Z.log2 p) in *. set (b := Z.log2 q) in *.
  assert (Hup : l <= a - b).
  { destruct (0 <=? l) eqn:El.
    - apply Z.leb_le in El.
      assert (H : 2 ^ (b + l) < 2 ^ (Z.succ a)).
      { rewrite Z.pow_add_r by lia.
        eapply Z.le_lt_trans; [|exact Hp2].
        eapply Z.le_trans; [|exact Hle].
        apply Z.mul_le_mono_nonneg_r; [apply Z.pow_nonneg; lia | exact Hq1]. }
      apply Z.pow_lt_mono_r_iff in H; lia.
    - apply Z.leb_gt in El.
      assert (H : 2 ^ b < 2 ^ (Z.succ a + - l)).
      { rewrite Z.pow_add_r by lia.
        eapply Z.le_lt_trans; [exact Hq1|].
        eapply Z.le_lt_trans; [exact Hle|].
        apply Z.mul_lt_mono_pos_r; [apply Z.pow_pos_nonneg; lia | exact Hp2]. }
      apply Z.pow_lt_mono_r_iff in H; lia. }
  assert (Hdown : a - b - 1 <= l).
  { destruct (0 <=? l + 1) eqn:El.
    - apply Z.leb_le in El.
      assert (H : 2 ^ a < 2 ^ (Z.succ b + (l + 1))).
      { rewrite Z.pow_add_r by lia.
        eapply Z.le_lt_trans; [exact Hp1|].
        eapply Z.lt_le_trans; [exact Hlt|].
        apply Z.mul_le_mono_nonneg_r; [apply Z.pow_nonneg; lia | lia]. }
      apply Z.pow_lt_mono_r_iff in H; lia.
    - apply Z.leb_gt in El.
      assert (H : 2 ^ (a + - (l + 1)) < 2 ^ (Z.succ b)).
      { rewrite Z.pow_add_r by lia.
        eapply Z.le_lt_trans; [|exact Hq2].
        eapply Z.le_trans; [|apply Z.lt_le_incl; exact Hlt].
        apply Z.mul_le_mono_nonneg_r; [apply Z.pow_nonneg; lia | exact Hp1]. }
      apply Z.pow_lt_mono_r_iff in H; lia. }
  unfold floor_log2. fold a b.
  destruct (Z.eq_dec l (a - b)) as [->|Hne].
  - destruct (0 <=? a - b).
    + apply Z.leb_le in Hle. rewrite Hle. reflexivity.
    + apply Z.leb_le in Hle. rewrite Hle. reflexivity.
  - assert (Hl : a - b = l + 1) by lia. rewrite Hl.
    destruct (0 <=? l + 1).
    + replace (q * 2 ^ (l + 1) <=? p) with false
        by (symmetry; apply Z.leb_gt; exact Hlt).
      lia.
    + replace (q <=? p * 2 ^ (- (l + 1))) with false
        by (symmetry; apply Z.leb_gt; exact Hlt).
      lia.
Qed.

(** *** Rounding a value of the format leaves it as it is *)

Lemma round_ratio_exact negative p q m e :
  0 < p -> 0 < q -> 0 < m -> Z.odd m = true -> m < 2 ^ 53 ->
  -1074 <= e -> Z.log2 m + e < 1024 ->
  (if 0 <=? e then p = m * 2 ^ e * q else p * 2 ^ (- e) = m * q) ->
  round_ratio negative p q = Finite negative m e.
Proof.
  intros Hp Hq Hm Hodd H53 Hmin Hmax Hexact.
  pose proof (Z.log2_spec m Hm) as [Ht1 Ht2].
  pose proof (Z.log2_nonneg m) as Ht0.
  assert (Ht52 : Z.log2 m < 53) by (apply Z.log2_lt_pow2; lia).
  set (t := Z.log2 m) in *.
  assert (Hfl : floor_log2 p q = t + e).
  { apply floor_log2_unique; try assumption.
    - destruct (0 <=? e) eqn:Ee.
      + apply Z.leb_le in Ee.
        replace (0 <=? t + e) with true by (symmetry; apply Z.leb_le; lia).
        rewrite Z.pow_add_r by lia. subst p.
        assert (0 < 2 ^ e) by (apply Z.pow_pos_nonneg; lia). nia.
      + apply Z.leb_gt in Ee.
        assert (HA : 0 < 2 ^ (- e)) by (apply Z.pow_pos_nonneg; lia).
        destruct (0 <=? t + e) eqn:El.
        * apply Z.leb_le in El.
          assert (Hsplit : 2 ^ t = 2 ^ (t + e) * 2 ^ (- e))
            by (rewrite <- Z.pow_add_r by lia; f_equal; lia).
          assert (0 < 2 ^ (t + e)) by (apply Z.pow_pos_nonneg; lia). nia.
        * apply Z.leb_gt in El.
          assert (Hsplit : 2 ^ (- e) = 2 ^ (- (t + e)) * 2 ^ t)
            by (rewrite <- Z.pow_add_r by lia; f_equal; lia).
          assert (0 < 2 ^ (- (t + e))) by (apply Z.pow_pos_nonneg; lia).
          assert (0 < 2 ^ t) by (apply Z.pow_pos_nonneg; lia). nia.
    - rewrite Z.pow_succ_r in Ht2 by lia.
      destruct (0 <=? e) eqn:Ee.
      + apply Z.leb_le in Ee.
        replace (0 <=? t + e + 1) with true by (symmetry; apply Z.leb_le; lia).
        replace (t + e + 1) with (Z.succ t + e) by lia.
        rewrite Z.pow_add_r, Z.pow_succ_r by lia. subst p.
        assert (0 < 2 ^ e) by (apply Z.pow_pos_nonneg; lia). nia.
      + apply Z.leb_gt in Ee.
        assert (HA : 0 < 2 ^ (- e)) by (apply Z.pow_pos_nonneg; lia).
        destruct (0 <=? t + e + 1) eqn:El.
        * apply Z.leb_le in El.
          assert (Hsplit : 2 * 2 ^ t = 2 ^ (t + e + 1) * 2 ^ (- e)).
          { rewrite <- Z.pow_add_r, <- Z.pow_succ_r by lia. f_equal. lia. }
          assert (0 < 2 ^ (t + e + 1)) by (apply Z.pow_pos_nonneg; lia). nia.
        * apply Z.leb_gt in El.
          assert (Hsplit : 2 ^ (- e) = 2 ^ (- (t + e + 1)) * (2 * 2 ^ t)).
          { rewrite <- Z.pow_succ_r, <- Z.pow_add_r by lia. f_equal. lia. }
          assert (0 < 2 ^ (- (t + e + 1))) by (apply Z.pow_pos_nonneg; lia).
          assert (0 < 2 ^ t) by (apply Z.pow_pos_nonneg; lia). nia. }
  unfold round_ratio. rewrite Hfl.
  set (e' := Z.max (t + e - 52) (-1074)).
  assert (He' : e' <= e /\ -1074 <= e') by (unfold e'; lia).
  set (d := e - e').
  assert (Hd : 0 <= d) by (unfold d; lia).
  assert (HD : 0 < 2 ^ d) by (apply Z.pow_pos_nonneg; lia).
  assert (Hscaled :
    (if 0 <=? e' then p else p * 2 ^ (- e'))
    = m * 2 ^ d * (if 0 <=? e' then q * 2 ^ e' else q)).
  { destruct (0 <=? e') eqn:E1.
    - apply Z.leb_le in E1.
      replace (0 <=? e) with true in Hexact by (symmetry; apply Z.leb_le; lia).
      subst p. replace e with (d + e') at 1 by (unfold d; lia).
      rewrite Z.pow_add_r by lia. ring.
    - apply Z.leb_gt in E1. destruct (0 <=? e) eqn:E2.
      + apply Z.leb_le in E2. subst p.
        replace d with (e + - e') by (unfold d; lia).
        rewrite Z.pow_add_r by lia. ring.
      + apply Z.leb_gt in E2.
        replace (- e') with (- e + d) by (unfold d; lia).
        rewrite Z.pow_add_r by lia.
        rewrite Z.mul_assoc, Hexact. ring. }
  assert (Hden : 0 < (if 0 <=? e' then q * 2 ^ e' else q)).
  { destruct (0 <=? e') eqn:E1; [|assumption].
    apply Z.leb_le in E1. apply Z.mul_pos_pos; [assumption|].
    apply Z.pow_pos_nonneg; lia. }
  set (den := if 0 <=? e' then q * 2 ^ e' else q) in *.
  rewrite Hscaled.
  rewrite Z.div_mul, Z.mod_mul by lia.
  replace (den <? 2 * 0) with false by (symmetry; apply Z.ltb_ge; lia).
  replace (den =? 2 * 0) with false by (symmetry; apply Z.eqb_neq; lia).
  cbn [orb andb].
  assert (Hmd : 0 < m * 2 ^ d) by (apply Z.mul_pos_pos; assumption).
  replace (0 <? m * 2 ^ d) with true by (symmetry; apply Z.ltb_lt; exact Hmd).
  rewrite Z.log2_mul_pow2 by lia. fold t.
  replace (1024 <=? d + t + e') with false
    by (symmetry; apply Z.leb_gt; unfold d; lia).
  cbn [andb]. rewrite dyadic_exact by assumption.
  f_equal. unfold d. lia.
Qed.

(** *** The digits of a number round to it *)

Lemma strip_zeros_spec fuel : forall s E,
  0 < s ->
  let (s', E') := strip_zeros fuel s E in
  0 < s' /\ E <= E' /\ s = s' * 10 ^ (E' - E).
Proof.
  induction fuel as [|f IH]; intros s E Hs; cbn [strip_zeros].
  - rewrite Z.sub_diag, Z.pow_0_r. lia.
  - destruct ((0 <? s) && (s mod 10 =? 0)) eqn:Hc.
    + apply andb_true_iff in Hc. destruct Hc as [_ Hc]. apply Z.eqb_eq in Hc.
      pose proof (Z.div_mod s 10 ltac:(lia)) as Hdm.
      assert (Hq : 0 < s / 10) by lia.
      specialize (IH (s / 10) (E + 1) Hq).
      destruct (strip_zeros f (s / 10) (E + 1)) as [s' E'].
      destruct IH as (Hs' & HE & Heq).
      split; [assumption|]. split; [lia|].
      replace (E' - E) with (Z.succ (E' - (E + 1))) by lia.
      rewrite Z.pow_succ_r by lia. lia.
    + rewrite Z.sub_diag, Z.pow_0_r. lia.
Qed.

Lemma significand_spec s E :
  0 < s ->
  let (s', E') := significand s E in
  0 < s' /\ E <= E' /\ s = s' * 10 ^ (E' - E).
Proof. apply strip_zeros_spec. Qed.

Lemma significand_zero E : significand 0 E = (0, E).
Proof. reflexivity. Qed.

Lemma rounds_to_sound x s E s' E' :
  0 <= s -> is_zero x = false ->
  rounds_to x s E = Some (s', E') ->
  0 < s' /\ round_decimal false s' E' = x.
Proof.
  intros Hs Hx. unfold rounds_to.
  destruct (Z.eq_dec s 0) as [->|Hne].
  - rewrite significand_zero. unfold round_decimal. cbn [Z.eqb].
    destruct (number_eqb (Finite false 0 0) x) eqn:Heq; [|discriminate].
    apply number_eqb_eq in Heq. subst x. discriminate Hx.
  - pose proof (significand_spec s E ltac:(lia)) as Hsig.
    destruct (significand s E) as [s0 E0]. destruct Hsig as (Hs0 & _ & _).
    destruct (number_eqb (round_decimal false s0 E0) x) eqn:Heq;
      [|discriminate].
    intros H. injection H as <- <-. apply number_eqb_eq in Heq. auto.
Qed.

Lemma candidate_sound x P Q n k s E :
  0 < P -> 0 < Q -> is_zero x = false ->
  candidate x P Q n k = Some (s, E) ->
  0 < s /\ round_decimal false s E = x.
Proof.
  intros HP HQ Hx. unfold candidate.
  set (num := if 0 <=? n - k then P else P * 10 ^ (- (n - k))).
  set (den := if 0 <=? n - k then Q * 10 ^ (n - k) else Q).
  assert (Hnum : 0 <= num).
  { unfold num. destruct (0 <=? n - k); [lia|].
    apply Z.mul_nonneg_nonneg; [lia | apply Z.pow_nonneg; lia]. }
  assert (Hden : 0 < den).
  { unfold den. destruct (0 <=? n - k) eqn:E1; [|assumption].
    apply Z.leb_le in E1. apply Z.mul_pos_pos; [assumption|].
    apply Z.pow_pos_nonneg; lia. }
  assert (Hlo : 0 <= num / den) by (apply Z.div_pos; assumption).
  clearbody num den.
  destruct (rounds_to x (num / den) (n - k)) as [[a Ea]|] eqn:Ha;
    destruct (rounds_to x (num / den + 1) (n - k)) as [[b Eb]|] eqn:Hb;
    try discriminate;
    try (destruct (_ || _));
    intros H; injection H as <- <-;
    first [apply (rounds_to_sound x (num / den) (n - k));
             [exact Hlo | exact Hx | exact Ha]
          |apply (rounds_to_sound x (num / den + 1) (n - k));
             [lia | exact Hx | exact Hb]].
Qed.

Lemma shortest_sound fuel x P Q n : forall k s E,
  0 < P -> 0 < Q -> is_zero x = false ->
  shortest fuel x P Q n k = Some (s, E) ->
  0 < s /\ round_decimal false s E = x.
Proof.
  induction fuel as [|f IH]; intros k s E HP HQ Hx; cbn [shortest];
    [discriminate|].
  destruct (candidate x P Q n k) as [[s0 E0]|] eqn:Hc.
  - intros H. injection H as <- <-.
    apply (candidate_sound x P Q n k); assumption.
  - apply IH; assumption.
Qed.

Lemma pow_10_split a : 0 <= a -> 10 ^ a = 2 ^ a * 5 ^ a.
Proof. intros Ha. rewrite <- Z.pow_mul_l. reflexivity. Qed.

(** The exact decimal of a value of the format rounds to it. *)
Lemma exact_decimal_rounds m e :
  0 < m -> Z.odd m = true -> m < 2 ^ 53 -> -1074 <= e ->
  Z.log2 m + e < 1024 ->
  let (S0, E0) := exact_decimal m e in
  let (s, E) := significand S0 E0 in
  0 < s /\ round_decimal false s E = Finite false m e.
Proof.
  intros Hm Hodd H53 Hmin Hmax. unfold exact_decimal.
  destruct (0 <=? e) eqn:Ee.
  - apply Z.leb_le in Ee.
    assert (Hpos : 0 < m * 2 ^ e)
      by (apply Z.mul_pos_pos; [lia | apply Z.pow_pos_nonneg; lia]).
    pose proof (significand_spec (m * 2 ^ e) 0 Hpos) as Hsig.
    destruct (significand (m * 2 ^ e) 0) as [s E].
    destruct Hsig as (Hs & HE & Heq). split; [assumption|].
    unfold round_decimal.
    replace (s =? 0) with false by (symmetry; apply Z.eqb_neq; lia).
    replace (0 <=? E) with true by (symmetry; apply Z.leb_le; lia).
    rewrite Z.sub_0_r in Heq. rewrite <- Heq.
    apply round_ratio_exact; try assumption; try lia.
    replace (0 <=? e) with true by (symmetry; apply Z.leb_le; lia). ring.
  - apply Z.leb_gt in Ee.
    assert (H5 : 0 < 5 ^ (- e)) by (apply Z.pow_pos_nonneg; lia).
    assert (Hpos : 0 < m * 5 ^ (- e)) by (apply Z.mul_pos_pos; lia).
    assert (Hodd' : Z.odd (m * 5 ^ (- e)) = true).
    { rewrite Z.odd_mul, Hodd, Z.odd_pow by lia. reflexivity. }
    assert (Hmod : ((m * 5 ^ (- e)) mod 10 =? 0) = false).
    { apply Z.eqb_neq. intros H0.
      pose proof (Z.div_mod (m * 5 ^ (- e)) 10 ltac:(lia)) as Hdm.
      rewrite H0, Z.add_0_r in Hdm. rewrite Hdm in Hodd'.
      replace (10 * (m * 5 ^ (- e) / 10))
        with (2 * (5 * (m * 5 ^ (- e) / 10))) in Hodd' by ring.
      rewrite Z.odd_mul in Hodd'. discriminate Hodd'. }
    assert (Hsig : significand (m * 5 ^ (- e)) e = (m * 5 ^ (- e), e)).
    { unfold significand.
      destruct (Z.to_nat (Z.log2 (m * 5 ^ (- e)))); cbn [strip_zeros];
        [reflexivity|].
      rewrite Hmod, andb_false_r. reflexivity. }
    rewrite Hsig. split; [assumption|].
    unfold round_decimal.
    replace (m * 5 ^ (- e) =? 0) with false
      by (symmetry; apply Z.eqb_neq; lia).
    replace (0 <=? e) with false by (symmetry; apply Z.leb_gt; lia).
    apply round_ratio_exact; try assumption; try lia;
      try (apply Z.pow_pos_nonneg; lia).
    replace (0 <=? e) with false by (symmetry; apply Z.leb_gt; lia).
    rewrite (pow_10_split (- e)) by lia. ring.
Qed.

Lemma digits_of_spec m e :
  0 < m -> Z.odd m = true -> m < 2 ^ 53 -> -1074 <= e ->
  Z.log2 m + e < 1024 ->
  let (s, E) := digits_of m e in
  0 < s /\ round_decimal false s E = Finite false m e.
Proof.
  intros Hm Hodd H53 Hmin Hmax. unfold digits_of.
  pose proof (exact_decimal_rounds m e Hm Hodd H53 Hmin Hmax) as Hexact.
  destruct (exact_decimal m e) as [S0 E0].
  match goal with
  | |- context [shortest ?f ?x ?P ?Q ?n ?k] =>
      destruct (shortest f x P Q n k) as [[s E]|] eqn:Hsearch
  end; [|exact Hexact].
  eapply shortest_sound; [| | |exact Hsearch].
  - destruct (0 <=? e) eqn:Ee; [|assumption].
    apply Z.leb_le in Ee. apply Z.mul_pos_pos; [lia|].
    apply Z.pow_pos_nonneg; lia.
  - destruct (0 <=? e) eqn:Ee; [lia|].
    apply Z.leb_gt in Ee. apply Z.pow_pos_nonneg; lia.
  - cbn [is_zero]. apply Z.eqb_neq. lia.
Qed.

Lemma round_ratio_sign negative p q :
  round_ratio negative p q
  = match round_ratio false p q with
    | Finite _ m e => Finite negative m e
    | Infinite _ => Infinite negative
    end.
Proof.
  unfold round_ratio.
  match goal with |- context [if ?c then Infinite _ else _] => destruct c end;
    [reflexivity|].
  unfold dyadic.
  match goal with |- context [match ?z with Z0 => _ | _ => _ end] =>
    destruct z as [|u|u] end; try reflexivity.
  destruct (strip_twos u _). reflexivity.
Qed.

Lemma round_decimal_sign negative s E m e :
  round_decimal false s E = Finite false m e ->
  round_decimal negative s E = Finite negative m e.
Proof.
  unfold round_decimal. destruct (s =? 0).
  - intros H. injection H as <- <-. reflexivity.
  - destruct (0 <=? E); rewrite (round_ratio_sign negative);
      intros ->; reflexivity.
Qed.

(** *** Reading the text of a number *)

Lemma digits_value_append xs : forall a ys,
  digits_value a (xs ++ ys) = digits_value (digits_value a xs) ys.
Proof.
  induction xs as [|x xs IH]; intros a ys; cbn [app digits_value];
    [reflexivity | apply IH].
Qed.

Lemma digits_value_zeros j : forall a,
  digits_value a (repeat 48 j) = a * 10 ^ Z.of_nat j.
Proof.
  induction j as [|j IH]; intros a.
  - cbn [repeat digits_value]. rewrite Z.pow_0_r. lia.
  - cbn [repeat digits_value]. rewrite IH, Nat2Z.inj_succ, Z.pow_succ_r by lia.
    ring.
Qed.

Lemma forallb_digit_zeros j : forallb is_digit (repeat 48 j) = true.
Proof. induction j as [|j IH]; [reflexivity | exact IH]. Qed.

Lemma parse_fraction_app ds : forall a count rest,
  forallb is_digit ds = true -> no_digit_ahead rest ->
  parse_fraction a count (ds ++ rest)
  = (digits_value a ds, count + Z.of_nat (length ds), rest).
Proof.
  induction ds as [|d ds IH]; intros a count rest Hds Hrest.
  - cbn [app digits_value length]. rewrite Z.add_0_r.
    destruct rest as [|c rest']; [reflexivity|].
    cbn [parse_fraction]. cbn in Hrest. rewrite Hrest. reflexivity.
  - cbn [forallb] in Hds. apply andb_true_iff in Hds. destruct Hds as [Hd Hds].
    cbn [app parse_fraction digits_value]. rewrite Hd.
    rewrite IH by assumption. cbn [length]. rewrite Nat2Z.inj_succ.
    f_equal. f_equal. lia.
Qed.

Lemma parse_exponent_none rest :
  starts_fraction rest = false -> parse_exponent rest = Some (0, rest).
Proof.
  destruct rest as [|c rest]; [reflexivity|]. cbn [starts_fraction].
  intros H. apply orb_false_iff in H. destruct H as [H H69].
  apply orb_false_iff in H. destruct H as [_ H101].
  cbn [parse_exponent]. rewrite H101, H69. reflexivity.
Qed.

Lemma parse_exponent_text x rest :
  no_digit_ahead rest ->
  parse_exponent
    (101 :: (if x <? 0 then 45 else 43) :: decimal (Z.abs x) ++ rest)
  = Some (x, rest).
Proof.
  intros Hrest.
  destruct (decimal_spec (Z.abs x) ltac:(lia))
    as (d & ds & Heq & Hdig & Hval & _).
  cbn [parse_exponent]. change (101 =? 101) with true. cbn [orb].
  rewrite Heq.
  assert (Hd : is_digit d = true).
  { cbn [forallb] in Hdig. apply andb_true_iff in Hdig. apply Hdig. }
  destruct (x <? 0) eqn:Hx.
  - change (45 =? 45) with true. cbv iota. cbn [app]. rewrite Hd.
    change (d :: ds ++ rest) with ((d :: ds) ++ rest).
    rewrite (parse_digits_app (d :: ds) 0 rest Hdig Hrest), Hval.
    apply Z.ltb_lt in Hx. f_equal. f_equal. lia.
  - change (43 =? 45) with false. change (43 =? 43) with true. cbv iota.
    cbn [app]. rewrite Hd.
    change (d :: ds ++ rest) with ((d :: ds) ++ rest).
    rewrite (parse_digits_app (d :: ds) 0 rest Hdig Hrest), Hval.
    apply Z.ltb_ge in Hx. f_equal. f_equal. lia.
Qed.

Lemma not_digit_46 : is_digit 46 = false.
Proof. reflexivity. Qed.

Lemma not_digit_101 : is_digit 101 = false.
Proof. reflexivity. Qed.

Lemma forallb_firstn {A} (f : A -> bool) n : forall l,
  forallb f l = true -> forallb f (firstn n l) = true.
Proof.
  induction n as [|n IH]; intros [|a l] H; cbn [firstn forallb] in *;
    try reflexivity.
  apply andb_true_iff in H. destruct H as [Ha Hl].
  rewrite Ha, (IH l Hl). reflexivity.
Qed.

Lemma forallb_skipn {A} (f : A -> bool) n : forall l,
  forallb f l = true -> forallb f (skipn n l) = true.
Proof.
  induction n as [|n IH]; intros [|a l] H; cbn [skipn forallb] in *;
    try assumption; try reflexivity.
  apply andb_true_iff in H. apply IH, H.
Qed.

(** The digits of a positive integer. *)
Lemma decimal_positive s :
  0 < s ->
  exists d ds,
    decimal s = d :: ds
    /\ is_digit d = true /\ (d =? 48) = false
    /\ forallb is_digit ds = true
    /\ digits_value (d - 48) ds = s.
Proof.
  intros Hs.
  destruct (decimal_spec s ltac:(lia)) as (d & ds & Heq & Hdig & Hval & Hzero).
  exists d, ds. cbn [forallb] in Hdig. apply andb_true_iff in Hdig.
  destruct Hdig as [Hd Hds].
  split; [assumption|]. split; [assumption|].
  split; [apply Z.eqb_neq; intros H48; destruct (Hzero H48); lia|].
  split; [assumption|]. cbn [digits_value] in Hval. exact Hval.
Qed.

(** A literal made of an integer part, a fraction and an exponent is
    read as the decimal they denote. *)
Lemma parse_magnitude_parts negative d ip fr ex rest :
  is_digit d = true -> forallb is_digit ip = true ->
  (d =? 48) = false \/ ip = [] ->
  forallb is_digit fr = true -> number_end rest ->
  parse_magnitude negative
    (d :: ip ++ fraction_text fr ++ exponent_text ex ++ rest)
  = Some (round_decimal negative (digits_value 0 (d :: ip ++ fr))
            (match ex with Some x => x | None => 0 end
             - Z.of_nat (length fr)),
          rest).
Proof.
  intros Hd Hip Hlead Hfr [Hrest Hfrac].
  set (tail_ex := exponent_text ex ++ rest).
  assert (Hex : no_digit_ahead tail_ex
                /\ match tail_ex with c :: _ => (c =? 46) = false | [] => True end
                /\ parse_exponent tail_ex
                   = Some (match ex with Some x => x | None => 0 end, rest)).
  { unfold tail_ex. destruct ex as [x|]; cbn [exponent_text app].
    - split; [reflexivity|]. split; [reflexivity|].
      apply parse_exponent_text. exact Hrest.
    - split; [exact Hrest|]. split.
      + destruct rest as [|c rest']; [exact I|]. cbn [starts_fraction] in Hfrac.
        apply orb_false_iff in Hfrac. destruct Hfrac as [H _].
        apply orb_false_iff in H. apply H.
      + apply parse_exponent_none. exact Hfrac. }
  destruct Hex as (Hex1 & Hex2 & Hex3).
  fold tail_ex. clearbody tail_ex.
  set (tail_fr := fraction_text fr ++ tail_ex).
  assert (Htail : no_digit_ahead tail_fr).
  { unfold tail_fr. destruct fr; [exact Hex1 | reflexivity]. }
  assert (Hdigits : forallb is_digit (d :: ip) = true)
    by (cbn [forallb]; rewrite Hd, Hip; reflexivity).
  cbn [parse_magnitude]. rewrite Hd.
  change (d :: ip ++ tail_fr) with ((d :: ip) ++ tail_fr).
  rewrite (parse_digits_app (d :: ip) 0 tail_fr Hdigits Htail).
  assert (Hzero : (d =? 48)
                  && match ip ++ tail_fr with
                     | c :: _ => is_digit c
                     | [] => false
                     end = false).
  { destruct Hlead as [-> | ->]; [reflexivity|].
    cbn [app]. destruct tail_fr as [|c r]; [apply andb_false_r|].
    cbn in Htail. rewrite Htail. apply andb_false_r. }
  rewrite Hzero.
  change (d :: ip ++ fr) with ((d :: ip) ++ fr).
  rewrite digits_value_append.
  set (i := digits_value 0 (d :: ip)).
  unfold tail_fr. destruct fr as [|f0 fr'].
  - cbn [fraction_text app length]. 
    destruct tail_ex as [|c r].
    + rewrite Hex3. cbn [digits_value]. reflexivity.
    + rewrite Hex2, Hex3. cbn [digits_value]. reflexivity.
  - cbn [fraction_text app]. change (46 =? 46) with true. cbv iota.
    cbn [forallb] in Hfr. pose proof Hfr as Hfr2.
    apply andb_true_iff in Hfr2. destruct Hfr2 as [Hf0 _]. rewrite Hf0.
    change (f0 :: fr' ++ tail_ex) with ((f0 :: fr') ++ tail_ex).
    rewrite (parse_fraction_app (f0 :: fr') i 0 tail_ex Hfr Hex1).
    rewrite Hex3. reflexivity.
Qed.

Lemma round_decimal_zeros negative s j :
  0 < s -> 0 <= j ->
  round_decimal negative (s * 10 ^ j) 0 = round_decimal negative s j.
Proof.
  intros Hs Hj. unfold round_decimal.
  assert (0 < 10 ^ j) by (apply Z.pow_pos_nonneg; lia).
  replace (s * 10 ^ j =? 0) with false by (symmetry; apply Z.eqb_neq; nia).
  replace (s =? 0) with false by (symmetry; apply Z.eqb_neq; lia).
  replace (0 <=? j) with true by (symmetry; apply Z.leb_le; lia).
  cbn [Z.leb Z.compare]. rewrite Z.pow_0_r, Z.mul_1_r. reflexivity.
Qed.

Lemma firstn_cons_digit (d : Z) ds n :
  (0 < n)%nat -> firstn n (d :: ds) = d :: firstn (pred n) ds.
Proof. destruct n; [lia | reflexivity]. Qed.

Lemma skipn_cons_digit (d : Z) ds n :
  (0 < n)%nat -> skipn n (d :: ds) = skipn (pred n) ds.
Proof. destruct n; [lia | reflexivity]. Qed.

(** The text of a decimal is read as the double nearest to it. *)
Lemma parse_magnitude_text negative s E rest :
  0 < s -> number_end rest ->
  parse_magnitude negative (decimal_text s E ++ rest)
  = Some (round_decimal negative s E, rest).
Proof.
  intros Hs Hrest.
  destruct (decimal_positive s Hs) as (d & ds & Heq & Hd & Hd48 & Hds & Hval).
  unfold decimal_text. rewrite Heq.
  set (k := Z.of_nat (length (d :: ds))).
  assert (Hk : k = 1 + Z.of_nat (length ds))
    by (unfold k; cbn [length]; lia).
  assert (Hall : digits_value 0 (d :: ds) = s) by exact Hval.
  destruct ((k <=? k + E) && (k + E <=? 21)) eqn:Ca.
  { (* the digits, followed by zeros *)
    apply andb_true_iff in Ca. destruct Ca as [Ca _]. apply Z.leb_le in Ca.
    set (zeros := repeat 48 (Z.to_nat (k + E - k))).
    replace (((d :: ds) ++ zeros) ++ rest)
      with (d :: (ds ++ zeros) ++ fraction_text [] ++ exponent_text None
              ++ rest)
      by (cbn [fraction_text exponent_text app]; rewrite <- app_assoc;
          reflexivity).
    rewrite parse_magnitude_parts; try assumption.
    - rewrite app_nil_r.
      change (d :: ds ++ zeros) with ((d :: ds) ++ zeros).
      rewrite digits_value_append, Hall. unfold zeros.
      rewrite digits_value_zeros, Z2Nat.id by lia.
      change (0 - Z.of_nat (length (@nil Z))) with 0.
      rewrite round_decimal_zeros by lia. do 3 f_equal. lia.
    - rewrite forallb_app, Hds. apply forallb_digit_zeros.
    - left. exact Hd48.
    - reflexivity. }
  destruct ((0 <? k + E) && (k + E <=? 21)) eqn:Cb.
  { (* a decimal point among the digits *)
    apply andb_true_iff in Cb. destruct Cb as [Cb Cb21].
    apply Z.ltb_lt in Cb.
    assert (Hlt : k + E < k).
    { destruct (k <=? k + E) eqn:H1; [|apply Z.leb_gt in H1; exact H1].
      rewrite Cb21 in Ca. discriminate Ca. }
    set (n := Z.to_nat (k + E)).
    assert (Hn : (0 < n <= length ds)%nat) by (unfold n; lia).
    rewrite (firstn_cons_digit d ds n) by lia.
    rewrite (skipn_cons_digit d ds n) by lia.
    set (A := firstn (pred n) ds). set (B := skipn (pred n) ds).
    assert (HAB : A ++ B = ds) by apply firstn_skipn.
    assert (HB : (length B = length ds - pred n)%nat)
      by (unfold B; apply length_skipn).
    assert (HdA : forallb is_digit A = true)
      by (unfold A; apply forallb_firstn; exact Hds).
    assert (HdB : forallb is_digit B = true)
      by (unfold B; apply forallb_skipn; exact Hds).
    clearbody A B.
    assert (HBne : B <> []).
    { intros H0. rewrite H0 in HB. cbn [length] in HB. lia. }
    replace (((d :: A) ++ 46 :: B) ++ rest)
      with (d :: A ++ fraction_text B ++ exponent_text None ++ rest).
    2:{ destruct B as [|b B']; [contradiction|].
        cbn [fraction_text exponent_text app]. rewrite <- app_assoc.
        reflexivity. }
    rewrite parse_magnitude_parts; try assumption.
    - rewrite HAB, Hall. do 3 f_equal. rewrite HB. lia.
    - left. exact Hd48. }
  destruct ((-6 <? k + E) && (k + E <=? 0)) eqn:Cc.
  { (* zeros between the decimal point and the digits *)
    apply andb_true_iff in Cc. destruct Cc as [_ Cc]. apply Z.leb_le in Cc.
    set (zeros := repeat 48 (Z.to_nat (- (k + E)))).
    replace ((48 :: 46 :: zeros ++ d :: ds) ++ rest)
      with (48 :: [] ++ fraction_text (zeros ++ d :: ds)
              ++ exponent_text None ++ rest).
    2:{ cbn [exponent_text app]. destruct zeros as [|z zs];
          cbn [fraction_text app]; rewrite <- ?app_assoc; reflexivity. }
    rewrite parse_magnitude_parts; try assumption; try reflexivity.
    - cbn [app]. change (48 :: zeros ++ d :: ds)
        with ((48 :: zeros) ++ d :: ds).
      rewrite digits_value_append.
      change (48 :: zeros) with (repeat 48 (S (Z.to_nat (- (k + E))))).
      rewrite digits_value_zeros, Z.mul_0_l.
      change (digits_value 0 (d :: ds)) with (digits_value 0 (d :: ds)).
      rewrite Hall. do 3 f_equal.
      rewrite length_app. unfold zeros. rewrite repeat_length.
      cbn [length]. lia.
    - right. reflexivity.
    - rewrite forallb_app. unfold zeros. rewrite forallb_digit_zeros.
      cbn [forallb]. rewrite Hd, Hds. reflexivity. }
  (* an exponent *)
  destruct ds as [|d2 ds'].
  - replace (([d] ++ 101 :: (if k + E - 1 <? 0 then 45 else 43)
                :: decimal (Z.abs (k + E - 1))) ++ rest)
      with (d :: [] ++ fraction_text [] ++ exponent_text (Some (k + E - 1))
              ++ rest)
      by (cbn [fraction_text exponent_text app]; reflexivity).
    rewrite parse_magnitude_parts; try assumption; try reflexivity.
    + cbn [app]. rewrite Hall. do 3 f_equal. cbn [length] in *. lia.
    + left. exact Hd48.
  - replace ((d :: 46 :: (d2 :: ds') ++ 101
                :: (if k + E - 1 <? 0 then 45 else 43)
                :: decimal (Z.abs (k + E - 1))) ++ rest)
      with (d :: [] ++ fraction_text (d2 :: ds')
              ++ exponent_text (Some (k + E - 1)) ++ rest)
      by (cbn [fraction_text exponent_text app]; rewrite <- app_assoc;
          reflexivity).
    rewrite parse_magnitude_parts; try assumption; try reflexivity.
    + cbn [app]. rewrite Hall. do 3 f_equal. cbn [length] in *. lia.
    + left. exact Hd48.
Qed.

Lemma decimal_text_head s E :
  0 < s -> exists c tl, decimal_text s E = c :: tl /\ is_digit c = true.
Proof.
  intros Hs.
  destruct (decimal_positive s Hs) as (d & ds & Heq & Hd & _).
  unfold decimal_text. rewrite Heq.
  set (k := Z.of_nat (length (d :: ds))).
  destruct ((k <=? k + E) && (k + E <=? 21)); [cbn [app]; eauto|].
  destruct ((0 <? k + E) && (k + E <=? 21)) eqn:Cb.
  { apply andb_true_iff in Cb. destruct Cb as [Cb _]. apply Z.ltb_lt in Cb.
    rewrite (firstn_cons_digit d ds (Z.to_nat (k + E))) by lia.
    cbn [app]. eauto. }
  destruct ((-6 <? k + E) && (k + E <=? 0)); [eauto|].
  destruct ds; cbn [app]; eauto.
Qed.

(** The shape of a number that can be read back. *)
Lemma json_number_cases x :
  json_number x = true ->
  x = Finite false 0 0
  \/ exists negative m e,
       x = Finite negative m e /\ 0 < m /\ Z.odd m = true /\ m < 2 ^ 53
       /\ -1074 <= e /\ Z.log2 m + e < 1024.
Proof.
  unfold json_number. destruct x as [negative m e | negative];
    cbn [is_double is_finite]; [|rewrite andb_false_r; discriminate].
  rewrite andb_true_r. intros H. apply andb_true_iff in H.
  destruct H as [Hd Hz]. destruct (m =? 0) eqn:Hm.
  - apply Z.eqb_eq in Hm, Hd. subst. left.
    destruct negative; [discriminate Hz | reflexivity].
  - right. exists negative, m, e.
    apply andb_true_iff in Hd. destruct Hd as [Hd H5].
    apply andb_true_iff in Hd. destruct Hd as [Hd H4].
    apply andb_true_iff in Hd. destruct Hd as [Hd H3].
    apply andb_true_iff in Hd. destruct Hd as [H1 H2].
    apply Z.ltb_lt in H1, H3, H5. apply Z.leb_le in H4.
    split; [reflexivity|]. repeat split; assumption.
Qed.

(** The text of a number is read back as the number. *)
Lemma parse_number_toString x rest :
  json_number x = true -> number_end rest ->
  parse_number (NumberToString x ++ rest) = Some (x, rest).
Proof.
  intros Hx Hrest.
  destruct (json_number_cases x Hx)
    as [-> | (negative & m & e & -> & Hm & Hodd & H53 & Hmin & Hmax)].
  - change (NumberToString (Finite false 0 0) ++ rest) with (48 :: rest).
    cbn [parse_number]. change (48 =? 45) with false. cbv iota.
    exact (parse_magnitude_parts false 48 [] [] None rest eq_refl eq_refl
             (or_intror eq_refl) eq_refl Hrest).
  - cbn [NumberToString].
    replace (m =? 0) with false by (symmetry; apply Z.eqb_neq; lia).
    pose proof (digits_of_spec m e Hm Hodd H53 Hmin Hmax) as Hdigits.
    destruct (digits_of m e) as [s E]. destruct Hdigits as [Hs Hround].
    destruct negative.
    + cbn [app parse_number]. change (45 =? 45) with true. cbv iota.
      rewrite (parse_magnitude_text true s E rest Hs Hrest).
      rewrite (round_decimal_sign true s E m e Hround). reflexivity.
    + destruct (decimal_text_head s E Hs) as (c & tl & Heq & Hc).
      pose proof (parse_magnitude_text false s E rest Hs Hrest) as H.
      rewrite Heq in H |- *. cbn [app parse_number] in H |- *.
      rewrite (is_digit_not_minus c Hc). cbv iota.
      rewrite H, Hround. reflexivity.
Qed.

(** *** Property order is kept by re-definition *)

Lemma insert_index_last k v i post : forall pre lo b,
  ordered_keys lo b (map fst pre ++ k :: post) = true ->
  array_index k = Some i ->
  b = false /\ lo < i /\ insert_index i k v pre = pre ++ [(k, v)].
Proof.
  induction pre as [|[k0 v0] pre IH]; intros lo b Hord Hk.
  - cbn [map app ordered_keys] in Hord. rewrite Hk in Hord.
    apply andb_true_iff in Hord. destruct Hord as [Hord _].
    apply andb_true_iff in Hord. destruct Hord as [Hb Hlo].
    apply negb_true_iff in Hb. apply Z.ltb_lt in Hlo.
    repeat split; assumption.
  - cbn [map app ordered_keys fst] in Hord.
    cbn [insert_index app].
    destruct (array_index k0) as [j|] eqn:Hk0.
    + apply andb_true_iff in Hord. destruct Hord as [Hord Hrest].
      apply andb_true_iff in Hord. destruct Hord as [Hb Hlo].
      apply negb_true_iff in Hb. apply Z.ltb_lt in Hlo.
      destruct (IH j false Hrest Hk) as (_ & Hji & Heq).
      apply Z.ltb_lt in Hji. rewrite Hji, Heq. apply Z.ltb_lt in Hji.
      repeat split; [assumption | lia].
    + destruct (IH lo true Hord Hk) as (Habs & _). discriminate.
Qed.

Lemma existsb_eqb_false k ks :
  existsb (jsstring_eqb k) ks = false -> ~ In k ks.
Proof.
  intros H Hin.
  assert (existsb (jsstring_eqb k) ks = true).
  { apply existsb_exists. exists k. split; [assumption | apply jsstring_eqb_refl]. }
  congruence.
Qed.

Lemma nodup_keys_middle pre k post :
  nodup_keys (pre ++ k :: post) = true -> ~ In k pre.
Proof.
  induction pre as [|k0 pre IH]; intros H; [intros []|].
  cbn [app nodup_keys] in H. apply andb_true_iff in H. destruct H as [H0 H].
  apply negb_true_iff in H0. apply existsb_eqb_false in H0.
  intros [->|Hin]; [|exact (IH H Hin)].
  apply H0. apply in_or_app. right. left. reflexivity.
Qed.

Lemma assoc_absent k pre : ~ In k (map fst pre) -> assoc k pre = None.
Proof.
  induction pre as [|[k0 v0] pre IH]; intros H; [reflexivity|].
  cbn [assoc]. cbn [map fst In] in H.
  destruct (jsstring_eqb k k0) eqn:E.
  - apply jsstring_eqb_eq in E. subst. exfalso. apply H. left. reflexivity.
  - apply IH. intros Hin. apply H. right. assumption.
Qed.

Lemma set_prop_last pre k v post :
  nodup_keys (map fst pre ++ k :: post) = true ->
  ordered_keys (-1) false (map fst pre ++ k :: post) = true ->
  set_prop pre k v = pre ++ [(k, v)].
Proof.
  intros Hnd Hord. unfold set_prop.
  rewrite (assoc_absent k pre (nodup_keys_middle _ _ _ Hnd)).
  destruct (array_index k) as [i|] eqn:Hk; [|reflexivity].
  apply (insert_index_last k v i post pre (-1) false Hord Hk).
Qed.

Lemma define_all_ordered kvs : forall pre,
  nodup_keys (map fst (pre ++ kvs)) = true ->
  ordered_keys (-1) false (map fst (pre ++ kvs)) = true ->
  define_all kvs pre = pre ++ kvs.
Proof.
  induction kvs as [|[k v] kvs IH]; intros pre Hnd Hord.
  - rewrite app_nil_r. reflexivity.
  - unfold define_all. cbn [fold_left fst snd].
    rewrite map_app in Hnd, Hord. cbn [map fst] in Hnd, Hord.
    rewrite (set_prop_last pre k v (map fst kvs) Hnd Hord).
    change (define_all kvs (pre ++ [(k, v)]) = pre ++ (k, v) :: kvs).
    rewrite IH; rewrite <- ?app_assoc; cbn [app]; try reflexivity;
      rewrite map_app; cbn [map fst]; assumption.
Qed.

(** *** The parser on the text of a value *)

Lemma delimited_number_end rest : delimited rest -> number_end rest.
Proof.
  destruct rest as [|c rest]; [split; reflexivity|].
  intros [->|[->| ->]]; split; reflexivity.
Qed.

Lemma skip_ws_delimited rest : delimited rest -> skip_ws rest = rest.
Proof.
  destruct rest as [|c rest]; [reflexivity|].
  intros [->|[->| ->]]; reflexivity.
Qed.

Lemma double_cases negative m e :
  is_double (Finite negative m e) = true ->
  (m = 0 /\ e = 0)
  \/ (0 < m /\ Z.odd m = true /\ m < 2 ^ 53 /\ -1074 <= e
      /\ Z.log2 m + e < 1024).
Proof.
  cbn [is_double]. destruct (m =? 0) eqn:Hm.
  - intros He. apply Z.eqb_eq in Hm, He. left. split; assumption.
  - intros Hd. right.
    apply andb_true_iff in Hd. destruct Hd as [Hd H5].
    apply andb_true_iff in Hd. destruct Hd as [Hd H4].
    apply andb_true_iff in Hd. destruct Hd as [Hd H3].
    apply andb_true_iff in Hd. destruct Hd as [H1 H2].
    apply Z.ltb_lt in H1, H3, H5. apply Z.leb_le in H4.
    repeat split; assumption.
Qed.

Lemma NumberToString_head x :
  is_double x = true -> is_finite x = true ->
  exists c tl, NumberToString x = c :: tl /\ (c = 45 \/ is_digit c = true).
Proof.
  destruct x as [negative m e | negative]; [|discriminate].
  intros Hd _.
  destruct (double_cases negative m e Hd)
    as [[-> ->] | (Hm & Hodd & H53 & Hmin & Hmax)].
  - eexists _, _. split; [reflexivity | right; reflexivity].
  - cbn [NumberToString].
    replace (m =? 0) with false by (symmetry; apply Z.eqb_neq; lia).
    pose proof (digits_of_spec m e Hm Hodd H53 Hmin Hmax) as Hdigits.
    destruct (digits_of m e) as [s E]. destruct Hdigits as [Hs _].
    destruct negative.
    + eexists _, _. split; [reflexivity | left; reflexivity].
    + destruct (decimal_text_head s E Hs) as (c & tl & Heq & Hc).
      exists c, tl. split; [assumption | right; assumption].
Qed.

Lemma stringify_head v :
  parsable v = true -> exists c tl, stringify v = c :: tl /\ value_start c.
Proof.
  destruct v as [| [|] | x | s | xs | kvs]; cbn [stringify parsable];
    intros Hv;
    try (eexists _, _; split; [reflexivity | unfold value_start; tauto]).
  destruct (is_finite x) eqn:Hfin;
    [|eexists _, _; split; [reflexivity | unfold value_start; tauto]].
  destruct (NumberToString_head x Hv Hfin) as (c & tl & Heq & Hc).
  exists c, tl. split; [assumption|]. unfold value_start. tauto.
Qed.

Lemma digit_range c : is_digit c = true -> 48 <= c <= 57.
Proof.
  unfold is_digit. intros H. apply andb_true_iff in H.
  destruct H as [H1 H2]. apply Z.leb_le in H1, H2. lia.
Qed.

Lemma skip_ws_value_start c tl : value_start c -> skip_ws (c :: tl) = c :: tl.
Proof.
  intros H. cbn [skip_ws].
  assert (E : is_ws c = false).
  { unfold value_start in H.
    repeat (destruct H as [->|H]; [reflexivity|]).
    apply digit_range in H. unfold is_ws.
    repeat (apply orb_false_iff; split); apply Z.eqb_neq; lia. }
  rewrite E. reflexivity.
Qed.

Lemma value_start_not_close c : value_start c ->
  (c =? 93) = false /\ (c =? 125) = false.
Proof.
  unfold value_start. intros H.
  repeat (destruct H as [->|H]; [split; reflexivity|]).
  apply digit_range in H. split; apply Z.eqb_neq; lia.
Qed.

Lemma parse_value_number f c tl :
  c = 45 \/ is_digit c = true ->
  parse_value (S f) (c :: tl) =
  match parse_number (c :: tl) with
  | Some (n, r') => Some (JNum n, r')
  | None => None
  end.
Proof.
  intros Hc.
  assert (value_start c) as Hv by (unfold value_start; tauto).
  cbn [parse_value]. rewrite (skip_ws_value_start c tl Hv).
  assert (E : (c =? 34) = false /\ (c =? 91) = false /\ (c =? 123) = false
              /\ (c =? 110) = false /\ (c =? 116) = false
              /\ (c =? 102) = false).
  { destruct Hc as [->|Hc]; [repeat split|].
    apply digit_range in Hc. repeat split; apply Z.eqb_neq; lia. }
  destruct E as (E1 & E2 & E3 & E4 & E5 & E6).
  rewrite E1, E2, E3, E4, E5, E6. reflexivity.
Qed.

Lemma parse_elements_step f acc s :
  parse_elements (S f) acc s =
  match parse_value f s with
  | Some (v, r) =>
      match skip_ws r with
      | c :: r' =>
          if c =? 44 then parse_elements f (v :: acc) r'
          else if c =? 93 then Some (JArr (rev (v :: acc)), r')
          else None
      | [] => None
      end
  | None => None
  end.
Proof. reflexivity. Qed.

Lemma parse_elements_join xs :
  Forall reads_back xs -> xs <> [] ->
  forall fuel acc rest,
    (length (join_comma (map stringify xs)) + 1 < fuel)%nat ->
    parse_elements fuel acc (join_comma (map stringify xs) ++ 93 :: rest)
    = Some (JArr (rev acc ++ map reparsed xs), rest).
Proof.
  induction 1 as [|x xs Hx Hxs IH]; intros Hne fuel acc rest Hfuel;
    [congruence|].
  destruct fuel as [|f]; [lia|]. rewrite parse_elements_step.
  destruct xs as [|x2 xs'].
  - cbn [map join_comma] in *.
    rewrite (Hx f (93 :: rest)) by (simpl; tauto || lia).
    cbn. reflexivity.
  - change (join_comma (map stringify (x :: x2 :: xs')))
      with (stringify x ++ 44 :: join_comma (map stringify (x2 :: xs'))) in *.
    set (J := join_comma (map stringify (x2 :: xs'))) in *.
    rewrite length_app in Hfuel. cbn [length] in Hfuel.
    rewrite <- app_assoc. cbn [app].
    rewrite (Hx f) by (simpl; tauto || lia).
    cbn [skip_ws]. change (is_ws 44) with false. change (44 =? 44) with true.
    cbv iota.
    rewrite (IH ltac:(discriminate) f (reparsed x :: acc) rest)
      by (fold J; lia).
    cbn [rev map]. rewrite <- app_assoc. reflexivity.
Qed.

Lemma member_shape k x tail :
  member (k, x) ++ tail = 34 :: quote_units k ++ 34 :: 58 :: stringify x ++ tail.
Proof.
  unfold member, quote. cbn [app]. rewrite <- !app_assoc. reflexivity.
Qed.

Lemma parse_members_step f acc s :
  parse_members (S f) acc s =
  match skip_ws s with
  | q :: r0 =>
      if q =? 34 then
        match parse_string r0 with
        | Some (k, r1) =>
            match skip_ws r1 with
            | c1 :: r2 =>
                if c1 =? 58 then
                  match parse_value f r2 with
                  | Some (v, r3) =>
                      match skip_ws r3 with
                      | c :: r' =>
                          if c =? 44 then
                            parse_members f (set_prop acc k v) r'
                          else if c =? 125 then
                            Some (JObj (set_prop acc k v), r')
                          else None
                      | [] => None
                      end
                  | None => None
                  end
                else None
            | [] => None
            end
        | None => None
        end
      else None
  | [] => None
  end.
Proof. reflexivity. Qed.

Lemma parse_members_join kvs :
  Forall (fun kv => reads_back (snd kv)) kvs ->
  forallb (forallb code_unit) (map fst kvs) = true -> kvs <> [] ->
  forall fuel acc rest,
    (length (join_comma (map member kvs)) + 1 < fuel)%nat ->
    parse_members fuel acc (join_comma (map member kvs) ++ 125 :: rest)
    = Some (JObj (define_all
                    (map (fun kv => (fst kv, reparsed (snd kv))) kvs) acc),
            rest).
Proof.
  induction 1 as [|[k x] kvs Hx Hkvs IH]; intros Hkeys Hne fuel acc rest Hfuel;
    [congruence|].
  cbn [map fst forallb] in Hkeys. apply andb_true_iff in Hkeys.
  destruct Hkeys as [Hk Hkeys]. cbn [snd] in Hx.
  destruct fuel as [|f]; [lia|]. rewrite parse_members_step.
  assert (Hlen : (length (stringify x) < length (member (k, x)))%nat).
  { unfold member. rewrite length_app. cbn [length]. lia. }
  destruct kvs as [|kv2 kvs'].
  - cbn [map join_comma] in Hfuel |- *.
    rewrite member_shape. cbn [skip_ws]. change (is_ws 34) with false.
    change (34 =? 34) with true. cbv iota.
    rewrite (parse_string_quote k _ Hk).
    cbn [skip_ws]. change (is_ws 58) with false.
    change (58 =? 58) with true. cbv iota.
    rewrite (Hx f (125 :: rest)) by (simpl; tauto || lia).
    cbn [skip_ws]. change (is_ws 125) with false.
    change (125 =? 44) with false. change (125 =? 125) with true.
    cbv iota. reflexivity.
  - change (join_comma (map member ((k, x) :: kv2 :: kvs')))
      with (member (k, x) ++ 44 :: join_comma (map member (kv2 :: kvs'))) in *.
    set (J := join_comma (map member (kv2 :: kvs'))) in *.
    rewrite length_app in Hfuel. cbn [length] in Hfuel.
    rewrite <- app_assoc. cbn [app].
    rewrite member_shape. cbn [skip_ws]. change (is_ws 34) with false.
    change (34 =? 34) with true. cbv iota.
    rewrite (parse_string_quote k _ Hk).
    cbn [skip_ws]. change (is_ws 58) with false.
    change (58 =? 58) with true. cbv iota.
    rewrite (Hx f) by (simpl; tauto || lia).
    cbn [skip_ws]. change (is_ws 44) with false. change (44 =? 44) with true.
    cbv iota.
    rewrite (IH Hkeys ltac:(discriminate) f (set_prop acc k (reparsed x))
               rest)
      by (fold J; lia).
    reflexivity.
Qed.

Lemma map_member kvs :
  map (fun '(k, x) => quote k ++ 58 :: stringify x) kvs = map member kvs.
Proof. apply map_ext. intros [k x]. reflexivity. Qed.

Lemma map_fst_reparsed (kvs : list (jsstring * json)) :
  map fst (map (fun kv => (fst kv, reparsed (snd kv))) kvs) = map fst kvs.
Proof.
  induction kvs as [|[k x] kvs IH]; cbn [map fst];
    [reflexivity | rewrite IH; reflexivity].
Qed.

Lemma parse_value_number_text x f rest :
  json_number x = true -> delimited rest ->
  parse_value (S f) (NumberToString x ++ rest) = Some (JNum x, rest).
Proof.
  intros Hx Hrest. pose proof Hx as Hx'. unfold json_number in Hx'.
  apply andb_true_iff in Hx'. destruct Hx' as [Hx' _].
  apply andb_true_iff in Hx'. destruct Hx' as [Hd Hfin].
  destruct (NumberToString_head x Hd Hfin) as (c & tl & Heq & Hc).
  rewrite Heq. cbn [app]. rewrite (parse_value_number f c _ Hc).
  change (c :: tl ++ rest) with ((c :: tl) ++ rest). rewrite <- Heq.
  rewrite (parse_number_toString x rest Hx (delimited_number_end _ Hrest)).
  reflexivity.
Qed.

(** Every value that can be parsed is read back from its text, as far
    as the text keeps it. *)
Lemma parse_value_stringify v : parsable v = true -> reads_back v.
Proof.
  induction v as [| b | x | s | xs IH | kvs IH] using json_ind';
    intros Hwf fuel rest Hfuel Hrest;
    (destruct fuel as [|f]; [lia|]).
  - reflexivity.
  - destruct b; reflexivity.
  - cbn [stringify reparsed parsable] in *.
    destruct x as [negative m e | negative]; [|reflexivity].
    cbn [is_finite is_zero].
    destruct (double_cases negative m e Hwf)
      as [[-> ->] | (Hm & Hodd & H53 & Hmin & Hmax)].
    + change (NumberToString (Finite negative 0 0))
        with (NumberToString (Finite false 0 0)).
      apply parse_value_number_text; [reflexivity | exact Hrest].
    + replace (m =? 0) with false by (symmetry; apply Z.eqb_neq; lia).
      apply parse_value_number_text; [|exact Hrest].
      unfold json_number. rewrite Hwf. cbn [is_finite andb].
      replace (m =? 0) with false by (symmetry; apply Z.eqb_neq; lia).
      rewrite andb_false_r. reflexivity.
  - cbn [stringify parsable reparsed] in *. unfold quote. cbn [app].
    rewrite <- app_assoc. cbn [app parse_value skip_ws].
    change (is_ws 34) with false. change (34 =? 34) with true. cbv iota.
    rewrite (parse_string_quote s rest Hwf). reflexivity.
  - cbn [stringify parsable reparsed] in *.
    destruct xs as [|x xs']; [reflexivity|].
    assert (Hall : Forall reads_back (x :: xs')).
    { apply Forall_forall. intros y Hy.
      rewrite Forall_forall in IH. apply (IH y Hy).
      rewrite forallb_forall in Hwf. apply Hwf, Hy. }
    assert (Hx : parsable x = true).
    { rewrite forallb_forall in Hwf. apply Hwf. left. reflexivity. }
    cbn [app]. rewrite <- app_assoc. cbn [app parse_value skip_ws].
    change (is_ws 91) with false. change (91 =? 34) with false.
    change (91 =? 91) with true. cbv iota.
    destruct (stringify_head x Hx) as (c & tl & Heq & Hc).
    assert (Hhead : exists tl', join_comma (map stringify (x :: xs'))
                                ++ 93 :: rest = c :: tl').
    { cbn [map join_comma]. rewrite Heq.
      destruct (map stringify xs'); cbn [app]; eauto. }
    destruct Hhead as (tl' & Hhead). rewrite Hhead.
    rewrite (skip_ws_value_start c tl' Hc).
    rewrite (proj1 (value_start_not_close c Hc)). rewrite <- Hhead.
    rewrite (parse_elements_join (x :: xs') Hall ltac:(discriminate) f [] rest).
    + reflexivity.
    + cbn [length] in Hfuel. rewrite length_app in Hfuel.
      cbn [length] in Hfuel. lia.
  - cbn [stringify parsable reparsed] in *.
    apply andb_true_iff in Hwf. destruct Hwf as [Hkeys Hvals].
    unfold object_keys in Hkeys.
    apply andb_true_iff in Hkeys. destruct Hkeys as [Hkeys Hord].
    apply andb_true_iff in Hkeys. destruct Hkeys as [Hunits Hnd].
    rewrite map_member in *.
    destruct kvs as [|[k x] kvs']; [reflexivity|].
    assert (Hall : Forall (fun kv => reads_back (snd kv)) ((k, x) :: kvs')).
    { apply Forall_forall. intros y Hy.
      rewrite Forall_forall in IH. apply (IH y Hy).
      rewrite forallb_forall in Hvals. apply Hvals, Hy. }
    cbn [app]. rewrite <- app_assoc. cbn [app parse_value skip_ws].
    change (is_ws 123) with false. change (123 =? 34) with false.
    change (123 =? 91) with false. change (123 =? 123) with true. cbv iota.
    assert (Hhead : exists tl', join_comma (map member ((k, x) :: kvs'))
                                ++ 125 :: rest = 34 :: tl').
    { destruct kvs'; cbn [map join_comma]; unfold member at 1, quote;
        cbn [app]; eauto. }
    destruct Hhead as (tl' & Hhead). rewrite Hhead.
    cbn [skip_ws]. change (is_ws 34) with false.
    change (34 =? 125) with false. cbv iota. rewrite <- Hhead.
    rewrite (parse_members_join ((k, x) :: kvs') Hall Hunits
               ltac:(discriminate) f [] rest).
    + rewrite define_all_ordered;
        [reflexivity | cbn [app]; rewrite map_fst_reparsed; assumption ..].
    + cbn [length] in Hfuel. rewrite length_app in Hfuel.
      cbn [length] in Hfuel. lia.
Qed.

(** [JSON.parse(JSON.stringify(v))] is what the text keeps of [v]. *)
Lemma JSON_parse_reparsed v :
  parsable v = true -> JSON_parse (stringify v) = Some (reparsed v).
Proof.
  intros Hwf. unfold JSON_parse.
  pose proof (parse_value_stringify v Hwf (S (length (stringify v))) []
                (Nat.lt_succ_diag_r _) I) as H.
  rewrite app_nil_r in H. rewrite H. reflexivity.
Qed.

Lemma json_number_double x :
  json_number x = true
  -> is_double x = true /\ is_finite x = true /\ is_zero x = false
     \/ x = Finite false 0 0.
Proof.
  intros Hx. destruct (json_number_cases x Hx)
    as [-> | (negative & m & e & -> & Hm & _)]; [right; reflexivity|].
  left. unfold json_number in Hx.
  apply andb_true_iff in Hx. destruct Hx as [Hx _].
  apply andb_true_iff in Hx. destruct Hx as [Hd Hfin].
  repeat split; try assumption. cbn [is_zero]. apply Z.eqb_neq. lia.
Qed.

(** A well-formed value can be parsed, and its text keeps all of it. *)
Lemma well_formed_parsable v :
  well_formed v = true -> parsable v = true /\ reparsed v = v.
Proof.
  induction v as [| b | x | s | xs IH | kvs IH] using json_ind';
    cbn [well_formed parsable reparsed]; intros Hwf; try (split; [assumption || reflexivity | reflexivity]).
  - destruct (json_number_double x Hwf) as [(Hd & Hfin & Hz) | ->];
      [|split; reflexivity].
    rewrite Hfin, Hz. split; [assumption | reflexivity].
  - assert (H : forallb parsable xs = true /\ map reparsed xs = xs).
    { induction IH as [|y ys Hy _ IHys]; [split; reflexivity|].
      cbn [forallb map] in *. apply andb_true_iff in Hwf.
      destruct Hwf as [Hwy Hwys]. destruct (Hy Hwy) as [-> ->].
      destruct (IHys Hwys) as [-> ->]. split; reflexivity. }
    destruct H as [-> ->]. split; reflexivity.
  - apply andb_true_iff in Hwf. destruct Hwf as [-> Hvals].
    assert (H : forallb (fun kv => parsable (snd kv)) kvs = true
                /\ map (fun kv => (fst kv, reparsed (snd kv))) kvs = kvs).
    { induction IH as [|[k y] ys Hy _ IHys]; [split; reflexivity|].
      cbn [forallb map fst snd] in *. apply andb_true_iff in Hvals.
      destruct Hvals as [Hwy Hwys]. destruct (Hy Hwy) as [-> ->].
      destruct (IHys Hwys) as [-> ->]. split; reflexivity. }
    destruct H as [-> ->]. split; reflexivity.
Qed.

(** [JSON.parse(JSON.stringify(v))] is [v]. *)
Lemma JSON_parse_stringify v :
  well_formed v = true -> JSON_parse (stringify v) = Some v.
Proof.
  intros Hwf. destruct (well_formed_parsable v Hwf) as [Hp Heq].
  rewrite (JSON_parse_reparsed v Hp), Heq. reflexivity.
Qed.

(** * The claims *)

(** ** Pagination *)

(** C5, the scenario of the specification: [limit=500&offset=-5] reaches
    the store as limit 100 and offset -5; the offset is not raised to 0. *)
Lemma pagination_offset_not_clamped :
  pagination (QStr (str "500")) (QStr (str "-5")) = (100, -5)
  /\ trace_of (handleGetAllVotes (QStr (str "500")) (QStr (str "-5")) [])
     = [EvDb (SelectPage 100 (-5))]
  /\ ~ (0 <= snd (pagination (QStr (str "500")) (QStr (str "-5")))).
Proof. repeat split. vm_compute. intros H. apply H. reflexivity. Qed.

Lemma or_default_cases x d :
  (x = None /\ or_default x d = d) \/ (x = Some 0 /\ or_default x d = d)
  \/ (exists n, n <> 0 /\ x = Some n /\ or_default x d = n).
Proof.
  destruct x as [n|]; [|left; split; reflexivity].
  destruct (Z.eq_dec n 0) as [->|Hn]; [right; left; split; reflexivity|].
  right. right. exists n. unfold or_default.
  apply Z.eqb_neq in Hn. rewrite Hn. apply Z.eqb_neq in Hn. auto.
Qed.

(** C5, as the code has it: the store receives the limit
    [min(parseInt(limit) || 10, 100)] and the offset [parseInt(offset) || 0].
    The limit never exceeds 100, is 10 when the parameter is absent, not a
    number or zero, and lies in [1, 100] for a positive parameter; the
    offset is 0 when the parameter is absent, not a number or zero, and
    the parsed integer otherwise.  Negative values pass through. *)
Theorem list_pagination (q_limit q_offset : qvalue) (t : table) :
  let limit := fst (pagination q_limit q_offset) in
  let offset := snd (pagination q_limit q_offset) in
  trace_of (handleGetAllVotes q_limit q_offset t)
    = [EvDb (SelectPage limit offset)]
  /\ limit <= 100
  /\ match parseInt q_limit with
     | None => limit = 10
     | Some n =>
         if n =? 0 then limit = 10
         else limit = Z.min n 100 /\ (1 <= n -> 1 <= limit)
     end
  /\ match parseInt q_offset with
     | None => offset = 0
     | Some n => offset = n
     end
  /\ pagination QUndefined QUndefined = (10, 0)
  /\ pagination (QStr (str "500")) (QStr (str "-5")) = (100, -5).
Proof.
  cbv zeta. unfold pagination. cbn [fst snd].
  split; [|split; [|split; [|split; [|split]]]].
  - unfold handleGetAllVotes, try_catch, pagination, db_page, bind, emit,
      json_response, ret, trace_of.
    destruct ((_ <? 0) || (_ <? 0)); reflexivity.
  - apply Z.le_min_r.
  - destruct (parseInt q_limit) as [n|]; [|reflexivity].
    unfold or_default. destruct (n =? 0) eqn:E; [reflexivity|].
    split; [reflexivity | lia].
  - destruct (parseInt q_offset) as [n|]; [|reflexivity].
    unfold or_default. destruct (n =? 0) eqn:E; [|reflexivity].
    apply Z.eqb_eq in E. auto.
  - reflexivity.
  - reflexivity.
Qed.

(** ** Identifier format of a get request *)

(** C6, an identifier with upper-case digits: it does not match the
    pattern of the specification, and yet the store is queried and the
    answer is not INVALID_ID. *)
Lemma upper_case_id_accepted :
  lower_hex_id upper_id = false
  /\ Basic.handleGetVote upper_id []
     = (inr vote_not_found, [], [EvDb (SelectById upper_id)])
  /\ Signed.handleGetVote upper_id []
     = (inr vote_not_found, [], [EvDb (SelectById upper_id)]).
Proof. repeat split. Qed.

Lemma hex_id_isHexString id :
  negb (truthy (Some (JStr id))) || negb (isHexString id (Some 32))
  = negb (hex_id id).
Proof.
  unfold isHexString, hex_id, match_hex.
  destruct id as [|a [|b ds]]; try reflexivity.
  - cbn [truthy orb negb]. destruct a; try reflexivity.
    repeat (destruct p; try reflexivity).
  - cbn [truthy orb negb length].
    replace (Z.of_nat (S (S (length ds))) =? 2 + 2 * 32)
      with (length ds =? 64)%nat.
    + destruct a; try reflexivity.
      repeat (destruct p; try reflexivity);
        destruct b; try reflexivity;
        repeat (destruct p; try reflexivity);
        rewrite andb_comm; reflexivity.
    + destruct (Nat.eqb_spec (length ds) 64) as [E|E]; symmetry;
        [apply Z.eqb_eq | apply Z.eqb_neq]; lia.
Qed.

(** C6, as the code has it: a get request is answered INVALID_ID, with no
    store access, exactly when the identifier does not match
    [^0x[0-9A-Fa-f]{64}$] (hex digits of either case); an identifier that
    matches reaches the store with one SELECT and is never answered
    INVALID_ID.  Either variant. *)
Theorem get_vote_id_gate (var : variant) (id : jsstring) (t : table) :
  if hex_id id then
    exists res, get_route var id t = (inr res, t, [EvDb (SelectById id)])
                /\ code_of res <> code "INVALID_ID"
  else get_route var id t = (inr invalid_id, t, []).
Proof.
  pose proof (hex_id_isHexString id) as H.
  destruct var; cbn [get_route];
    unfold Basic.handleGetVote, Signed.handleGetVote, try_catch;
    (destruct (hex_id id); cbn [negb] in H; rewrite H; [|reflexivity]);
    unfold db_select, bind, emit, orThrow, json_response, ret, throw;
    (destruct (select_by_id id t) as [|vote rest];
     [eexists; split; [reflexivity | discriminate]|]);
    destruct (JSON_parse (row_data vote));
    (eexists; split; [reflexivity | discriminate]).
Qed.

(** ** Validation of the [data] field *)

Lemma falsy_data_truthy data : falsy_data data -> truthy data = false.
Proof.
  intros [->|[->|[(x & Hx & ->)|[->| ->]]]]; try reflexivity.
  cbn [truthy]. rewrite Hx. reflexivity.
Qed.

Lemma truthy_scalar_typeof data :
  truthy_scalar data ->
  truthy data = true /\ jstype_eqb (typeof data) TObject = false.
Proof.
  intros [(s & Hs & ->)|[(x & Hx & ->)| ->]]; cbn [truthy typeof jstype_eqb].
  - destruct s; [congruence | auto].
  - rewrite Hx. auto.
  - auto.
Qed.

(** C10: a create request whose [data] is absent or falsy is answered
    MISSING_DATA, one whose [data] is a truthy scalar is answered
    INVALID_DATA_TYPE; in both cases the table is unchanged and neither a
    signature nor a database statement is issued.  Either variant. *)
Theorem create_rejects_bad_data (E : Ethers) (wallet : Wallet) (var : variant)
  (now : Z) (req_body : json) (t : table) :
  (falsy_data (get_prop req_body "data") ->
   create_route E wallet var now req_body t = (inr missing_data, t, []))
  /\ (truthy_scalar (get_prop req_body "data") ->
      create_route E wallet var now req_body t = (inr invalid_data_type, t, [])).
Proof.
  destruct var; cbn [create_route];
    unfold Basic.post_votes, Signed.post_votes,
      Basic.validateVoteData, Signed.validateVoteData;
    (split; intros H;
     [rewrite (falsy_data_truthy _ H); reflexivity
     |destruct (truthy_scalar_typeof _ H) as [H1 H2];
      rewrite H1, H2; reflexivity]).
Qed.

(** ** The diagnostic route *)

(** C9: the verify-signature route, middleware included, leaves the
    table as it found it and issues no database statement and no
    signature, whatever the request and whatever the answer. *)
Theorem verify_signature_no_persistence (E : Ethers) (req_body : json)
  (t : table) :
  (exists res, Signed.post_verify_signature E req_body t = (inr res, t, []))
  /\ (exists res, Signed.handleVerifySignature E req_body t = (inr res, t, [])).
Proof.
  assert (H : exists r, Signed.handleVerifySignature E req_body t
                        = (inr r, t, [])).
  { unfold Signed.handleVerifySignature, try_catch, bind, orThrow,
      json_response, ret, throw.
    destruct (truthy (get_prop req_body "signature")); cbn [negb];
      [|eexists; reflexivity].
    destruct (Signed.isValid _); cbn [negb]; [|eexists; reflexivity].
    destruct (data_id (get_prop req_body "data")); eexists; reflexivity. }
  split; [|exact H]. destruct H as [r Hr].
  unfold Signed.post_verify_signature.
  destruct (Signed.validateVoteData E req_body) as [res|].
  - exists res. reflexivity.
  - exists r. exact Hr.
Qed.

(** ** Verification of a caller signature *)

Lemma validateSignature_recovered (E : Ethers) data signature expected
  recovered :
  verifyMessage E (id_bytes data) signature = Some recovered ->
  Signed.validateSignature E (Some data) signature expected =
  if truthy expected then
    match expected with
    | Some (JStr s) =>
        if negb (jsstring_eqb (toLowerCase recovered) (toLowerCase s))
        then {| Signed.isValid := false;
                Signed.error := Some Signed.SignerMismatch;
                Signed.recoveredSigner := Some recovered |}
        else {| Signed.isValid := true; Signed.error := None;
                Signed.recoveredSigner := Some recovered |}
    | _ => Signed.failed
    end
  else {| Signed.isValid := true; Signed.error := None;
          Signed.recoveredSigner := Some recovered |}.
Proof.
  intros H. unfold Signed.validateSignature, id_bytes in *.
  cbn [JSON_stringify option_map].
  destruct (encodable_stringify data) as [utf8 Hu]. rewrite Hu in *.
  rewrite getBytes_keccak256, H. reflexivity.
Qed.

(** C7: when the signature is well formed, so that an address is
    recovered, verification fails with the signer mismatch exactly when
    an expected signer is supplied (a non-empty string) that differs
    from the recovered address even ignoring case; when none is supplied,
    or the supplied one equals the recovered address ignoring case, it
    succeeds and returns the recovered address. *)
Theorem verification_signer_mismatch (E : Ethers) (data : json)
  (signature expected : option json) (recovered : jsstring) :
  verifyMessage E (id_bytes data) signature = Some recovered ->
  let v := Signed.validateSignature E (Some data) signature expected in
  (Signed.error v = Some Signed.SignerMismatch <->
   exists s, expected = Some (JStr s) /\ s <> []
             /\ ~ same_ignoring_case s recovered)
  /\ (Signed.error v = Some Signed.SignerMismatch ->
      Signed.isValid v = false /\ Signed.recoveredSigner v = Some recovered)
  /\ (truthy expected = false
      \/ (exists s, expected = Some (JStr s) /\ same_ignoring_case s recovered) ->
      v = {| Signed.isValid := true; Signed.error := None;
             Signed.recoveredSigner := Some recovered |}).
Proof.
  intros H v. subst v. rewrite (validateSignature_recovered E _ _ _ _ H).
  unfold same_ignoring_case.
  destruct expected as [[| b | n | s | xs | kvs]|]; cbn [truthy];
    try (destruct b); try (destruct (is_zero n); cbn [negb]);
    try (solve [split; [split; [discriminate | intros (s0 & Hs0 & _); discriminate]
                       |split; [discriminate
                               |intros [Hf|(s0 & Hs0 & _)];
                                reflexivity || discriminate]]]).
  destruct (jsstring_eqb (toLowerCase recovered) (toLowerCase s)) eqn:Eq.
  - apply jsstring_eqb_eq in Eq.
    assert (Hsame : (if match s with [] => false | _ :: _ => true end
                     then {| Signed.isValid := true; Signed.error := None;
                             Signed.recoveredSigner := Some recovered |}
                     else {| Signed.isValid := true; Signed.error := None;
                             Signed.recoveredSigner := Some recovered |})
                    = {| Signed.isValid := true; Signed.error := None;
                         Signed.recoveredSigner := Some recovered |}).
    { destruct s; reflexivity. }
    cbn [negb]. rewrite Hsame. cbn [Signed.error].
    split; [split; [discriminate|] | split; [discriminate | reflexivity]].
    intros (s0 & Hs0 & _ & Hdiff). inversion Hs0. subst s0.
    exfalso. apply Hdiff. symmetry. exact Eq.
  - assert (Hneq : toLowerCase s <> toLowerCase recovered).
    { intros Heq. rewrite Heq, jsstring_eqb_refl in Eq. discriminate. }
    cbn [negb]. destruct s as [|c s'].
    + cbn [Signed.error].
      split; [split; [discriminate|] | split; [discriminate | reflexivity]].
      intros (s0 & Hs0 & Hne & _). inversion Hs0. congruence.
    + cbn [Signed.error Signed.isValid Signed.recoveredSigner].
      split; [split|split].
      * intros _. exists (c :: s'). repeat split; [discriminate | exact Hneq].
      * reflexivity.
      * intros _. split; reflexivity.
      * intros [?|(s0 & Hs0 & Heq)]; [discriminate|].
        inversion Hs0. subst s0. contradiction.
Qed.

(** ** The identifier of a payload *)

(** C1, two payloads that differ in key order only: both are values a
    request can carry, they are equal as value trees, and their
    identifiers differ. *)
Lemma key_order_changes_identifier :
  well_formed ab_payload = true /\ well_formed ba_payload = true
  /\ json_equiv ab_payload ba_payload = true
  /\ data_id (Some ab_payload) <> data_id (Some ba_payload).
Proof. repeat split. vm_compute. discriminate. Qed.

(** C1, as the code has it: the identifier of every value exists, is the
    same at every evaluation, and renders a 32-byte digest as 66
    characters; it is a function of the serialized text, so that two
    values with the same text have the same identifier.  The text keeps
    the key order of the value. *)
Theorem identifier_deterministic (v : json) :
  exists digest,
    length digest = 32%nat /\ Forall is_byte digest
    /\ data_id (Some v) = Some (hexlify digest)
    /\ length (hexlify digest) = 66%nat
    /\ isHexString (hexlify digest) (Some 32) = true
    /\ forall v', stringify v' = stringify v ->
                  data_id (Some v') = Some (hexlify digest).
Proof.
  destruct (data_id_defined v) as (utf8 & Hu & Hid).
  exists (Keccak.keccak_256 utf8).
  split; [apply keccak_256_length|].
  split; [apply keccak_256_bytes|].
  split; [exact Hid|].
  split; [apply keccak256_length|].
  split; [apply isHexString_keccak256|].
  intros v' Heq. unfold data_id in *. cbn [JSON_stringify option_map] in *.
  rewrite Heq. exact Hid.
Qed.

(** ** The size limit *)

Lemma toUtf8Bytes_length_aux n : forall s b, (length s <= n)%nat ->
  toUtf8Bytes s = Some b -> (length s <= length b)%nat.
Proof.
  induction n as [|n IH]; intros s b Hlen Hs.
  - destruct s; [simpl; lia | simpl in Hlen; lia].
  - destruct s as [|c rest]; [simpl; lia|].
    simpl in Hlen. cbn [toUtf8Bytes] in Hs.
    destruct (c <? 128).
    { apply option_map_some in Hs. destruct Hs as (t & Ht & ->).
      pose proof (IH rest t ltac:(lia) Ht). simpl. lia. }
    destruct (c <? 2048).
    { apply option_map_some in Hs. destruct Hs as (t & Ht & ->).
      pose proof (IH rest t ltac:(lia) Ht). simpl. lia. }
    destruct (is_high_surrogate c).
    { destruct rest as [|c2 rest']; [discriminate|].
      destruct (is_low_surrogate c2); [|discriminate].
      apply option_map_some in Hs. destruct Hs as (t & Ht & ->).
      simpl in Hlen. pose proof (IH rest' t ltac:(lia) Ht). simpl. lia. }
    apply option_map_some in Hs. destruct Hs as (t & Ht & ->).
    pose proof (IH rest t ltac:(lia) Ht). simpl. lia.
Qed.

(** The UTF-8 encoding has at least as many bytes as the text has code
    units. *)
Lemma toUtf8Bytes_length s b :
  toUtf8Bytes s = Some b -> (length s <= length b)%nat.
Proof. apply (toUtf8Bytes_length_aux (length s)), le_n. Qed.

(** C8, as the code has it, in the variant whose middleware checks the
    size: a payload whose serialized text is longer than 1,000,000 code
    units is answered DATA_TOO_LARGE with the table unchanged, no
    signature and no database statement; a payload whose encoding has at
    most 1,000,000 bytes passes the middleware. *)
Theorem size_limit_basic (wallet : Wallet) (now : Z) (req_body v : json)
  (t : table) :
  get_prop req_body "data" = Some v -> structured v = true ->
  (1000000 < Z.of_nat (length (stringify v)) ->
   Basic.post_votes wallet now req_body t = (inr data_too_large, t, []))
  /\ (forall utf8, toUtf8Bytes (stringify v) = Some utf8 ->
                   Z.of_nat (length utf8) <= 1000000 ->
                   Basic.validateVoteData req_body = None).
Proof.
  intros Hdata Hv.
  assert (Ht : truthy (Some v) = true /\ jstype_eqb (typeof (Some v)) TObject = true).
  { destruct v; try discriminate; split; reflexivity. }
  destruct Ht as [Ht Hty].
  unfold Basic.post_votes, Basic.validateVoteData.
  rewrite Hdata, Ht, Hty. cbn [negb JSON_stringify option_map]. split.
  - intros Hbig. apply Z.ltb_lt in Hbig. rewrite Hbig. reflexivity.
  - intros utf8 Hu Hsmall. pose proof (toUtf8Bytes_length _ _ Hu).
    replace (1000000 <? Z.of_nat (length (stringify v))) with false;
      [reflexivity|].
    symmetry. apply Z.ltb_ge. lia.
Qed.

(** ** Running a create request *)

Lemma signMessage_run wallet m t :
  length m = 32%nat ->
  signMessage wallet m t
  = (inr (operator_signature wallet m), t, [EvSign (hashMessage m)]).
Proof.
  intros Hm. unfold signMessage, bind, emit, orThrow, hashMessage.
  rewrite getBytes_keccak256. unfold ret, operator_signature.
  rewrite Hm. reflexivity.
Qed.

Lemma db_insert_run now id data signature signer t :
  db_insert now id data signature signer t
  = match select_by_id id t with
    | [] => (inr tt, t ++ [new_row now id data signature signer],
             [EvDb (Insert id data signature signer)])
    | _ :: _ => (inl ER_DUP_ENTRY, t,
                 [EvDb (Insert id data signature signer)])
    end.
Proof.
  unfold db_insert, bind, emit. destruct (select_by_id id t); reflexivity.
Qed.

(** The handler on a payload: sign, insert, and answer 201, or 409
    when the identifier is already stored. *)
Lemma basic_handleCreateVote_run wallet now req_body v utf8 t :
  get_prop req_body "data" = Some v ->
  toUtf8Bytes (stringify v) = Some utf8 ->
  let id := keccak256 utf8 in
  let signature := operator_signature wallet (Keccak.keccak_256 utf8) in
  let trace := [EvSign (hashMessage (Keccak.keccak_256 utf8));
                EvDb (Insert id (stringify v) signature None)] in
  Basic.handleCreateVote wallet now req_body t
  = match select_by_id id t with
    | [] => (inr (basic_created wallet id signature),
             t ++ [new_row now id (stringify v) signature None], trace)
    | _ :: _ => (inr duplicate_vote, t, trace)
    end.
Proof.
  intros Hdata Hu. cbv zeta.
  unfold Basic.handleCreateVote, try_catch.
  rewrite Hdata. cbn [JSON_stringify option_map].
  unfold bind at 1. cbn [orThrow ret].
  unfold bind at 1. rewrite Hu. cbn [orThrow ret].
  unfold bind at 1. rewrite getBytes_keccak256. cbn [orThrow ret].
  unfold bind at 1.
  rewrite (signMessage_run wallet _ t (keccak_256_length utf8)).
  unfold bind at 1. rewrite db_insert_run.
  destruct (select_by_id (keccak256 utf8) t); reflexivity.
Qed.

Lemma basic_validateVoteData_status req_body res :
  Basic.validateVoteData req_body = Some res -> status res = 400.
Proof.
  unfold Basic.validateVoteData.
  destruct (negb (truthy _)); [intros H; inversion H; reflexivity|].
  destruct (negb (jstype_eqb _ _)); [intros H; inversion H; reflexivity|].
  destruct (JSON_stringify _); [|discriminate].
  destruct (1000000 <? _); [intros H; inversion H; reflexivity|discriminate].
Qed.

Lemma basic_validateVoteData_passed req_body :
  Basic.validateVoteData req_body = None ->
  exists v, get_prop req_body "data" = Some v /\ structured v = true
            /\ Z.of_nat (length (stringify v)) <= 1000000.
Proof.
  unfold Basic.validateVoteData.
  destruct (get_prop req_body "data") as [v|]; [|discriminate].
  destruct v; cbn [truthy typeof jstype_eqb negb]; try discriminate;
    try (destruct b; discriminate);
    try (destruct (is_zero x); discriminate);
    try (destruct s; discriminate).
  - cbn [JSON_stringify option_map].
    destruct (1000000 <? _) eqn:E; [discriminate|].
    apply Z.ltb_ge in E. eauto.
  - cbn [JSON_stringify option_map].
    destruct (1000000 <? _) eqn:E; [discriminate|].
    apply Z.ltb_ge in E. eauto.
Qed.

Lemma basic_post_votes_outcome wallet now req_body t :
  basic_outcome wallet now req_body t (Basic.post_votes wallet now req_body t).
Proof.
  unfold Basic.post_votes.
  destruct (Basic.validateVoteData req_body) as [res|] eqn:Hval.
  - apply basic_Rejected; [eapply basic_validateVoteData_status; eassumption | assumption].
  - destruct (basic_validateVoteData_passed _ Hval) as (v & Hdata & Hv & _).
    destruct (encodable_stringify v) as [utf8 Hu].
    rewrite (basic_handleCreateVote_run wallet now req_body v utf8 t Hdata Hu).
    destruct (select_by_id (keccak256 utf8) t) eqn:Hsel.
    + apply (basic_Stored wallet now req_body t v utf8); assumption.
    + apply (basic_Duplicate wallet now req_body t v utf8); try assumption.
      rewrite Hsel. discriminate.
Qed.

Lemma signed_handleCreateVote_run E wallet now req_body v utf8 t :
  get_prop req_body "data" = Some v ->
  toUtf8Bytes (stringify v) = Some utf8 ->
  let id := keccak256 utf8 in
  let signature := operator_signature wallet (Keccak.keccak_256 utf8) in
  let vr := Signed.validateSignature E (Some v)
              (get_prop req_body "signature") (get_prop req_body "signer") in
  let trace := [EvSign (hashMessage (Keccak.keccak_256 utf8));
                EvDb (Insert id (stringify v) signature
                        (Signed.recoveredSigner vr))] in
  Signed.handleCreateVote E wallet now req_body t
  = if truthy (get_prop req_body "signature") then
      if Signed.isValid vr then
        match select_by_id id t with
        | [] => (inr (signed_created wallet id signature (Signed.recoveredSigner vr)),
                 t ++ [new_row now id (stringify v) signature
                         (Signed.recoveredSigner vr)], trace)
        | _ :: _ => (inr duplicate_vote, t, trace)
        end
      else (inr (signed_invalid_signature vr), t, [])
    else (inr signed_signature_required, t, []).
Proof.
  intros Hdata Hu. cbv zeta.
  unfold Signed.handleCreateVote, try_catch.
  rewrite Hdata. cbn [JSON_stringify option_map].
  unfold bind at 1. cbn [orThrow ret].
  unfold bind at 1. rewrite Hu. cbn [orThrow ret].
  destruct (truthy (get_prop req_body "signature")); [|reflexivity].
  destruct (Signed.isValid _); cbn [negb]; [|reflexivity].
  unfold bind at 1. rewrite getBytes_keccak256. cbn [orThrow ret].
  unfold bind at 1.
  rewrite (signMessage_run wallet _ t (keccak_256_length utf8)).
  unfold bind at 1. rewrite db_insert_run.
  destruct (select_by_id (keccak256 utf8) t); reflexivity.
Qed.

Lemma signed_validateVoteData_status E req_body res :
  Signed.validateVoteData E req_body = Some res -> status res = 400.
Proof.
  unfold Signed.validateVoteData.
  repeat match goal with
         | |- (if ?c then _ else _) = _ -> _ =>
             destruct c; [intros H; inversion H; reflexivity|]
         end.
  discriminate.
Qed.

Lemma signed_validateVoteData_passed E req_body :
  Signed.validateVoteData E req_body = None ->
  exists v, get_prop req_body "data" = Some v /\ structured v = true.
Proof.
  unfold Signed.validateVoteData.
  destruct (get_prop req_body "data") as [v|]; [|discriminate].
  destruct v; cbn [truthy typeof jstype_eqb negb]; try discriminate;
    try (destruct b; discriminate);
    try (destruct (is_zero x); discriminate);
    try (destruct s; discriminate); eauto.
Qed.

Lemma signed_post_votes_outcome E wallet now req_body t :
  signed_outcome E wallet now req_body t (Signed.post_votes E wallet now req_body t).
Proof.
  unfold Signed.post_votes.
  destruct (Signed.validateVoteData E req_body) as [res|] eqn:Hval.
  - apply signed_Rejected. eapply signed_validateVoteData_status; eassumption.
  - destruct (signed_validateVoteData_passed _ _ Hval) as (v & Hdata & Hv).
    destruct (encodable_stringify v) as [utf8 Hu].
    rewrite (signed_handleCreateVote_run E wallet now req_body v utf8 t Hdata Hu).
    destruct (truthy (get_prop req_body "signature"));
      [|apply signed_Rejected; reflexivity].
    destruct (Signed.isValid _) eqn:Hvalid;
      [|apply signed_Rejected; reflexivity].
    destruct (select_by_id (keccak256 utf8) t) eqn:Hsel.
    + apply (signed_Stored E wallet now req_body t v utf8); assumption.
    + apply (signed_Duplicate E wallet now req_body t v utf8); try assumption.
      rewrite Hsel. discriminate.
Qed.

(** ** Stored signatures *)

Lemma firstn_skipn_exact {A} (l : list A) : forall n x,
  length l = n -> firstn n (l ++ x) = l /\ skipn n (l ++ x) = x.
Proof.
  induction l as [|a l IH]; intros n x Hn; subst n; [split; reflexivity|].
  cbn [length app firstn skipn].
  destruct (IH (length l) x eq_refl) as [H1 H2]. rewrite H1, H2.
  split; reflexivity.
Qed.

Lemma land_128_small b : 0 <= b < 128 -> Z.land b 128 = 0.
Proof.
  intros Hb. rewrite <- (Z.mod_small b (2 ^ 7)) by (change (2 ^ 7) with 128; lia).
  rewrite <- Z.land_ones by lia. rewrite <- Z.land_assoc.
  change (Z.land (Z.ones 7) 128) with 0. apply Z.land_0_r.
Qed.

Lemma Signature_from_serialized r s (yParity : bool) :
  length r = 32%nat -> length s = 32%nat ->
  Forall is_byte r -> Forall is_byte s -> hd 0 s < 128 ->
  Signature_from (serialized (r, s, yParity)) = Some (r, s, yParity)
  /\ length (serialized (r, s, yParity)) = 132%nat.
Proof.
  intros Hr Hs Br Bs Hlow. unfold serialized.
  set (v := if yParity then 28 else 27).
  assert (Bv : Forall is_byte [v]).
  { constructor; [|constructor]. unfold is_byte, v. destruct yParity; lia. }
  assert (Ball : Forall is_byte (r ++ s ++ [v])).
  { repeat (apply Forall_app; split); assumption. }
  assert (Hlen : length (r ++ s ++ [v]) = 65%nat).
  { rewrite !length_app, Hr, Hs. reflexivity. }
  split; [|rewrite length_hexlify, Hlen; reflexivity].
  unfold Signature_from. rewrite (getBytes_hexlify _ Ball), Hlen.
  change (65 =? 64)%nat with false. change (65 =? 65)%nat with true.
  cbv iota.
  destruct (firstn_skipn_exact r 32 (s ++ [v]) Hr) as [F1 S1].
  rewrite F1, S1.
  destruct (firstn_skipn_exact s 32 [v] Hs) as [F2 S2]. rewrite F2.
  replace (skipn 64 (r ++ s ++ [v])) with [v].
  2:{ change 64%nat with (32 + 32)%nat. rewrite <- skipn_skipn, S1, S2.
      reflexivity. }
  destruct s as [|s0 s']; [discriminate|].
  cbn [hd] in Hlow. inversion Bs as [|? ? Bs0 _]. subst.
  rewrite (land_128_small s0) by (unfold is_byte in Bs0; lia).
  change (0 =? 0) with true. cbv iota.
  unfold v. destruct yParity; reflexivity.
Qed.

(** The row a create request stores is signed by the operator. *)
Lemma new_row_signed E wallet now utf8 data signer :
  sound_wallet E wallet ->
  operator_signed E wallet
    (new_row now (keccak256 utf8) data
       (operator_signature wallet (Keccak.keccak_256 utf8)) signer).
Proof.
  intros Hsound. exists (Keccak.keccak_256 utf8). cbn [row_id row_signature new_row].
  pose proof (keccak_256_length utf8) as Hlen.
  set (idb := Keccak.keccak_256 utf8) in *.
  change (25 :: str "Ethereum Signed Message:" ++ 10 :: str "32" ++ idb)
    with (MessagePrefix ++ str "32" ++ idb).
  set (d := Keccak.keccak_256 (MessagePrefix ++ str "32" ++ idb)).
  pose proof (Hsound d (keccak_256_length _) (keccak_256_bytes _)) as Hd.
  unfold operator_signature. fold d.
  destruct (sign wallet d) as [[r s] yParity].
  destruct Hd as (Hr & Hs & Br & Bs & Hlow & Hrec).
  destruct (Signature_from_serialized r s yParity Hr Hs Br Bs Hlow)
    as [Hfrom Hlen132].
  split; [assumption|].
  split; [apply getBytes_keccak256|].
  split; [reflexivity|].
  split; [assumption|].
  unfold verifyMessage.
  match goal with
  | |- context [Signature_from ?x] =>
      replace (Signature_from x) with (Some (r, s, yParity))
        by (symmetry; exact Hfrom)
  end.
  unfold hashMessage. rewrite getBytes_keccak256, Hlen.
  exact Hrec.
Qed.

Lemma handleGetVote_basic_table id t : table_of (Basic.handleGetVote id t) = t.
Proof.
  unfold Basic.handleGetVote, try_catch, db_select, bind, emit, orThrow,
    json_response, ret, throw, table_of.
  destruct (_ || _); [reflexivity|].
  destruct (select_by_id id t) as [|vote rest]; [reflexivity|].
  destruct (JSON_parse (row_data vote)); reflexivity.
Qed.

Lemma handleGetVote_signed_table id t : table_of (Signed.handleGetVote id t) = t.
Proof.
  unfold Signed.handleGetVote, try_catch, db_select, bind, emit, orThrow,
    json_response, ret, throw, table_of.
  destruct (_ || _); [reflexivity|].
  destruct (select_by_id id t) as [|vote rest]; [reflexivity|].
  destruct (JSON_parse (row_data vote)); reflexivity.
Qed.

Lemma handleGetAllVotes_table l o t : table_of (handleGetAllVotes l o t) = t.
Proof.
  unfold handleGetAllVotes, try_catch, db_page, pagination, bind, emit,
    json_response, ret, table_of.
  destruct (_ || _); reflexivity.
Qed.

Lemma post_verify_signature_table E req_body t :
  table_of (Signed.post_verify_signature E req_body t) = t.
Proof.
  unfold Signed.post_verify_signature, Signed.handleVerifySignature,
    try_catch, bind, orThrow, json_response, ret, throw, table_of.
  destruct (Signed.validateVoteData E req_body); [reflexivity|].
  destruct (truthy _); [|reflexivity].
  destruct (Signed.isValid _); [|reflexivity].
  destruct (data_id _); reflexivity.
Qed.

(** C2: in every table a server can hold, each row carries an operator
    signature of 65 bytes, rendered as 132 characters, made over the
    digest of the prefix "\x19Ethereum Signed Message:\n32" followed by
    the 32 bytes of the row's identifier, and recovering the signer
    from the identifier bytes and that signature yields the address of
    the operator.  Either variant; the signing key is taken to meet its
    contract. *)
Theorem stored_signatures_valid (E : Ethers) (wallet : Wallet) (var : variant)
  (t : table) :
  sound_wallet E wallet -> reachable (serve E wallet var) t ->
  Forall (operator_signed E wallet) t.
Proof.
  intros Hsound Hreach.
  induction Hreach as [|t rq Hreach IH]; [constructor|].
  destruct rq as [now req_body | id | l o | req_body], var;
    cbn [serve create_route get_route verify_route].
  - pose proof (basic_post_votes_outcome wallet now req_body t) as O.
    destruct O; cbn [table_of fst snd]; try assumption.
    apply Forall_app. split; [assumption|].
    constructor; [|constructor]. apply new_row_signed, Hsound.
  - pose proof (signed_post_votes_outcome E wallet now req_body t) as O.
    destruct O; cbn [table_of fst snd]; try assumption.
    apply Forall_app. split; [assumption|].
    constructor; [|constructor]. apply new_row_signed, Hsound.
  - rewrite handleGetVote_basic_table. assumption.
  - rewrite handleGetVote_signed_table. assumption.
  - rewrite handleGetAllVotes_table. assumption.
  - rewrite handleGetAllVotes_table. assumption.
  - assumption.
  - rewrite post_verify_signature_table. assumption.
Qed.

(** ** Submitting a payload twice *)

Lemma select_new_row id t now data signature signer :
  select_by_id id t = [] ->
  select_by_id id (t ++ [new_row now id data signature signer])
  = [new_row now id data signature signer].
Proof.
  intros Hsel. unfold select_by_id in *.
  rewrite filter_app, Hsel. cbn [filter app new_row row_id].
  rewrite jsstring_eqb_refl. reflexivity.
Qed.

Lemma basic_created_twice wallet now now' req_body t t1 res tr :
  status res = 201 ->
  Basic.post_votes wallet now req_body t = (inr res, t1, tr) ->
  conflict tr res t1 (Basic.post_votes wallet now' req_body t1).
Proof.
  intros Hstatus Hfirst. unfold Basic.post_votes in *.
  destruct (Basic.validateVoteData req_body) as [res'|] eqn:Hval.
  { injection Hfirst as Hres Ht1 Htr. subst res'.
    rewrite (basic_validateVoteData_status _ _ Hval) in Hstatus.
    discriminate. }
  destruct (basic_validateVoteData_passed _ Hval) as (v & Hdata & _).
  destruct (encodable_stringify v) as [utf8 Hu].
  rewrite (basic_handleCreateVote_run wallet now req_body v utf8 t Hdata Hu)
    in Hfirst.
  rewrite (basic_handleCreateVote_run wallet now' req_body v utf8 t1 Hdata Hu).
  destruct (select_by_id (keccak256 utf8) t) eqn:Hsel;
    injection Hfirst as Hres Ht1 Htr; subst res t1 tr;
    [|discriminate Hstatus].
  rewrite (select_new_row _ _ _ _ _ _ Hsel).
  unfold conflict. repeat (split; [reflexivity|]).
  exists (keccak256 utf8).
  rewrite (select_new_row _ _ _ _ _ _ Hsel). repeat split.
Qed.

Lemma signed_created_twice E wallet now now' req_body t t1 res tr :
  status res = 201 ->
  Signed.post_votes E wallet now req_body t = (inr res, t1, tr) ->
  conflict tr res t1 (Signed.post_votes E wallet now' req_body t1).
Proof.
  intros Hstatus Hfirst. unfold Signed.post_votes in *.
  destruct (Signed.validateVoteData E req_body) as [res'|] eqn:Hval.
  { injection Hfirst as Hres Ht1 Htr. subst res'.
    rewrite (signed_validateVoteData_status _ _ _ Hval) in Hstatus.
    discriminate. }
  destruct (signed_validateVoteData_passed _ _ Hval) as (v & Hdata & _).
  destruct (encodable_stringify v) as [utf8 Hu].
  rewrite (signed_handleCreateVote_run E wallet now req_body v utf8 t
             Hdata Hu) in Hfirst.
  rewrite (signed_handleCreateVote_run E wallet now' req_body v utf8 t1
             Hdata Hu).
  destruct (truthy (get_prop req_body "signature"));
    [|injection Hfirst as Hres Ht1 Htr; subst res; discriminate Hstatus].
  destruct (Signed.isValid _);
    [|injection Hfirst as Hres Ht1 Htr; subst res; discriminate Hstatus].
  destruct (select_by_id (keccak256 utf8) t) eqn:Hsel;
    injection Hfirst as Hres Ht1 Htr; subst res t1 tr;
    [|discriminate Hstatus].
  rewrite (select_new_row _ _ _ _ _ _ Hsel).
  unfold conflict. repeat (split; [reflexivity|]).
  exists (keccak256 utf8).
  rewrite (select_new_row _ _ _ _ _ _ Hsel). repeat split.
Qed.

Lemma basic_no_second_row wallet now now' req_body req_body' t t1 res tr :
  status res = 201 ->
  Basic.post_votes wallet now req_body t = (inr res, t1, tr) ->
  get_prop req_body' "data" = get_prop req_body "data" ->
  table_of (Basic.post_votes wallet now' req_body' t1) = t1.
Proof.
  intros Hstatus Hfirst Hsame. unfold Basic.post_votes in Hfirst.
  destruct (Basic.validateVoteData req_body) as [res'|] eqn:Hval.
  { injection Hfirst as Hres Ht1 Htr. subst res'.
    rewrite (basic_validateVoteData_status _ _ Hval) in Hstatus.
    discriminate. }
  destruct (basic_validateVoteData_passed _ Hval) as (v & Hdata & _).
  destruct (encodable_stringify v) as [utf8 Hu].
  rewrite (basic_handleCreateVote_run wallet now req_body v utf8 t Hdata Hu)
    in Hfirst.
  destruct (select_by_id (keccak256 utf8) t) eqn:Hsel;
    injection Hfirst as Hres Ht1 Htr; subst res t1 tr;
    [|discriminate Hstatus].
  pose proof (basic_post_votes_outcome wallet now' req_body'
                (t ++ [new_row now (keccak256 utf8) (stringify v)
                         (operator_signature wallet (Keccak.keccak_256 utf8))
                         None])) as O.
  destruct O as [r Hr ? | v' utf8' Hdata' ? Hu' Hsel' | v' utf8' ? ? ? ?];
    try reflexivity.
  exfalso. rewrite Hsame, Hdata in Hdata'. injection Hdata' as <-.
  rewrite Hu in Hu'. injection Hu' as <-.
  rewrite (select_new_row _ _ _ _ _ _ Hsel) in Hsel'. discriminate.
Qed.

Lemma signed_no_second_row E wallet now now' req_body req_body' t t1 res tr :
  status res = 201 ->
  Signed.post_votes E wallet now req_body t = (inr res, t1, tr) ->
  get_prop req_body' "data" = get_prop req_body "data" ->
  table_of (Signed.post_votes E wallet now' req_body' t1) = t1.
Proof.
  intros Hstatus Hfirst Hsame. unfold Signed.post_votes in Hfirst.
  destruct (Signed.validateVoteData E req_body) as [res'|] eqn:Hval.
  { injection Hfirst as Hres Ht1 Htr. subst res'.
    rewrite (signed_validateVoteData_status _ _ _ Hval) in Hstatus.
    discriminate. }
  destruct (signed_validateVoteData_passed _ _ Hval) as (v & Hdata & _).
  destruct (encodable_stringify v) as [utf8 Hu].
  rewrite (signed_handleCreateVote_run E wallet now req_body v utf8 t
             Hdata Hu) in Hfirst.
  destruct (truthy (get_prop req_body "signature"));
    [|injection Hfirst as Hres Ht1 Htr; subst res; discriminate Hstatus].
  destruct (Signed.isValid _);
    [|injection Hfirst as Hres Ht1 Htr; subst res; discriminate Hstatus].
  destruct (select_by_id (keccak256 utf8) t) eqn:Hsel;
    injection Hfirst as Hres Ht1 Htr; subst res t1 tr;
    [|discriminate Hstatus].
  match goal with
  | |- table_of (_ ?t1) = _ =>
      pose proof (signed_post_votes_outcome E wallet now' req_body' t1) as O
  end.
  destruct O as [r Hr | v' utf8' Hdata' ? Hu' vr' ? Hsel' | v' utf8' ? ? ? ? ? ?];
    try reflexivity.
  exfalso. rewrite Hsame, Hdata in Hdata'. injection Hdata' as <-.
  rewrite Hu in Hu'. injection Hu' as <-.
  rewrite (select_new_row _ _ _ _ _ _ Hsel) in Hsel'. discriminate.
Qed.

(** C3: when a create request is answered 201, submitting the same
    request again is answered 409 DUPLICATE_VOTE (not an internal
    error); the second attempt derives the same identifier, and the
    table after it is the table after the first, with one row for that
    identifier.  Moreover no later create request with the same payload,
    whatever else it carries, changes the table.  Either variant. *)
Theorem duplicate_create_conflict (E : Ethers) (wallet : Wallet)
  (var : variant) (now now' : Z) (req_body : json) (t t1 : table)
  (res : response) (tr : list event) :
  create_route E wallet var now req_body t = (inr res, t1, tr) ->
  status res = 201 ->
  conflict tr res t1 (create_route E wallet var now' req_body t1)
  /\ forall req_body',
       get_prop req_body' "data" = get_prop req_body "data" ->
       table_of (create_route E wallet var now' req_body' t1) = t1.
Proof.
  intros Hfirst Hstatus. destruct var; cbn [create_route] in *.
  - split; [eapply basic_created_twice; eassumption|].
    intros req_body' Hsame. eapply basic_no_second_row; eassumption.
  - split; [eapply signed_created_twice; eassumption|].
    intros req_body' Hsame. eapply signed_no_second_row; eassumption.
Qed.

(** ** Reading back a created vote *)

Lemma keccak256_truthy utf8 : truthy (Some (JStr (keccak256 utf8))) = true.
Proof. reflexivity. Qed.

Lemma get_after_store (get : jsstring -> M response) now utf8 v signature
  signer t res' :
  parsable v = true ->
  select_by_id (keccak256 utf8) t = [] ->
  (forall id t0 vote rest data,
      hex_id id = true -> select_by_id id t0 = vote :: rest ->
      JSON_parse (row_data vote) = Some data ->
      exists r, get id t0 = (inr r, t0, [EvDb (SelectById id)])
                /\ status r = 200 /\ response_data r = Some data) ->
  response_id res' = Some (JStr (keccak256 utf8)) ->
  read_back get res'
    (t ++ [new_row now (keccak256 utf8) (stringify v) signature signer])
    (reparsed v).
Proof.
  intros Hwf Hsel Hget Hid.
  assert (Hhex : hex_id (keccak256 utf8) = true).
  { pose proof (hex_id_isHexString (keccak256 utf8)) as H.
    rewrite keccak256_truthy, isHexString_keccak256 in H.
    cbn [negb orb] in H. destruct (hex_id _); [reflexivity | discriminate]. }
  destruct (Hget (keccak256 utf8) _ _ _ (reparsed v) Hhex
              (select_new_row _ _ now (stringify v) signature signer Hsel)
              (JSON_parse_reparsed v Hwf))
    as (r & Hr & Hs & Hd).
  exists (keccak256 utf8), r. auto.
Qed.

Lemma get_route_found var id t0 vote rest data :
  hex_id id = true -> select_by_id id t0 = vote :: rest ->
  JSON_parse (row_data vote) = Some data ->
  exists r, get_route var id t0 = (inr r, t0, [EvDb (SelectById id)])
            /\ status r = 200 /\ response_data r = Some data.
Proof.
  intros Hhex Hsel Hparse.
  pose proof (hex_id_isHexString id) as H. rewrite Hhex in H.
  destruct var; cbn [get_route];
    unfold Basic.handleGetVote, Signed.handleGetVote, try_catch;
    rewrite H; cbn [negb]; unfold db_select, bind, emit;
    rewrite Hsel, Hparse;
    eexists; (split; [reflexivity|]); split; reflexivity.
Qed.

(** A payload with a number beyond the range of doubles, as the parser
    reads it from the text [{"x":1e999}]. *)
Lemma overflow_parsed :
  parse_number (str "1e999") = Some (Infinite false, [])
  /\ JSON_parse overflow_text = Some overflow_payload
  /\ parsable overflow_payload = true
  /\ stringify overflow_payload = stringify (JObj [field "x" JNull]).
Proof. vm_compute. repeat split. Qed.

(** C4, a number that JSON does not write: the payload read from
    [{"x":1e999}] holds an infinity; the create request is answered 201,
    the get request for the returned identifier is answered 200, and
    its data field is [{"x":null}], which is not the payload: whatever
    the wallet in the variant without a caller signature, and for the
    request with a caller signature in the variant that verifies. *)
Lemma overflow_read_as_null :
  JSON_parse overflow_text = Some overflow_payload
  /\ (forall (E : Ethers) (wallet : Wallet),
        exists res t1 tr id res',
          create_route E wallet Unsigned 5 (create_request overflow_payload) []
          = (inr res, t1, tr)
          /\ status res = 201
          /\ response_id res = Some (JStr id)
          /\ get_route Unsigned id t1 = (inr res', t1, [EvDb (SelectById id)])
          /\ status res' = 200
          /\ response_data res' = Some (JObj [field "x" JNull]))
  /\ result_of (first_run CallerSigned (signed_request overflow_payload))
     = inr (first_response CallerSigned (signed_request overflow_payload))
  /\ status (first_response CallerSigned (signed_request overflow_payload))
     = 201
  /\ read_back (get_route CallerSigned)
       (first_response CallerSigned (signed_request overflow_payload))
       (table_of (first_run CallerSigned (signed_request overflow_payload)))
       (JObj [field "x" JNull])
  /\ JObj [field "x" JNull] <> overflow_payload.
Proof.
  split; [apply overflow_parsed|].
  split; [|split; [vm_compute; reflexivity|];
           split; [vm_compute; reflexivity|]; split; [|discriminate];
           exists (hexlify (id_bytes overflow_payload)),
             (match
                 result_of
                   (get_route CallerSigned
                      (hexlify (id_bytes overflow_payload))
                      (table_of
                         (first_run CallerSigned
                            (signed_request overflow_payload))))
               with
               | inr r => r
               | inl _ => endpoint_not_found
               end);
           vm_compute; repeat split].
  intros E wallet. cbn [create_route]. unfold Basic.post_votes.
  assert (Hdata : get_prop (create_request overflow_payload) "data"
                  = Some overflow_payload) by reflexivity.
  assert (Hval : Basic.validateVoteData (create_request overflow_payload)
                 = None) by reflexivity.
  rewrite Hval.
  destruct (encodable_stringify overflow_payload) as [utf8 Hu].
  rewrite (basic_handleCreateVote_run wallet 5
             (create_request overflow_payload) overflow_payload utf8 []
             Hdata Hu).
  cbn [select_by_id filter app].
  destruct (get_after_store (get_route Unsigned) 5 utf8 overflow_payload
              (operator_signature wallet (Keccak.keccak_256 utf8)) None []
              (basic_created wallet (keccak256 utf8)
                 (operator_signature wallet (Keccak.keccak_256 utf8))))
    as (id & res' & Hid & Hget & Hstatus & Hread);
    [reflexivity | reflexivity | | reflexivity |].
  { intros. eapply get_route_found; eassumption. }
  eexists _, _, _, id, res'.
  split; [reflexivity|]. split; [reflexivity|]. split; [exact Hid|].
  split; [exact Hget|]. split; [exact Hstatus|]. exact Hread.
Qed.

(** C4, as the code has it: when a create request with a payload [v]
    that [JSON.parse] can build is answered 201, the get request for the
    returned identifier is answered 200 and its data field is what the
    stored text keeps of [v]: [v] with every number that is not finite
    replaced by null and the negative zero by zero.  It is [v] itself
    whenever [v] holds no such number.  Either variant. *)
Theorem create_then_get (E : Ethers) (wallet : Wallet) (var : variant)
  (now : Z) (req_body v : json) (t t1 : table) (res : response)
  (tr : list event) :
  get_prop req_body "data" = Some v -> parsable v = true ->
  create_route E wallet var now req_body t = (inr res, t1, tr) ->
  status res = 201 ->
  read_back (get_route var) res t1 (reparsed v)
  /\ (well_formed v = true -> read_back (get_route var) res t1 v).
Proof.
  intros Hdata Hwf Hfirst Hstatus.
  assert (Hgoal : read_back (get_route var) res t1 (reparsed v));
    [|split; [exact Hgoal|]; intros Hall;
      rewrite (proj2 (well_formed_parsable v Hall)) in Hgoal; exact Hgoal].
  destruct (encodable_stringify v) as [utf8 Hu].
  destruct var; cbn [create_route] in Hfirst.
  - unfold Basic.post_votes in Hfirst.
    destruct (Basic.validateVoteData req_body) as [res'|] eqn:Hval.
    { injection Hfirst as Hres Ht1 Htr. subst res'.
      rewrite (basic_validateVoteData_status _ _ Hval) in Hstatus.
      discriminate. }
    rewrite (basic_handleCreateVote_run wallet now req_body v utf8 t Hdata Hu)
      in Hfirst.
    destruct (select_by_id (keccak256 utf8) t) eqn:Hsel;
      injection Hfirst as Hres Ht1 Htr; subst res t1 tr;
      [|discriminate Hstatus].
    apply get_after_store; try assumption; [|reflexivity].
    intros. eapply get_route_found; eassumption.
  - unfold Signed.post_votes in Hfirst.
    destruct (Signed.validateVoteData E req_body) as [res'|] eqn:Hval.
    { injection Hfirst as Hres Ht1 Htr. subst res'.
      rewrite (signed_validateVoteData_status _ _ _ Hval) in Hstatus.
      discriminate. }
    rewrite (signed_handleCreateVote_run E wallet now req_body v utf8 t
               Hdata Hu) in Hfirst.
    destruct (truthy (get_prop req_body "signature"));
      [|injection Hfirst as Hres Ht1 Htr; subst res; discriminate Hstatus].
    destruct (Signed.isValid _);
      [|injection Hfirst as Hres Ht1 Htr; subst res; discriminate Hstatus].
    destruct (select_by_id (keccak256 utf8) t) eqn:Hsel;
      injection Hfirst as Hres Ht1 Htr; subst res t1 tr;
      [|discriminate Hstatus].
    apply get_after_store; try assumption; [|reflexivity].
    intros. eapply get_route_found; eassumption.
Qed.

(** ** Payloads of a chosen size *)

Lemma quote_units_plain c n : plain_unit c -> quote_units (repeat c n) = repeat c n.
Proof.
  intros [Hq Hh]. induction n as [|n IH]; [reflexivity|].
  cbn [repeat quote_units]. rewrite Hh, Hq, IH. reflexivity.
Qed.

Lemma stringify_long c n : plain_unit c ->
  stringify (long_payload c n)
  = [123; 34; 107; 34; 58; 34] ++ repeat c n ++ [34; 125].
Proof.
  intros Hc. unfold long_payload, field. cbn [stringify map join_comma].
  unfold quote at 2. rewrite (quote_units_plain c n Hc).
  change (quote (str "k")) with [34; 107; 34]. cbn [app].
  rewrite <- !app_assoc. reflexivity.
Qed.

Lemma length_stringify_long c n : plain_unit c ->
  length (stringify (long_payload c n)) = (n + 8)%nat.
Proof.
  intros Hc. rewrite (stringify_long c n Hc), !length_app, repeat_length.
  cbn [length]. lia.
Qed.

Lemma ascii_repeat c n : c < 128 -> ascii_text (repeat c n).
Proof.
  intros Hc. induction n as [|n IH]; [constructor|].
  cbn [repeat]. constructor; assumption.
Qed.

Lemma utf8_long_ascii n :
  toUtf8Bytes (stringify (long_payload 97 n))
  = Some (stringify (long_payload 97 n)).
Proof.
  apply toUtf8Bytes_ascii. rewrite stringify_long by (split; reflexivity).
  apply Forall_app. split; [repeat constructor|].
  apply Forall_app. split; [apply ascii_repeat; lia | repeat constructor].
Qed.

Lemma utf8_repeat_euro n :
  exists b, toUtf8Bytes (repeat 8364 n) = Some b /\ length b = (3 * n)%nat.
Proof.
  induction n as [|n (b & Hb & Hlen)]; [exists []; split; reflexivity|].
  exists (226 :: 130 :: 172 :: b). split.
  - cbn [repeat].
    change (toUtf8Bytes (8364 :: repeat 8364 n))
      with (option_map (fun t => 226 :: 130 :: 172 :: t)
              (toUtf8Bytes (repeat 8364 n))).
    rewrite Hb. reflexivity.
  - cbn [length]. lia.
Qed.

Lemma utf8_long_euro n :
  exists b, toUtf8Bytes (stringify (long_payload 8364 n)) = Some b
            /\ length b = (3 * n + 8)%nat.
Proof.
  destruct (utf8_repeat_euro n) as (b & Hb & Hlen).
  exists ([123; 34; 107; 34; 58; 34] ++ b ++ [34; 125]). split.
  - rewrite stringify_long by (split; reflexivity).
    apply toUtf8Bytes_app; [reflexivity|].
    apply toUtf8Bytes_app; [assumption | reflexivity].
  - rewrite !length_app, Hlen. cbn [length]. lia.
Qed.

Lemma signed_request_validated E v :
  structured v = true -> Signed.validateVoteData E (signed_request v) = None.
Proof. destruct v; try discriminate; intros _; reflexivity. Qed.

Lemma some_signature_parsed :
  Signature_from some_signature = Some (repeat 1 32%nat, repeat 1 32%nat, false).
Proof. reflexivity. Qed.

(** A structured payload sent with [some_signature] to the variant that
    verifies a caller signature: it is stored and answered 201 when the
    signature verifies, and answered INVALID_SIGNATURE otherwise. *)
Lemma signed_request_run E wallet now v :
  structured v = true ->
  let vr := Signed.validateSignature E (Some v)
              (Some (JStr some_signature)) None in
  exists res t tr,
    Signed.post_votes E wallet now (signed_request v) [] = (inr res, t, tr)
    /\ code_of res <> code "DATA_TOO_LARGE"
    /\ (Signed.isValid vr = true ->
        status res = 201
        /\ exists r, t = [r] /\ row_data r = stringify v
                     /\ exists digest, In (EvSign digest) tr).
Proof.
  intros Hv vr. unfold Signed.post_votes.
  rewrite (signed_request_validated E v Hv).
  destruct (encodable_stringify v) as [utf8 Hu].
  assert (Hdata : get_prop (signed_request v) "data" = Some v) by reflexivity.
  rewrite (signed_handleCreateVote_run E wallet now
             (signed_request v) v utf8 [] Hdata Hu).
  change (get_prop (signed_request v) "signature")
    with (Some (JStr some_signature)).
  change (get_prop (signed_request v) "signer") with (@None json).
  change (truthy (Some (JStr some_signature))) with true. cbv iota.
  fold vr. destruct (Signed.isValid vr).
  - cbn [select_by_id filter app].
    eexists _, _, _. split; [reflexivity|].
    split; [discriminate|]. intros _. split; [reflexivity|].
    eexists. split; [reflexivity|]. split; [reflexivity|].
    eexists. left. reflexivity.
  - eexists _, _, _. split; [reflexivity|].
    split; [|discriminate].
    unfold code_of, signed_invalid_signature, code, text.
    cbn [body get_prop]. intros H. vm_compute in H. discriminate H.
Qed.

Lemma demo_signature_verifies v :
  Signed.isValid
    (Signed.validateSignature demo_ethers (Some v)
       (Some (JStr some_signature)) None) = true.
Proof.
  destruct (encodable_stringify v) as [utf8 Hu].
  unfold Signed.validateSignature. cbn [JSON_stringify option_map].
  rewrite Hu, getBytes_keccak256. unfold verifyMessage.
  rewrite some_signature_parsed. unfold hashMessage.
  rewrite getBytes_keccak256. cbn [ecrecover demo_ethers].
  destruct (bytes_eqb _ _); reflexivity.
Qed.

Lemma basic_request_stored wallet now v :
  structured v = true -> Z.of_nat (length (stringify v)) <= 1000000 ->
  exists res r tr,
    Basic.post_votes wallet now (create_request v) []
    = (inr res, [r], tr)
    /\ status res = 201 /\ row_data r = stringify v
    /\ exists digest, In (EvSign digest) tr.
Proof.
  intros Hv Hlen. unfold Basic.post_votes.
  assert (Hdata : get_prop (create_request v) "data" = Some v) by reflexivity.
  assert (Hval : Basic.validateVoteData (create_request v) = None).
  { unfold Basic.validateVoteData. rewrite Hdata.
    destruct v; try discriminate; cbn [truthy typeof jstype_eqb negb
      JSON_stringify option_map];
      (replace (1000000 <? _) with false; [reflexivity|]);
      symmetry; apply Z.ltb_ge; assumption. }
  rewrite Hval.
  destruct (encodable_stringify v) as [utf8 Hu].
  rewrite (basic_handleCreateVote_run wallet now (create_request v) v utf8 []
             Hdata Hu).
  cbn [select_by_id filter app].
  eexists _, _, _. split; [reflexivity|]. split; [reflexivity|].
  split; [reflexivity|]. eexists. left. reflexivity.
Qed.

(** C8, two payloads whose encoding exceeds 1,000,000 bytes and which
    are not answered DATA_TOO_LARGE.  One million letters, sent to the
    variant that verifies a caller signature: whatever the library and the
    wallet, the answer is never DATA_TOO_LARGE, and the payload is signed
    and stored when the caller signature verifies, as it does with the
    stand-in.  And 400,000 euro signs (three bytes each, one code unit
    each), signed and stored by the variant that counts code units. *)
Lemma large_payloads_stored :
  (exists utf8, toUtf8Bytes (stringify ascii_payload) = Some utf8
                /\ 1000000 < Z.of_nat (length utf8))
  /\ (forall E wallet,
        exists res t tr,
          Signed.post_votes E wallet 0 (signed_request ascii_payload) []
          = (inr res, t, tr)
          /\ code_of res <> code "DATA_TOO_LARGE"
          /\ (Signed.isValid
                (Signed.validateSignature E (Some ascii_payload)
                   (Some (JStr some_signature)) None) = true ->
              status res = 201
              /\ exists r, t = [r] /\ row_data r = stringify ascii_payload
                           /\ exists digest, In (EvSign digest) tr))
  /\ Signed.isValid
       (Signed.validateSignature demo_ethers (Some ascii_payload)
          (Some (JStr some_signature)) None) = true
  /\ (exists utf8, toUtf8Bytes (stringify euro_payload) = Some utf8
                   /\ 1000000 < Z.of_nat (length utf8))
  /\ (forall wallet,
        exists res r tr,
          Basic.post_votes wallet 0 (create_request euro_payload) []
          = (inr res, [r], tr)
          /\ status res = 201 /\ row_data r = stringify euro_payload
          /\ exists digest, In (EvSign digest) tr).
Proof.
  split; [|split; [|split; [|split]]].
  - exists (stringify ascii_payload). split; [apply utf8_long_ascii|].
    unfold ascii_payload.
    rewrite length_stringify_long by (split; reflexivity). lia.
  - intros E wallet. apply (signed_request_run E wallet 0 ascii_payload).
    reflexivity.
  - apply demo_signature_verifies.
  - destruct (utf8_long_euro (Z.to_nat 400000)) as (b & Hb & Hlen).
    exists b. split; [exact Hb|]. lia.
  - intros wallet. apply basic_request_stored; [reflexivity|].
    unfold euro_payload.
    rewrite length_stringify_long by (split; reflexivity). lia.
Qed.

(** ** The theorems at concrete requests *)

Lemma bytes_eqb_refl b : bytes_eqb b b = true.
Proof.
  induction b as [|x b IH]; [reflexivity|].
  cbn [bytes_eqb]. rewrite Z.eqb_refl, IH. reflexivity.
Qed.

Lemma demo_wallet_sound : sound_wallet demo_ethers demo_wallet.
Proof.
  intros d Hlen Hbytes. cbn [sign demo_wallet ecrecover demo_ethers].
  rewrite bytes_eqb_refl.
  repeat split; try assumption; try reflexivity.
  apply Forall_forall. intros x Hx. apply repeat_spec in Hx. subst.
  unfold is_byte. lia.
Qed.

Lemma stored_signatures_valid_witness :
  sound_wallet demo_ethers demo_wallet
  /\ reachable (serve demo_ethers demo_wallet CallerSigned)
       (table_of (serve demo_ethers demo_wallet CallerSigned
                    (CreateVote 5 (signed_request vote_payload)) []))
  /\ Forall (operator_signed demo_ethers demo_wallet)
       (table_of (serve demo_ethers demo_wallet CallerSigned
                    (CreateVote 5 (signed_request vote_payload)) [])).
Proof.
  split; [exact demo_wallet_sound|].
  split; [apply reach_serve, reach_empty|].
  apply (stored_signatures_valid demo_ethers demo_wallet CallerSigned).
  - exact demo_wallet_sound.
  - apply reach_serve, reach_empty.
Defined.

Lemma duplicate_create_conflict_witness :
  create_route demo_ethers demo_wallet Unsigned 5 (create_request vote_payload) []
  = (inr (first_response Unsigned (create_request vote_payload)),
     table_of (first_run Unsigned (create_request vote_payload)),
     trace_of (first_run Unsigned (create_request vote_payload)))
  /\ status (first_response Unsigned (create_request vote_payload)) = 201
  /\ conflict (trace_of (first_run Unsigned (create_request vote_payload)))
       (first_response Unsigned (create_request vote_payload))
       (table_of (first_run Unsigned (create_request vote_payload)))
       (create_route demo_ethers demo_wallet Unsigned 6
          (create_request vote_payload)
          (table_of (first_run Unsigned (create_request vote_payload))))
  /\ table_of
       (create_route demo_ethers demo_wallet Unsigned 6
          (signed_request vote_payload)
          (table_of (first_run Unsigned (create_request vote_payload))))
     = table_of (first_run Unsigned (create_request vote_payload)).
Proof.
  split; [vm_compute; reflexivity|].
  split; [vm_compute; reflexivity|].
  assert (H : create_route demo_ethers demo_wallet Unsigned 5
                (create_request vote_payload) []
              = (inr (first_response Unsigned (create_request vote_payload)),
                 table_of (first_run Unsigned (create_request vote_payload)),
                 trace_of (first_run Unsigned (create_request vote_payload))))
    by (vm_compute; reflexivity).
  assert (Hs : status (first_response Unsigned (create_request vote_payload))
               = 201) by (vm_compute; reflexivity).
  split.
  - apply (duplicate_create_conflict demo_ethers demo_wallet Unsigned 5 6
             (create_request vote_payload) [] _ _ _ H Hs).
  - apply (duplicate_create_conflict demo_ethers demo_wallet Unsigned 5 6
             (create_request vote_payload) [] _ _ _ H Hs).
    reflexivity.
Defined.

Lemma create_then_get_witness :
  get_prop (signed_request mixed_payload) "data" = Some mixed_payload
  /\ parsable mixed_payload = true
  /\ create_route demo_ethers demo_wallet CallerSigned 5
       (signed_request mixed_payload) []
     = (inr (first_response CallerSigned (signed_request mixed_payload)),
        table_of (first_run CallerSigned (signed_request mixed_payload)),
        trace_of (first_run CallerSigned (signed_request mixed_payload)))
  /\ status (first_response CallerSigned (signed_request mixed_payload)) = 201
  /\ read_back (get_route CallerSigned)
       (first_response CallerSigned (signed_request mixed_payload))
       (table_of (first_run CallerSigned (signed_request mixed_payload)))
       (reparsed mixed_payload)
  /\ (well_formed mixed_payload = true ->
      read_back (get_route CallerSigned)
        (first_response CallerSigned (signed_request mixed_payload))
        (table_of (first_run CallerSigned (signed_request mixed_payload)))
        mixed_payload).
Proof.
  split; [reflexivity|].
  split; [reflexivity|].
  split; [vm_compute; reflexivity|].
  split; [vm_compute; reflexivity|].
  apply (create_then_get demo_ethers demo_wallet CallerSigned 5
           (signed_request mixed_payload) mixed_payload []
           (table_of (first_run CallerSigned (signed_request mixed_payload)))
           (first_response CallerSigned (signed_request mixed_payload))
           (trace_of (first_run CallerSigned (signed_request mixed_payload)))).
  - reflexivity.
  - reflexivity.
  - vm_compute. reflexivity.
  - vm_compute. reflexivity.
Defined.

Lemma verification_signer_mismatch_witness :
  verifyMessage demo_ethers (id_bytes vote_payload)
    (Some (JStr some_signature)) = Some other_address
  /\ Signed.error
       (Signed.validateSignature demo_ethers (Some vote_payload)
          (Some (JStr some_signature)) (Some (JStr demo_address)))
     = Some Signed.SignerMismatch
  /\ Signed.validateSignature demo_ethers (Some vote_payload)
       (Some (JStr some_signature)) (Some (JStr other_address))
     = {| Signed.isValid := true; Signed.error := None;
          Signed.recoveredSigner := Some other_address |}.
Proof.
  assert (H : verifyMessage demo_ethers (id_bytes vote_payload)
                (Some (JStr some_signature)) = Some other_address)
    by (vm_compute; reflexivity).
  split; [exact H|]. split.
  - apply (verification_signer_mismatch demo_ethers vote_payload
             (Some (JStr some_signature)) (Some (JStr demo_address))
             other_address H).
    exists demo_address. split; [reflexivity|].
    split; [discriminate|]. vm_compute. discriminate.
  - apply (verification_signer_mismatch demo_ethers vote_payload
             (Some (JStr some_signature)) (Some (JStr other_address))
             other_address H).
    right. exists other_address. split; reflexivity.
Defined.

Lemma size_limit_basic_witness :
  (get_prop (create_request ascii_payload) "data" = Some ascii_payload
   /\ structured ascii_payload = true
   /\ 1000000 < Z.of_nat (length (stringify ascii_payload))
   /\ Basic.post_votes demo_wallet 0 (create_request ascii_payload) []
      = (inr data_too_large, [], []))
  /\ (get_prop (create_request vote_payload) "data" = Some vote_payload
      /\ structured vote_payload = true
      /\ toUtf8Bytes (stringify vote_payload)
         = Some (stringify vote_payload)
      /\ Z.of_nat (length (stringify vote_payload)) <= 1000000
      /\ Basic.validateVoteData (create_request vote_payload) = None).
Proof.
  assert (Hbig : 1000000 < Z.of_nat (length (stringify ascii_payload))).
  { unfold ascii_payload.
    rewrite length_stringify_long by (split; reflexivity). lia. }
  split.
  - split; [reflexivity|]. split; [reflexivity|]. split; [exact Hbig|].
    apply (size_limit_basic demo_wallet 0 (create_request ascii_payload)
             ascii_payload [] eq_refl eq_refl).
    exact Hbig.
  - split; [reflexivity|]. split; [reflexivity|].
    split; [vm_compute; reflexivity|]. split; [vm_compute; discriminate|].
    apply (size_limit_basic demo_wallet 0 (create_request vote_payload)
             vote_payload [] eq_refl eq_refl)
      with (utf8 := stringify vote_payload).
    + vm_compute. reflexivity.
    + vm_compute. discriminate.
Defined.

Lemma create_rejects_bad_data_witness :
  falsy_data (get_prop (create_request (JInt 0)) "data")
  /\ create_route demo_ethers demo_wallet CallerSigned 5
       (create_request (JInt 0)) []
     = (inr missing_data, [], [])
  /\ truthy_scalar (get_prop (create_request (text "yes")) "data")
  /\ create_route demo_ethers demo_wallet Unsigned 5
       (create_request (text "yes")) []
     = (inr invalid_data_type, [], []).
Proof.
  assert (H0 : falsy_data (get_prop (create_request (JInt 0)) "data")).
  { right. right. left. exists (of_Z 0). split; reflexivity. }
  assert (H1 : truthy_scalar (get_prop (create_request (text "yes")) "data")).
  { left. exists (str "yes"). split; [discriminate | reflexivity]. }
  split; [exact H0|]. split.
  - apply (create_rejects_bad_data demo_ethers demo_wallet CallerSigned 5
             (create_request (JInt 0)) []). exact H0.
  - split; [exact H1|].
    apply (create_rejects_bad_data demo_ethers demo_wallet Unsigned 5
             (create_request (text "yes")) []). exact H1.
Defined.

(** ** The scenarios of the specification *)

(** The vote payload is stored with a 66-character identifier and a
    132-character signature, and answered 201. *)
Example scenario_created :
  status (first_response Unsigned (create_request vote_payload)) = 201
  /\ map (fun r => (length (row_id r), length (row_signature r)))
       (table_of (first_run Unsigned (create_request vote_payload)))
     = [(66%nat, 132%nat)].
Proof. vm_compute. split; reflexivity. Qed.

(** An identifier one digit short is refused before the store is asked. *)
Example scenario_short_id :
  get_route CallerSigned (str "0x" ++ repeat 97 63%nat) []
  = (inr invalid_id, [], []).
Proof. reflexivity. Qed.

(** The text of the vote payload, and the payload read from it. *)
Example scenario_text :
  JSON_parse (stringify vote_payload) = Some vote_payload
  /\ length (stringify vote_payload) = 41%nat.
Proof. vm_compute. split; reflexivity. Qed.

(** * Further properties of the handlers *)

(** ** What a request does to the table *)

Lemma validateSignature_valid E v utf8 signature expected :
  toUtf8Bytes (stringify v) = Some utf8 ->
  Signed.isValid (Signed.validateSignature E (Some v) signature expected)
  = true ->
  exists a,
    Signed.recoveredSigner
      (Signed.validateSignature E (Some v) signature expected) = Some a
    /\ verifyMessage E (Keccak.keccak_256 utf8) signature = Some a.
Proof.
  intros Hu. unfold Signed.validateSignature.
  cbn [JSON_stringify option_map]. rewrite Hu, getBytes_keccak256.
  destruct (verifyMessage E (Keccak.keccak_256 utf8) signature) as [a|];
    [|discriminate].
  destruct (truthy expected);
    [|intros _; exists a; split; reflexivity].
  destruct expected as [[| | | s | |]|]; try discriminate.
  destruct (negb (jsstring_eqb _ _));
    intros _; exists a; split; reflexivity.
Qed.

(** One request leaves the table as it is, or appends the row of a
    create request whose identifier was not stored. *)
Lemma serve_step E wallet var rq t :
  table_of (serve E wallet var rq t) = t
  \/ exists now v utf8 signer,
       select_by_id (keccak256 utf8) t = []
       /\ structured v = true
       /\ toUtf8Bytes (stringify v) = Some utf8
       /\ table_of (serve E wallet var rq t)
          = t ++ [new_row now (keccak256 utf8) (stringify v)
                    (operator_signature wallet (Keccak.keccak_256 utf8))
                    signer]
       /\ match var with
          | Unsigned =>
              signer = None /\ Z.of_nat (length (stringify v)) <= 1000000
          | CallerSigned =>
              exists a signature,
                signer = Some a
                /\ verifyMessage E (Keccak.keccak_256 utf8) signature = Some a
          end
       /\ exists req_body,
            rq = CreateVote now req_body
            /\ get_prop req_body "data" = Some v.
Proof.
  destruct rq as [now req_body | id | l o | req_body], var;
    cbn [serve create_route get_route verify_route];
    try (left; first [apply handleGetVote_basic_table
                     |apply handleGetVote_signed_table
                     |apply handleGetAllVotes_table
                     |apply post_verify_signature_table
                     |reflexivity]).
  - unfold Basic.post_votes.
    destruct (Basic.validateVoteData req_body) as [res|] eqn:Hval;
      [left; reflexivity|].
    destruct (basic_validateVoteData_passed _ Hval) as (v & Hdata & Hv & Hsize).
    destruct (encodable_stringify v) as [utf8 Hu].
    rewrite (basic_handleCreateVote_run wallet now req_body v utf8 t Hdata Hu).
    destruct (select_by_id (keccak256 utf8) t) eqn:Hsel; [|left; reflexivity].
    right. exists now, v, utf8, None. cbn [table_of fst snd].
    split; [assumption|]. split; [assumption|]. split; [assumption|].
    split; [reflexivity|]. split; [split; [reflexivity|assumption]|]. eauto.
  - unfold Signed.post_votes.
    destruct (Signed.validateVoteData E req_body) as [res|] eqn:Hval;
      [left; reflexivity|].
    destruct (signed_validateVoteData_passed _ _ Hval) as (v & Hdata & Hv).
    destruct (encodable_stringify v) as [utf8 Hu].
    rewrite (signed_handleCreateVote_run E wallet now req_body v utf8 t
               Hdata Hu).
    destruct (truthy (get_prop req_body "signature")); [|left; reflexivity].
    destruct (Signed.isValid _) eqn:Hvalid; [|left; reflexivity].
    destruct (select_by_id (keccak256 utf8) t) eqn:Hsel; [|left; reflexivity].
    destruct (validateSignature_valid E v utf8 _ _ Hu Hvalid) as (a & Ha & Hv').
    right. exists now, v, utf8, (Some a). cbn [table_of fst snd].
    split; [assumption|]. split; [assumption|]. split; [assumption|].
    split; [rewrite Ha; reflexivity|]. split; [|eauto].
    exists a. eexists. split; [reflexivity|eassumption].
Qed.

Lemma run_app E wallet var rqs rq t :
  run E wallet var (rqs ++ [rq]) t
  = table_of (serve E wallet var rq (run E wallet var rqs t)).
Proof. unfold run. rewrite fold_left_app. reflexivity. Qed.

Lemma run_grows E wallet var rqs : forall t,
  exists suffix,
    run E wallet var rqs t = t ++ suffix
    /\ (length suffix <= creates rqs)%nat.
Proof.
  induction rqs as [|rq rqs IH]; intros t.
  - exists []. rewrite app_nil_r. split; [reflexivity | apply le_0_n].
  - change (run E wallet var (rq :: rqs) t)
      with (run E wallet var rqs (table_of (serve E wallet var rq t))).
    destruct (IH (table_of (serve E wallet var rq t))) as (suffix & Hs & Hlen).
    destruct (serve_step E wallet var rq t)
      as [Hsame | (now & v & utf8 & signer & _ & _ & _ & Hnew & _ & body & -> & _)].
    + rewrite Hsame in Hs |- *. exists suffix. split; [assumption|].
      unfold creates in *. cbn [filter]. destruct rq; cbn [length]; lia.
    + rewrite Hnew in Hs |- *. rewrite <- app_assoc in Hs.
      eexists. split; [exact Hs|].
      unfold creates in *. cbn [filter app length]. lia.
Qed.

(** X1: whatever requests are served, in either variant, the rows
    already stored stay where they are and as they are: the table after
    the requests is the table before them followed by new rows, at most
    one for each create request. *)
Theorem stored_rows_are_kept (E : Ethers) (wallet : Wallet) (var : variant)
  (rqs : list request) (t : table) :
  exists added,
    run E wallet var rqs t = t ++ added
    /\ (length added <= creates rqs)%nat.
Proof. apply run_grows. Qed.

(** ** What every stored row satisfies *)

Lemma reachable_rows E wallet var (P : row -> Prop) :
  (forall now v utf8 signer,
      structured v = true -> toUtf8Bytes (stringify v) = Some utf8 ->
      match var with
      | Unsigned =>
          signer = None /\ Z.of_nat (length (stringify v)) <= 1000000
      | CallerSigned =>
          exists a signature,
            signer = Some a
            /\ verifyMessage E (Keccak.keccak_256 utf8) signature = Some a
      end ->
      P (new_row now (keccak256 utf8) (stringify v)
           (operator_signature wallet (Keccak.keccak_256 utf8)) signer)) ->
  forall t, reachable (serve E wallet var) t -> Forall P t.
Proof.
  intros HP t Hreach.
  induction Hreach as [|t rq Hreach IH]; [constructor|].
  destruct (serve_step E wallet var rq t)
    as [-> | (now & v & utf8 & signer & _ & Hv & Hu & -> & Hsigner & _)];
    [assumption|].
  apply Forall_app. split; [assumption|].
  constructor; [|constructor]. apply HP; assumption.
Qed.

Lemma select_none id t : select_by_id id t = [] -> ~ In id (map row_id t).
Proof.
  unfold select_by_id. induction t as [|r t IH]; intros Hsel Hin; [exact Hin|].
  cbn [filter] in Hsel.
  destruct (jsstring_eqb (row_id r) id) eqn:Heq; [discriminate Hsel|].
  destruct Hin as [Hr | Hin]; [|exact (IH Hsel Hin)].
  rewrite Hr, jsstring_eqb_refl in Heq. discriminate Heq.
Qed.

Lemma select_unique id t :
  NoDup (map row_id t) -> (length (select_by_id id t) <= 1)%nat.
Proof.
  unfold select_by_id. induction t as [|r t IH]; intros Hnd; [apply le_0_n|].
  cbn [map] in Hnd. inversion Hnd as [|? ? Hnotin Hnd']. subst.
  cbn [filter]. destruct (jsstring_eqb (row_id r) id) eqn:Heq;
    [|exact (IH Hnd')].
  apply jsstring_eqb_eq in Heq. subst id.
  destruct (filter (fun r0 => jsstring_eqb (row_id r0) (row_id r)) t)
    as [|r' rest] eqn:Hf; [apply le_n|].
  exfalso. apply Hnotin.
  assert (Hin : In r' (filter (fun r0 => jsstring_eqb (row_id r0) (row_id r)) t))
    by (rewrite Hf; left; reflexivity).
  apply filter_In in Hin. destruct Hin as [Hin Hid].
  apply jsstring_eqb_eq in Hid. rewrite <- Hid. apply in_map. exact Hin.
Qed.

(** X2: in every table a server can hold, no two rows have the same
    identifier, so that the SELECT of a get request returns at most one
    row.  Either variant. *)
Theorem identifiers_are_unique (E : Ethers) (wallet : Wallet) (var : variant)
  (t : table) :
  reachable (serve E wallet var) t ->
  NoDup (map row_id t)
  /\ forall id, (length (select_by_id id t) <= 1)%nat.
Proof.
  intros Hreach.
  assert (Hnd : NoDup (map row_id t)).
  { induction Hreach as [|t rq Hreach IH]; [constructor|].
    destruct (serve_step E wallet var rq t)
      as [-> | (now & v & utf8 & signer & Hsel & _ & _ & -> & _)];
      [assumption|].
    rewrite map_app. cbn [map new_row row_id].
    apply NoDup_rev in IH. rewrite <- (rev_involutive (_ ++ _)).
    apply NoDup_rev. rewrite rev_app_distr. cbn [rev app].
    constructor; [|assumption].
    rewrite <- in_rev. apply select_none. assumption. }
  split; [assumption|]. intros id. apply select_unique. assumption.
Qed.

(** X3: in every table a server can hold, the identifier of each row is
    the Keccak-256 digest of the UTF-8 bytes of the row's text, and the
    text is the serialization of an array or an object.  The identifier
    has the 66 characters of the id column and passes the format check
    of the get request.  Either variant. *)
Theorem rows_are_content_addressed (E : Ethers) (wallet : Wallet)
  (var : variant) (t : table) :
  reachable (serve E wallet var) t ->
  Forall (fun r => content_addressed r
                   /\ length (row_id r) = 66%nat
                   /\ isHexString (row_id r) (Some 32) = true) t.
Proof.
  apply reachable_rows. intros now v utf8 signer Hv Hu _.
  cbn [new_row row_id].
  split; [|split; [apply keccak256_length | apply isHexString_keccak256]].
  exists v, utf8. cbn [new_row row_data row_id]. auto.
Qed.

(** X4: the signer column.  The variant without a caller signature
    stores no signer; in the variant that verifies, every row a server
    can hold has a signer, which is the address recovered from a
    signature over the 32 bytes of the row's identifier. *)
Theorem signer_column (E : Ethers) (wallet : Wallet) (var : variant)
  (t : table) :
  reachable (serve E wallet var) t ->
  Forall (fun r => match var with
                   | Unsigned => row_signer r = None
                   | CallerSigned => caller_signed E r
                   end) t.
Proof.
  apply reachable_rows. intros now v utf8 signer _ _ Hsigner.
  destruct var; cbn [new_row row_signer].
  - apply Hsigner.
  - destruct Hsigner as (a & signature & -> & Hverify).
    exists a, signature, (Keccak.keccak_256 utf8).
    cbn [new_row row_signer row_id].
    split; [reflexivity|]. split; [apply getBytes_keccak256 | assumption].
Qed.

(** X5: in the variant with the size check, the text of every row a
    server can hold has at most 1,000,000 code units. *)
Theorem stored_text_bounded (E : Ethers) (wallet : Wallet) (t : table) :
  reachable (serve E wallet Unsigned) t ->
  Forall (fun r => Z.of_nat (length (row_data r)) <= 1000000) t.
Proof.
  apply reachable_rows. intros now v utf8 signer _ _ [_ Hsize]. exact Hsize.
Qed.

(** ** Reading a vote after later requests *)

(** What a create request answered 201 has done. *)
Lemma created_row E wallet var now req_body t res t1 tr :
  create_route E wallet var now req_body t = (inr res, t1, tr) ->
  status res = 201 ->
  exists v utf8 signer,
    get_prop req_body "data" = Some v
    /\ toUtf8Bytes (stringify v) = Some utf8
    /\ select_by_id (keccak256 utf8) t = []
    /\ t1 = t ++ [new_row now (keccak256 utf8) (stringify v)
                    (operator_signature wallet (Keccak.keccak_256 utf8))
                    signer]
    /\ record_field res "id" = Some (JStr (keccak256 utf8))
    /\ record_field res "signature"
       = Some (JStr (operator_signature wallet (Keccak.keccak_256 utf8)))
    /\ record_field res "operator" = Some (JStr (address wallet))
    /\ record_field res "signer"
       = match var with
         | Unsigned => None
         | CallerSigned => Some (opt_json signer)
         end.
Proof.
  intros Hfirst Hstatus. destruct var; cbn [create_route] in Hfirst.
  - unfold Basic.post_votes in Hfirst.
    destruct (Basic.validateVoteData req_body) as [res'|] eqn:Hval.
    { injection Hfirst as Hres Ht1 Htr. subst res'.
      rewrite (basic_validateVoteData_status _ _ Hval) in Hstatus.
      discriminate. }
    destruct (basic_validateVoteData_passed _ Hval) as (v & Hdata & _).
    destruct (encodable_stringify v) as [utf8 Hu].
    rewrite (basic_handleCreateVote_run wallet now req_body v utf8 t Hdata Hu)
      in Hfirst.
    destruct (select_by_id (keccak256 utf8) t) eqn:Hsel;
      injection Hfirst as Hres Ht1 Htr; subst res t1 tr;
      [|discriminate Hstatus].
    exists v, utf8, None. repeat (split; [assumption || reflexivity|]).
    reflexivity.
  - unfold Signed.post_votes in Hfirst.
    destruct (Signed.validateVoteData E req_body) as [res'|] eqn:Hval.
    { injection Hfirst as Hres Ht1 Htr. subst res'.
      rewrite (signed_validateVoteData_status _ _ _ Hval) in Hstatus.
      discriminate. }
    destruct (signed_validateVoteData_passed _ _ Hval) as (v & Hdata & _).
    destruct (encodable_stringify v) as [utf8 Hu].
    rewrite (signed_handleCreateVote_run E wallet now req_body v utf8 t
               Hdata Hu) in Hfirst.
    destruct (truthy (get_prop req_body "signature"));
      [|injection Hfirst as Hres Ht1 Htr; subst res; discriminate Hstatus].
    destruct (Signed.isValid _);
      [|injection Hfirst as Hres Ht1 Htr; subst res; discriminate Hstatus].
    destruct (select_by_id (keccak256 utf8) t) eqn:Hsel;
      injection Hfirst as Hres Ht1 Htr; subst res t1 tr;
      [|discriminate Hstatus].
    exists v, utf8, (Signed.recoveredSigner
                       (Signed.validateSignature E (Some v)
                          (get_prop req_body "signature")
                          (get_prop req_body "signer"))).
    repeat (split; [assumption || reflexivity|]). reflexivity.
Qed.

Lemma hex_id_keccak256 utf8 : hex_id (keccak256 utf8) = true.
Proof.
  pose proof (hex_id_isHexString (keccak256 utf8)) as H.
  rewrite keccak256_truthy, isHexString_keccak256 in H.
  cbn [negb orb] in H. destruct (hex_id _); [reflexivity | discriminate H].
Qed.

(** The answer of a get request for a stored row whose text parses. *)
Lemma get_route_row var id t vote rest data :
  hex_id id = true -> select_by_id id t = vote :: rest ->
  JSON_parse (row_data vote) = Some data ->
  exists r,
    get_route var id t = (inr r, t, [EvDb (SelectById id)])
    /\ status r = 200
    /\ record_field r "id" = Some (JStr (row_id vote))
    /\ record_field r "data" = Some data
    /\ record_field r "signature" = Some (JStr (row_signature vote))
    /\ record_field r "createdAt" = Some (JInt (row_created_at vote)).
Proof.
  intros Hhex Hsel Hparse.
  pose proof (hex_id_isHexString id) as H. rewrite Hhex in H.
  destruct var; cbn [get_route];
    unfold Basic.handleGetVote, Signed.handleGetVote, try_catch;
    rewrite H; cbn [negb]; unfold db_select, bind, emit;
    rewrite Hsel, Hparse;
    eexists; (split; [reflexivity|]); repeat split; reflexivity.
Qed.

(** X6: a vote that was created stays readable.  When a create request
    with a payload [v] that [JSON.parse] can build is answered 201, then
    after any further requests the get request for the returned
    identifier is answered 200 with that identifier, the signature the
    create request returned, the time of the create request, and as data
    what the stored text keeps of [v]: [v] with every number that is not
    finite replaced by null and the negative zero by zero, which is [v]
    itself when it holds no such number.  The get request makes one
    SELECT and leaves the table as it is.  Either variant. *)
Theorem created_vote_stays_readable (E : Ethers) (wallet : Wallet)
  (var : variant) (now : Z) (req_body v : json) (t t1 : table)
  (res : response) (tr : list event) (rqs : list request) :
  get_prop req_body "data" = Some v -> parsable v = true ->
  create_route E wallet var now req_body t = (inr res, t1, tr) ->
  status res = 201 ->
  exists id res',
    record_field res "id" = Some (JStr id)
    /\ get_route var id (run E wallet var rqs t1)
       = (inr res', run E wallet var rqs t1, [EvDb (SelectById id)])
    /\ status res' = 200
    /\ record_field res' "id" = Some (JStr id)
    /\ record_field res' "data" = Some (reparsed v)
    /\ (well_formed v = true -> record_field res' "data" = Some v)
    /\ record_field res' "signature" = record_field res "signature"
    /\ record_field res' "createdAt" = Some (JInt now).
Proof.
  intros Hdata Hwf Hfirst Hstatus.
  destruct (created_row E wallet var now req_body t res t1 tr Hfirst Hstatus)
    as (v' & utf8 & signer & Hdata' & Hu & Hsel & Ht1 & Hid & Hsig & _ & _).
  rewrite Hdata in Hdata'. injection Hdata' as <-.
  destruct (run_grows E wallet var rqs t1) as (added & Hrun & _).
  set (vote := new_row now (keccak256 utf8) (stringify v)
                 (operator_signature wallet (Keccak.keccak_256 utf8)) signer)
    in *.
  assert (Hselect : select_by_id (keccak256 utf8) (run E wallet var rqs t1)
                    = vote :: select_by_id (keccak256 utf8) added).
  { rewrite Hrun, Ht1. unfold select_by_id. rewrite !filter_app.
    fold (select_by_id (keccak256 utf8) t). rewrite Hsel.
    cbn [filter app]. unfold vote at 1. cbn [new_row row_id].
    rewrite jsstring_eqb_refl. reflexivity. }
  destruct (get_route_row var (keccak256 utf8) _ vote _ (reparsed v)
              (hex_id_keccak256 utf8) Hselect (JSON_parse_reparsed v Hwf))
    as (r & Hget & Hs & Hrid & Hrdata & Hrsig & Hrtime).
  exists (keccak256 utf8), r.
  split; [assumption|]. split; [assumption|]. split; [assumption|].
  split; [assumption|]. split; [assumption|].
  split; [intros Hall; rewrite Hrdata,
            (proj2 (well_formed_parsable v Hall)); reflexivity|].
  split; [rewrite Hsig; assumption | assumption].
Qed.

(** ** When the operator signs *)


(** ** The result of a signature validation *)

(** X8: the three fields of the result of [validateSignature] agree.
    The result is valid exactly when it carries no error; it carries a
    recovered signer exactly when the error is not that of a failed
    verification; and a valid result always names the signer. *)
Theorem validation_result_consistent (E : Ethers)
  (data signature expected : option json) :
  let vr := Signed.validateSignature E data signature expected in
  (Signed.isValid vr = true <-> Signed.error vr = None)
  /\ (Signed.recoveredSigner vr = None
      <-> Signed.error vr = Some Signed.VerificationFailed)
  /\ (Signed.isValid vr = true ->
      exists a, Signed.recoveredSigner vr = Some a).
Proof.
  cbv zeta. unfold Signed.validateSignature.
  assert (Hfailed :
    (Signed.isValid Signed.failed = true <-> Signed.error Signed.failed = None)
    /\ (Signed.recoveredSigner Signed.failed = None
        <-> Signed.error Signed.failed = Some Signed.VerificationFailed)
    /\ (Signed.isValid Signed.failed = true ->
        exists a, Signed.recoveredSigner Signed.failed = Some a)).
  { cbn. repeat split; intros H; try discriminate H; reflexivity. }
  destruct (JSON_stringify data) as [dataString|]; [|exact Hfailed].
  destruct (toUtf8Bytes dataString) as [utf8|]; [|exact Hfailed].
  destruct (getBytes (keccak256 utf8)) as [message|]; [|exact Hfailed].
  destruct (verifyMessage E message signature) as [a|]; [|exact Hfailed].
  destruct (truthy expected).
  - destruct expected as [[| | | e | |]|]; try exact Hfailed.
    destruct (negb (jsstring_eqb _ _)); cbn [Signed.isValid Signed.error
      Signed.recoveredSigner]; repeat split; intros H;
      try discriminate H; try reflexivity; eauto.
  - cbn [Signed.isValid Signed.error Signed.recoveredSigner].
    repeat split; intros H; try discriminate H; try reflexivity; eauto.
Qed.

Lemma Signature_from_wrong_length s : wrong_length s -> Signature_from s = None.
Proof.
  unfold wrong_length, Signature_from.
  destruct (getBytes s) as [bs|]; [|reflexivity].
  intros [H64 H65].
  destruct (Nat.eqb_spec (length bs) 64); [contradiction|].
  destruct (Nat.eqb_spec (length bs) 65); [contradiction|].
  reflexivity.
Qed.

(** X9: a signature string whose text is not the hex form of 64 or 65
    bytes never verifies: whatever the data, the expected signer and
    the library primitives, the result is the failed verification, with
    no recovered signer. *)
Theorem malformed_signature_fails (E : Ethers)
  (data expected : option json) (s : jsstring) :
  wrong_length s ->
  Signed.validateSignature E data (Some (JStr s)) expected = Signed.failed.
Proof.
  intros Hsig. unfold Signed.validateSignature.
  destruct (JSON_stringify data) as [dataString|]; [|reflexivity].
  destruct (toUtf8Bytes dataString) as [utf8|]; [|reflexivity].
  destruct (getBytes (keccak256 utf8)) as [message|]; [|reflexivity].
  assert (Hnone : verifyMessage E message (Some (JStr s)) = None).
  { unfold verifyMessage.
    rewrite (Signature_from_wrong_length s Hsig). reflexivity. }
  rewrite Hnone. reflexivity.
Qed.

(** ** The list of votes *)

Lemma insert_desc_perm r l : Permutation (insert_desc r l) (r :: l).
Proof.
  induction l as [|r' l IH]; [apply Permutation_refl|].
  cbn [insert_desc].
  destruct (row_created_at r' <? row_created_at r); [apply Permutation_refl|].
  apply Permutation_trans with (r' :: r :: l);
    [apply perm_skip; exact IH | apply perm_swap].
Qed.

Lemma order_desc_perm t : Permutation (order_desc t) t.
Proof.
  unfold order_desc. induction t as [|r t IH]; [apply Permutation_refl|].
  cbn [fold_right].
  apply Permutation_trans with (r :: fold_right insert_desc [] t);
    [apply insert_desc_perm | apply perm_skip; exact IH].
Qed.

Lemma newest_first_insert r l :
  newest_first l -> newest_first (insert_desc r l).
Proof.
  induction l as [|r' l IH]; intros Hl.
  - cbn. split; [constructor | exact I].
  - cbn [insert_desc]. destruct Hl as [Hall Hl].
    destruct (row_created_at r' <? row_created_at r) eqn:Hlt.
    + apply Z.ltb_lt in Hlt. cbn [newest_first].
      split; [|split; assumption].
      constructor; [lia|].
      eapply Forall_impl; [|exact Hall]. cbn beta. intros x Hx. lia.
    + apply Z.ltb_ge in Hlt. cbn [newest_first].
      split; [|apply IH; exact Hl].
      apply Forall_forall. intros x Hx.
      apply (Permutation_in _ (insert_desc_perm r l)) in Hx.
      destruct Hx as [<- | Hx]; [exact Hlt|].
      rewrite Forall_forall in Hall. apply Hall. exact Hx.
Qed.

Lemma newest_first_order_desc t : newest_first (order_desc t).
Proof.
  unfold order_desc. induction t as [|r t IH]; [exact I|].
  cbn [fold_right]. apply newest_first_insert. exact IH.
Qed.

Lemma newest_first_firstn n : forall l,
  newest_first l -> newest_first (firstn n l).
Proof.
  induction n as [|n IH]; intros [|r l] Hl; cbn [firstn]; try exact I.
  destruct Hl as [Hall Hl]. split; [|apply IH; exact Hl].
  apply Forall_forall. intros x Hx. rewrite Forall_forall in Hall.
  apply Hall. eapply In_firstn. exact Hx.
Qed.

Lemma newest_first_skipn n : forall l,
  newest_first l -> newest_first (skipn n l).
Proof.
  induction n as [|n IH]; intros [|r l] Hl; cbn [skipn]; try assumption.
  apply IH. apply Hl.
Qed.

(** The answer of a list request the store accepts. *)
Lemma handleGetAllVotes_run q_limit q_offset t :
  let limit := fst (pagination q_limit q_offset) in
  let offset := snd (pagination q_limit q_offset) in
  let rows := firstn (Z.to_nat limit) (skipn (Z.to_nat offset) (order_desc t)) in
  result_of (handleGetAllVotes q_limit q_offset t)
  = if (limit <? 0) || (offset <? 0)
    then inr (error_response 500 "Failed to retrieve votes" "INTERNAL_ERROR")
    else
      inr {| status := 200;
             body :=
               JObj [field "success" (JBool true);
                     field "data" (JArr (map page_row rows));
                     field "pagination"
                       (JObj [field "limit" (JInt limit);
                              field "offset" (JInt offset);
                              field "count"
                                (JInt (Z.of_nat (length rows)))])] |}.
Proof.
  cbv zeta. unfold handleGetAllVotes, try_catch, pagination, db_page, bind,
    emit, json_response, ret, result_of. cbn [fst snd].
  destruct ((_ <? 0) || (_ <? 0)); reflexivity.
Qed.

(** X10: the effective limit of a list request is at most 100.  When
    the store refuses the SELECT the request is answered 500
    INTERNAL_ERROR; when the store answers it the request is answered
    200 and lists the rows the store gave: rows of the table, newest
    first, no more of them than the effective limit; the count field of
    the answer is their number.  The table is left as it is in both
    cases. *)
Theorem list_answer (q_limit q_offset : qvalue) (t : table) :
  let limit := fst (pagination q_limit q_offset) in
  let offset := snd (pagination q_limit q_offset) in
  limit <= 100
  /\ table_of (handleGetAllVotes q_limit q_offset t) = t
  /\ match result_of (db_page limit offset t) with
     | inl _ =>
         result_of (handleGetAllVotes q_limit q_offset t)
         = inr (error_response 500 "Failed to retrieve votes"
                  "INTERNAL_ERROR")
     | inr rows =>
         exists res,
           result_of (handleGetAllVotes q_limit q_offset t) = inr res
           /\ status res = 200
           /\ listed res rows
           /\ (length rows <= Z.to_nat limit)%nat
           /\ incl rows t
           /\ newest_first rows
     end.
Proof.
  cbv zeta. split; [apply Z.le_min_r|].
  unfold handleGetAllVotes, try_catch, pagination, db_page, bind,
    emit, json_response, ret, result_of, table_of. cbn [fst snd].
  set (limit := Z.min (or_default (parseInt q_limit) 10) 100).
  set (offset := or_default (parseInt q_offset) 0).
  destruct ((limit <? 0) || (offset <? 0)); cbn [fst snd];
    (split; [reflexivity|]); [reflexivity|].
  eexists. split; [reflexivity|]. split; [reflexivity|].
  split; [split; reflexivity|].
  split; [apply firstn_le_length|].
  split.
  - intros x Hx. apply In_firstn, In_skipn in Hx.
    exact (Permutation_in _ (order_desc_perm t) Hx).
  - apply newest_first_firstn, newest_first_skipn, newest_first_order_desc.
Qed.

Lemma list_complete_run q_limit q_offset t limit :
  pagination q_limit q_offset = (limit, 0) ->
  Z.of_nat (length t) <= limit ->
  exists res,
    result_of (handleGetAllVotes q_limit q_offset t) = inr res
    /\ status res = 200
    /\ listed res (order_desc t).
Proof.
  intros Hpage Hfits. rewrite handleGetAllVotes_run. rewrite Hpage.
  cbn [fst snd]. change (0 <? 0) with false. rewrite orb_false_r.
  destruct (limit <? 0) eqn:Hl; [apply Z.ltb_lt in Hl; lia|].
  change (Z.to_nat 0) with 0%nat. cbn [skipn].
  rewrite firstn_all2
    by (rewrite (Permutation_length (order_desc_perm t)); lia).
  eexists. split; [reflexivity|]. split; [reflexivity|]. split; reflexivity.
Qed.

(** X11: a list request with offset 0 on a table that has no more rows
    than the effective limit lists every stored row exactly once,
    newest first.  This is the case of the default request on a table
    of at most ten rows. *)
Theorem list_is_complete (q_limit q_offset : qvalue) (t : table)
  (limit : Z) :
  pagination q_limit q_offset = (limit, 0) ->
  Z.of_nat (length t) <= limit ->
  exists res rows,
    result_of (handleGetAllVotes q_limit q_offset t) = inr res
    /\ status res = 200
    /\ listed res rows
    /\ Permutation rows t
    /\ newest_first rows.
Proof.
  intros Hpage Hfits.
  destruct (list_complete_run q_limit q_offset t limit Hpage Hfits)
    as (res & Hres & Hstatus & Hlisted).
  exists res, (order_desc t).
  split; [assumption|]. split; [assumption|]. split; [assumption|].
  split; [apply order_desc_perm | apply newest_first_order_desc].
Qed.

(** ** Start-up *)

Lemma env_missing_configured env name :
  env_missing env name = false <-> configured env name.
Proof.
  unfold env_missing, configured.
  destruct (env name) as [[|c s]|]; cbn [option_map truthy negb]; split;
    try discriminate.
  - intros (v & Hv & Hne). injection Hv as <-. contradiction.
  - intros _. exists (c :: s). split; [reflexivity | discriminate].
  - intros _. reflexivity.
  - intros (v & Hv & _). discriminate Hv.
Qed.

(** X12: the environment check lets the process go on exactly when each
    of the five required variables is set to a non-empty string.  When
    it stops the process, the variables it reports are the required
    ones that are unset or empty, and there is at least one. *)
Theorem validateEnvironment_exits (env : environment) :
  (validateEnvironment env = None
   <-> forall name, In name requiredVars -> configured env name)
  /\ forall missing,
       validateEnvironment env = Some missing ->
       missing <> []
       /\ forall name,
            In name missing
            <-> In name requiredVars /\ ~ configured env name.
Proof.
  unfold validateEnvironment.
  assert (Hin : forall name,
             In name (filter (env_missing env) requiredVars)
             <-> In name requiredVars /\ ~ configured env name).
  { intros name. rewrite filter_In, <- env_missing_configured.
    destruct (env_missing env name); split; intros [H1 H2]; split;
      try assumption; try discriminate; try reflexivity.
    exfalso. apply H2. reflexivity. }
  destruct (filter (env_missing env) requiredVars) as [|m ms] eqn:Hf;
    cbn [length Nat.ltb Nat.leb].
  - split; [|intros missing H; discriminate H].
    split; [|reflexivity]. intros _ name Hname.
    apply env_missing_configured.
    destruct (env_missing env name) eqn:Hm; [|reflexivity].
    exfalso. apply (proj2 (Hin name)).
    split; [exact Hname|]. rewrite <- env_missing_configured, Hm. discriminate.
  - split.
    + split; [intros H; discriminate H|]. intros Hall. exfalso.
      destruct (proj1 (Hin m) (or_introl eq_refl)) as [Hreq Hnot].
      apply Hnot, Hall, Hreq.
    + intros missing H. injection H as <-. split; [discriminate|exact Hin].
Qed.

(** X13: once the environment check has let the process go on, the
    wallet is built from the configured key: the missing-key branch of
    [initializeWallet] is not taken, and start-up stops there only when
    the library refuses the key. *)
Theorem wallet_key_is_configured (new_Wallet : jsstring -> option Wallet)
  (env : environment) :
  validateEnvironment env = None ->
  exists key,
    env "OPERATOR_PRIVATE_KEY"%string = Some key /\ key <> []
    /\ initializeWallet new_Wallet env = new_Wallet key.
Proof.
  intros Hok.
  assert (Hkey : configured env "OPERATOR_PRIVATE_KEY").
  { unfold validateEnvironment in Hok.
    destruct (filter (env_missing env) requiredVars) as [|m ms] eqn:Hf;
      [|discriminate Hok].
    apply env_missing_configured.
    destruct (env_missing env "OPERATOR_PRIVATE_KEY") eqn:Hm; [|reflexivity].
    assert (Hin : In "OPERATOR_PRIVATE_KEY"%string
                    (filter (env_missing env) requiredVars)).
    { apply filter_In. split; [left; reflexivity | exact Hm]. }
    rewrite Hf in Hin. contradiction. }
  destruct Hkey as (key & Hkey & Hne). exists key.
  split; [exact Hkey|]. split; [exact Hne|].
  unfold initializeWallet. rewrite Hkey.
  destruct key as [|c key]; [contradiction|]. reflexivity.
Qed.

(** ** The first version of the server *)

Lemma legacy_signMessage wallet m :
  length m = 32%nat ->
  Legacy.signMessage wallet m = Some (operator_signature wallet m).
Proof.
  intros Hm. unfold Legacy.signMessage, hashMessage, operator_signature.
  rewrite getBytes_keccak256, Hm. reflexivity.
Qed.

(** What a request answered 201 has done. *)
Lemma legacy_saved wallet now req_body t id signature t1 :
  Legacy.post_votes wallet now req_body t
  = (Some (Legacy.saved id signature), t1) ->
  exists v utf8,
    get_prop req_body "data" = Some v
    /\ truthy (Some v) = true
    /\ toUtf8Bytes (stringify v) = Some utf8
    /\ id = keccak256 utf8
    /\ signature = operator_signature wallet (Keccak.keccak_256 utf8)
    /\ Legacy.select_vote id t = []
    /\ t1 = t ++ [{| Legacy.vote_id := id;
                     Legacy.vote_data := stringify v;
                     Legacy.vote_created_at := now |}].
Proof.
  unfold Legacy.post_votes.
  destruct (get_prop req_body "data") as [v|]; [|intros H; discriminate H].
  destruct (truthy (Some v)) eqn:Htruthy; cbn [negb];
    [|intros H; discriminate H].
  cbn [JSON_stringify option_map].
  destruct (toUtf8Bytes (stringify v)) as [utf8|] eqn:Hu;
    [|intros H; discriminate H].
  rewrite getBytes_keccak256.
  rewrite (legacy_signMessage wallet _ (keccak_256_length utf8)).
  unfold Legacy.insert_vote.
  destruct (Legacy.select_vote (keccak256 utf8) t) eqn:Hsel;
    [|intros H; discriminate H].
  intros H. injection H as Hid Hsig Ht1.
  exists v, utf8. split; [reflexivity|]. split; [assumption|].
  split; [assumption|]. split; [symmetry; exact Hid|].
  split; [symmetry; exact Hsig|].
  rewrite <- Hid. split; [exact Hsel | symmetry; exact Ht1].
Qed.

Lemma legacy_select_new id data now t :
  Legacy.select_vote id t = [] ->
  Legacy.select_vote id
    (t ++ [{| Legacy.vote_id := id; Legacy.vote_data := data;
              Legacy.vote_created_at := now |}])
  = [{| Legacy.vote_id := id; Legacy.vote_data := data;
        Legacy.vote_created_at := now |}].
Proof.
  intros Hsel. unfold Legacy.select_vote in *.
  rewrite filter_app, Hsel. cbn [filter app Legacy.vote_id].
  rewrite jsstring_eqb_refl. reflexivity.
Qed.

(** X14: in the first version a payload submitted a second time is
    answered 500 "Failed to save data", the answer of any database
    error, and the table stays as the first request left it. *)
Theorem legacy_duplicate_is_server_error (wallet : Wallet) (now now' : Z)
  (req_body : json) (t t1 : Legacy.votes) (id signature : jsstring) :
  Legacy.post_votes wallet now req_body t
  = (Some (Legacy.saved id signature), t1) ->
  Legacy.post_votes wallet now' req_body t1 = (Some Legacy.save_failed, t1)
  /\ status Legacy.save_failed = 500.
Proof.
  intros Hfirst.
  destruct (legacy_saved _ _ _ _ _ _ _ Hfirst)
    as (v & utf8 & Hdata & Htruthy & Hu & -> & -> & Hsel & ->).
  split; [|reflexivity].
  unfold Legacy.post_votes. rewrite Hdata, Htruthy. cbn [negb].
  cbn [JSON_stringify option_map]. rewrite Hu, getBytes_keccak256.
  rewrite (legacy_signMessage wallet _ (keccak_256_length utf8)).
  unfold Legacy.insert_vote. rewrite (legacy_select_new _ _ _ _ Hsel).
  reflexivity.
Qed.

(** X15: in the first version any truthy payload that [JSON.parse] can
    build, a string or a number as well as an array or an object, is
    stored under the digest of its text and signed over the 32 bytes of
    that digest; the get request for the returned identifier is then
    answered 200 with what the stored text keeps of the payload: the
    payload with every number that is not finite replaced by null and
    the negative zero by zero, which is the payload itself when it
    holds no such number. *)
Theorem legacy_create_then_get (wallet : Wallet) (now : Z)
  (req_body v : json) (t t1 : Legacy.votes) (id signature : jsstring) :
  get_prop req_body "data" = Some v -> parsable v = true ->
  Legacy.post_votes wallet now req_body t
  = (Some (Legacy.saved id signature), t1) ->
  Legacy.get_vote id t1 = Some (Legacy.found (reparsed v))
  /\ status (Legacy.found (reparsed v)) = 200
  /\ (well_formed v = true -> reparsed v = v)
  /\ exists utf8,
       toUtf8Bytes (stringify v) = Some utf8
       /\ id = keccak256 utf8
       /\ signature = operator_signature wallet (Keccak.keccak_256 utf8).
Proof.
  intros Hdata Hwf Hfirst.
  destruct (legacy_saved _ _ _ _ _ _ _ Hfirst)
    as (v' & utf8 & Hdata' & _ & Hu & -> & -> & Hsel & ->).
  rewrite Hdata in Hdata'. injection Hdata' as <-.
  split; [|split; [reflexivity|split; [|exists utf8; auto]]].
  - unfold Legacy.get_vote. rewrite keccak256_truthy. cbn [negb].
    rewrite (legacy_select_new _ _ _ _ Hsel). cbn [Legacy.vote_data].
    rewrite (JSON_parse_reparsed v Hwf). reflexivity.
  - intros Hall. apply (well_formed_parsable v Hall).
Qed.

(** X16: in the first version an identifier that is not stored,
    whatever its text, is answered 200 with an empty array and not 404;
    this is also the answer for the identifier of a stored empty
    array, so that the two cannot be told apart. *)
Theorem legacy_missing_vote_reads_as_empty (wallet : Wallet) (now : Z)
  (t : Legacy.votes) (id' : jsstring) :
  id' <> [] -> Legacy.select_vote id' t = [] ->
  Legacy.get_vote id' t = Some (Legacy.found (JArr []))
  /\ status (Legacy.found (JArr [])) = 200
  /\ forall id signature t1,
       Legacy.post_votes wallet now (create_request (JArr [])) t
       = (Some (Legacy.saved id signature), t1) ->
       Legacy.get_vote id t1 = Legacy.get_vote id' t.
Proof.
  intros Hne Hsel.
  assert (Hget : Legacy.get_vote id' t = Some (Legacy.found (JArr []))).
  { unfold Legacy.get_vote. rewrite Hsel.
    destruct id' as [|c id']; [contradiction | reflexivity]. }
  split; [exact Hget|]. split; [reflexivity|].
  intros id signature t1 Hfirst. rewrite Hget.
  destruct (legacy_saved _ _ _ _ _ _ _ Hfirst)
    as (v & utf8 & Hdata & _ & Hu & -> & -> & Hsel1 & ->).
  injection Hdata as <-.
  unfold Legacy.get_vote. rewrite keccak256_truthy. cbn [negb].
  rewrite (legacy_select_new _ _ _ _ Hsel1). reflexivity.
Qed.

(** ** Verification and creation *)

(** X17: the verify-signature route answers 200 exactly for the request
    bodies the create route would sign and insert.  Its dataHash is the
    identifier the create route inserts and its recoveredSigner is the
    signer the create route stores; any other body is answered 400.
    Either way the route makes no signature, sends no statement and
    leaves the table as it is. *)
Theorem verify_agrees_with_create (E : Ethers) (wallet : Wallet) (now : Z)
  (req_body : json) (t : table) :
  (verified_request E req_body ->
   exists res id signer digest data signature,
     Signed.post_verify_signature E req_body t = (inr res, t, [])
     /\ status res = 200
     /\ record_field res "dataHash" = Some (JStr id)
     /\ record_field res "recoveredSigner" = Some (JStr signer)
     /\ trace_of (Signed.post_votes E wallet now req_body t)
        = [EvSign digest; EvDb (Insert id data signature (Some signer))])
  /\ (~ verified_request E req_body ->
      exists res,
        Signed.post_verify_signature E req_body t = (inr res, t, [])
        /\ status res = 400).
Proof.
  unfold verified_request, Signed.post_verify_signature, Signed.post_votes.
  destruct (Signed.validateVoteData E req_body) as [res|] eqn:Hval.
  { split; [intros [Hnone _]; discriminate Hnone|].
    intros _. exists res. split; [reflexivity|].
    eapply signed_validateVoteData_status; eassumption. }
  destruct (signed_validateVoteData_passed _ _ Hval) as (v & Hdata & Hv).
  destruct (encodable_stringify v) as [utf8 Hu].
  rewrite (signed_handleCreateVote_run E wallet now req_body v utf8 t Hdata Hu).
  unfold Signed.handleVerifySignature, try_catch.
  rewrite Hdata.
  destruct (truthy (get_prop req_body "signature")); cbn [negb].
  2:{ split; [intros (_ & Hsig & _); discriminate Hsig|].
      intros _. eexists. split; reflexivity. }
  destruct (Signed.isValid _) eqn:Hvalid; cbn [negb].
  2:{ split; [intros (_ & _ & Hok); discriminate Hok|].
      intros _. eexists. split; reflexivity. }
  split; [|intros Hnot; exfalso; apply Hnot; auto].
  intros _.
  destruct (validateSignature_valid E v utf8 _ _ Hu Hvalid) as (a & Ha & _).
  unfold data_id. cbn [JSON_stringify option_map]. rewrite Hu.
  cbn [option_map]. unfold bind, orThrow, ret, json_response. rewrite Ha.
  eexists. exists (keccak256 utf8), a,
    (hashMessage (Keccak.keccak_256 utf8)), (stringify v),
    (operator_signature wallet (Keccak.keccak_256 utf8)).
  split; [reflexivity|]. split; [reflexivity|].
  split; [reflexivity|]. split; [reflexivity|].
  destruct (select_by_id (keccak256 utf8) t); reflexivity.
Qed.

(** ** Every request is answered *)

Lemma error_response_code st msg c :
  code_of (error_response st msg c) = Some (JStr (str c)).
Proof.
  unfold code_of, error_response, get_prop, body, field. cbn [assoc].
  change (jsstring_eqb (str "code") (str "error")) with false. cbv iota.
  rewrite jsstring_eqb_refl. reflexivity.
Qed.

Lemma answer_error st msg c :
  In st [400; 404; 409; 500] -> coded_answer (error_response st msg c).
Proof.
  intros Hst. unfold coded_answer. cbn [status error_response].
  split; [cbn [In] in *; tauto|].
  split; [intros _; eexists; apply error_response_code|].
  intros Hlt. cbn [In] in Hst.
  destruct Hst as [<- | [<- | [<- | [<- | []]]]]; lia.
Qed.

Lemma answer_success st fields :
  In st [200; 201] ->
  coded_answer
    {| status := st;
       body := JObj (field "success" (JBool true) :: fields) |}.
Proof.
  intros Hst. unfold coded_answer. cbn [status body].
  split; [cbn [In] in *; tauto|].
  split.
  - intros Hge. cbn [In] in Hst. destruct Hst as [<- | [<- | []]]; lia.
  - intros _. unfold get_prop, field. cbn [assoc].
    rewrite jsstring_eqb_refl. reflexivity.
Qed.

Lemma answer_invalid_signature vr :
  coded_answer (signed_invalid_signature vr).
Proof.
  unfold coded_answer. cbn [status signed_invalid_signature].
  split; [cbn [In]; tauto|].
  split; [intros _; eexists; reflexivity | intros H; lia].
Qed.

Lemma basic_validateVoteData_answer req_body res :
  Basic.validateVoteData req_body = Some res -> coded_answer res.
Proof.
  unfold Basic.validateVoteData.
  destruct (negb (truthy _));
    [intros H; injection H as <-; apply answer_error; cbn [In]; tauto|].
  destruct (negb (jstype_eqb _ _));
    [intros H; injection H as <-; apply answer_error; cbn [In]; tauto|].
  destruct (JSON_stringify _); [|intros H; discriminate H].
  destruct (1000000 <? _); [|intros H; discriminate H].
  intros H; injection H as <-; apply answer_error; cbn [In]; tauto.
Qed.

Lemma signed_validateVoteData_answer E req_body res :
  Signed.validateVoteData E req_body = Some res -> coded_answer res.
Proof.
  unfold Signed.validateVoteData.
  repeat match goal with
         | |- (if ?c then _ else _) = _ -> _ =>
             destruct c;
             [intros H; injection H as <-; apply answer_error;
              cbn [In]; tauto|]
         end.
  intros H; discriminate H.
Qed.

Lemma get_route_answer var id t :
  exists res,
    result_of (get_route var id t) = inr res /\ coded_answer res.
Proof.
  destruct var; cbn [get_route];
    unfold Basic.handleGetVote, Signed.handleGetVote, try_catch, db_select,
      bind, emit, orThrow, json_response, ret, throw, result_of;
    (destruct (_ || _);
     [eexists; split; [reflexivity | apply answer_error; cbn [In]; tauto]|]);
    (destruct (select_by_id id t) as [|vote rest];
     [eexists; split; [reflexivity | apply answer_error; cbn [In]; tauto]|]);
    destruct (JSON_parse (row_data vote));
    eexists; (split; [reflexivity|]);
    first [apply answer_success; cbn [In]; tauto
          |apply answer_error; cbn [In]; tauto].
Qed.

(** X18: every request is answered, in either variant: no exception
    leaves a handler.  The status is one of 200, 201, 400, 404, 409 and
    500; an answer with status 400 or more carries a code, and an
    answer below 400 carries the flag success. *)
Theorem every_request_is_answered (E : Ethers) (wallet : Wallet)
  (var : variant) (rq : request) (t : table) :
  exists res,
    result_of (serve E wallet var rq t) = inr res /\ coded_answer res.
Proof.
  destruct rq as [now req_body | id | l o | req_body];
    cbn [serve]; [| apply get_route_answer | |].
  - destruct var; cbn [create_route].
    + unfold Basic.post_votes.
      destruct (Basic.validateVoteData req_body) as [res|] eqn:Hval.
      { exists res. split; [reflexivity|].
        eapply basic_validateVoteData_answer; eassumption. }
      destruct (basic_validateVoteData_passed _ Hval) as (v & Hdata & _).
      destruct (encodable_stringify v) as [utf8 Hu].
      rewrite (basic_handleCreateVote_run wallet now req_body v utf8 t
                 Hdata Hu).
      destruct (select_by_id (keccak256 utf8) t);
        eexists; (split; [reflexivity|]);
        [apply answer_success | apply answer_error]; cbn [In]; tauto.
    + unfold Signed.post_votes.
      destruct (Signed.validateVoteData E req_body) as [res|] eqn:Hval.
      { exists res. split; [reflexivity|].
        eapply signed_validateVoteData_answer; eassumption. }
      destruct (signed_validateVoteData_passed _ _ Hval) as (v & Hdata & _).
      destruct (encodable_stringify v) as [utf8 Hu].
      rewrite (signed_handleCreateVote_run E wallet now req_body v utf8 t
                 Hdata Hu).
      destruct (truthy (get_prop req_body "signature"));
        [|eexists; split; [reflexivity|apply answer_error; cbn [In]; tauto]].
      destruct (Signed.isValid _);
        [|eexists; split; [reflexivity|apply answer_invalid_signature]].
      destruct (select_by_id (keccak256 utf8) t);
        eexists; (split; [reflexivity|]);
        [apply answer_success | apply answer_error]; cbn [In]; tauto.
  - rewrite handleGetAllVotes_run.
    destruct (_ || _); eexists; (split; [reflexivity|]);
      [apply answer_error | apply answer_success]; cbn [In]; tauto.
  - destruct var; cbn [verify_route].
    + eexists. split; [reflexivity | apply answer_error; cbn [In]; tauto].
    + unfold Signed.post_verify_signature.
      destruct (Signed.validateVoteData E req_body) as [res|] eqn:Hval.
      { exists res. split; [reflexivity|].
        eapply signed_validateVoteData_answer; eassumption. }
      unfold Signed.handleVerifySignature, try_catch, bind, orThrow,
        json_response, ret, throw, result_of.
      destruct (truthy _); cbn [negb];
        [|eexists; split; [reflexivity|apply answer_error; cbn [In]; tauto]].
      destruct (Signed.isValid _); cbn [negb].
      * destruct (data_id _); eexists; (split; [reflexivity|]);
          [apply answer_success | apply answer_error]; cbn [In]; tauto.
      * eexists. split; [reflexivity|].
        unfold coded_answer. cbn [status].
        split; [cbn [In]; tauto|].
        split; [intros _; eexists; reflexivity | intros H; lia].
Qed.

(** ** Stored text parses *)

Lemma parsable_assoc k kvs v :
  forallb (fun kv => parsable (snd kv)) kvs = true ->
  assoc k kvs = Some v -> parsable v = true.
Proof.
  induction kvs as [|[k' x] kvs IH]; cbn [assoc forallb snd];
    [intros _ H; discriminate H|].
  intros Hall. apply andb_prop in Hall. destruct Hall as [Hx Hall].
  destruct (jsstring_eqb k k'); [intros H; injection H as <-; exact Hx|].
  apply IH. exact Hall.
Qed.

Lemma parsable_get_prop o name v :
  parsable o = true -> get_prop o name = Some v -> parsable v = true.
Proof.
  destruct o; cbn [get_prop]; try (intros _ H; discriminate H).
  cbn [parsable]. intros Hwf. apply andb_prop in Hwf.
  apply parsable_assoc. apply Hwf.
Qed.

Lemma run_parses_back E wallet var rqs : forall t,
  Forall parsed rqs -> Forall parses_back t ->
  Forall parses_back (run E wallet var rqs t).
Proof.
  induction rqs as [|rq rqs IH]; intros t Hrqs Ht; [exact Ht|].
  change (run E wallet var (rq :: rqs) t)
    with (run E wallet var rqs (table_of (serve E wallet var rq t))).
  inversion Hrqs as [|? ? Hrq Hrest]. subst.
  apply IH; [exact Hrest|].
  destruct (serve_step E wallet var rq t)
    as [-> | (now & v & utf8 & signer & _ & _ & _ & -> & _
              & req_body & -> & Hdata)];
    [exact Ht|].
  apply Forall_app. split; [exact Ht|].
  constructor; [|constructor].
  exists (reparsed v). cbn [new_row row_data].
  apply JSON_parse_reparsed.
  eapply parsable_get_prop; [exact Hrq | exact Hdata].
Qed.

(** X19: when the bodies of the create requests are values that
    [JSON.parse] can build, with any numbers a double holds, the text of
    every stored row is read by [JSON.parse], and a get request is never
    answered 500: it is answered 400 for an identifier that is not 0x
    and 64 hex digits, 404 for one that is not stored, and 200
    otherwise.  Either variant, starting from the empty table. *)
Theorem get_never_fails (E : Ethers) (wallet : Wallet) (var : variant)
  (rqs : list request) (id : jsstring) :
  Forall parsed rqs ->
  let t := run E wallet var rqs [] in
  Forall parses_back t
  /\ exists res,
       get_route var id t
       = (inr res, t, if hex_id id then [EvDb (SelectById id)] else [])
       /\ status res
          = if hex_id id
            then match select_by_id id t with [] => 404 | _ :: _ => 200 end
            else 400.
Proof.
  intros Hrqs t.
  assert (Ht : Forall parses_back t)
    by (apply run_parses_back; [exact Hrqs | constructor]).
  split; [exact Ht|].
  pose proof (hex_id_isHexString id) as Hgate.
  destruct (hex_id id) eqn:Hhex.
  - destruct (select_by_id id t) as [|vote rest] eqn:Hsel.
    + exists vote_not_found. split; [|reflexivity].
      destruct var; cbn [get_route];
        unfold Basic.handleGetVote, Signed.handleGetVote, try_catch;
        rewrite Hgate; cbn [negb]; unfold db_select, bind, emit;
        rewrite Hsel; reflexivity.
    + assert (Hin : In vote t).
      { assert (H : In vote (select_by_id id t))
          by (rewrite Hsel; left; reflexivity).
        unfold select_by_id in H. apply filter_In in H. apply H. }
      rewrite Forall_forall in Ht.
      destruct (Ht vote Hin) as (v & Htext).
      destruct (get_route_row var id t vote rest v Hhex Hsel Htext)
        as (r & Hr & Hs & _).
      exists r. split; assumption.
  - exists invalid_id. split; [|reflexivity].
    destruct var; cbn [get_route];
      unfold Basic.handleGetVote, Signed.handleGetVote, try_catch;
      rewrite Hgate; reflexivity.
Qed.

(** ** What a created answer reports *)

(** X20: the 201 answer of a create request reports what was stored.
    The table gains one row, with the time of the request; the answer
    carries the identifier and the signature of that row and the address
    of the operator, and in the variant that verifies, the signer of the
    row.  Either variant. *)
Theorem created_answer_reports_row (E : Ethers) (wallet : Wallet)
  (var : variant) (now : Z) (req_body : json) (t t1 : table)
  (res : response) (tr : list event) :
  create_route E wallet var now req_body t = (inr res, t1, tr) ->
  status res = 201 ->
  exists r,
    t1 = t ++ [r]
    /\ row_created_at r = now
    /\ record_field res "id" = Some (JStr (row_id r))
    /\ record_field res "signature" = Some (JStr (row_signature r))
    /\ record_field res "operator" = Some (JStr (address wallet))
    /\ record_field res "signer"
       = match var with
         | Unsigned => None
         | CallerSigned => Some (opt_json (row_signer r))
         end.
Proof.
  intros Hfirst Hstatus.
  destruct (created_row E wallet var now req_body t res t1 tr Hfirst Hstatus)
    as (v & utf8 & signer & _ & _ & _ & Ht1 & Hid & Hsig & Hop & Hsigner).
  eexists. split; [exact Ht1|]. cbn [new_row row_created_at row_id
    row_signature row_signer]. auto.
Qed.

(** X21: a created vote is listed.  When a create request is answered
    201, a list request with offset 0 whose effective limit is not
    below the number of stored rows is answered 200 with, among its
    items, the returned identifier with the time of the create
    request.  Either variant. *)
Theorem created_vote_is_listed (E : Ethers) (wallet : Wallet)
  (var : variant) (now : Z) (req_body : json) (t t1 : table)
  (res : response) (tr : list event) (q_limit q_offset : qvalue)
  (limit : Z) :
  create_route E wallet var now req_body t = (inr res, t1, tr) ->
  status res = 201 ->
  pagination q_limit q_offset = (limit, 0) ->
  Z.of_nat (length t1) <= limit ->
  exists id res' items,
    record_field res "id" = Some (JStr id)
    /\ result_of (handleGetAllVotes q_limit q_offset t1) = inr res'
    /\ status res' = 200
    /\ get_prop (body res') "data" = Some (JArr items)
    /\ In (JObj [field "id" (JStr id); field "created_at" (JInt now)]) items.
Proof.
  intros Hfirst Hstatus Hpage Hfits.
  destruct (created_row E wallet var now req_body t res t1 tr Hfirst Hstatus)
    as (v & utf8 & signer & _ & _ & _ & Ht1 & Hid & _).
  destruct (list_complete_run q_limit q_offset t1 limit Hpage Hfits)
    as (res' & Hres & Hs & Hdata & _).
  exists (keccak256 utf8), res', (map page_row (order_desc t1)).
  split; [assumption|]. split; [assumption|]. split; [assumption|].
  split; [assumption|].
  set (r := new_row now (keccak256 utf8) (stringify v)
              (operator_signature wallet (Keccak.keccak_256 utf8)) signer)
    in *.
  change (JObj [field "id" (JStr (keccak256 utf8));
                field "created_at" (JInt now)]) with (page_row r).
  apply in_map.
  apply (Permutation_in _ (Permutation_sym (order_desc_perm t1))).
  rewrite Ht1. apply in_or_app. right. left. reflexivity.
Qed.

(** ** The further properties at concrete requests *)

Lemma reachable_run E wallet var rqs : forall t,
  reachable (serve E wallet var) t ->
  reachable (serve E wallet var) (run E wallet var rqs t).
Proof.
  induction rqs as [|rq rqs IH]; intros t Ht; [exact Ht|].
  change (run E wallet var (rq :: rqs) t)
    with (run E wallet var rqs (table_of (serve E wallet var rq t))).
  apply IH. apply reach_serve. exact Ht.
Qed.

Lemma demo_table_reachable var :
  reachable (serve demo_ethers demo_wallet var) (demo_table var).
Proof. apply reachable_run, reach_empty. Qed.

Lemma demo_table_rows var : length (demo_table var) = 2%nat.
Proof. destruct var; vm_compute; reflexivity. Qed.

Lemma identifiers_are_unique_witness :
  reachable (serve demo_ethers demo_wallet CallerSigned)
    (demo_table CallerSigned)
  /\ NoDup (map row_id (demo_table CallerSigned))
  /\ forall id,
       (length (select_by_id id (demo_table CallerSigned)) <= 1)%nat.
Proof.
  split; [apply demo_table_reachable|].
  apply (identifiers_are_unique demo_ethers demo_wallet CallerSigned).
  apply demo_table_reachable.
Defined.

Lemma rows_are_content_addressed_witness :
  reachable (serve demo_ethers demo_wallet Unsigned) (demo_table Unsigned)
  /\ Forall (fun r => content_addressed r
                      /\ length (row_id r) = 66%nat
                      /\ isHexString (row_id r) (Some 32) = true)
       (demo_table Unsigned).
Proof.
  split; [apply demo_table_reachable|].
  apply (rows_are_content_addressed demo_ethers demo_wallet Unsigned).
  apply demo_table_reachable.
Defined.

Lemma signer_column_witness :
  reachable (serve demo_ethers demo_wallet CallerSigned)
    (demo_table CallerSigned)
  /\ Forall (caller_signed demo_ethers) (demo_table CallerSigned).
Proof.
  split; [apply demo_table_reachable|].
  apply (signer_column demo_ethers demo_wallet CallerSigned).
  apply demo_table_reachable.
Defined.

Lemma stored_text_bounded_witness :
  reachable (serve demo_ethers demo_wallet Unsigned) (demo_table Unsigned)
  /\ Forall (fun r => Z.of_nat (length (row_data r)) <= 1000000)
       (demo_table Unsigned).
Proof.
  split; [apply demo_table_reachable|].
  apply (stored_text_bounded demo_ethers demo_wallet).
  apply demo_table_reachable.
Defined.

Lemma first_run_created var :
  create_route demo_ethers demo_wallet var 5 (signed_request vote_payload) []
  = (inr (first_response var (signed_request vote_payload)),
     table_of (first_run var (signed_request vote_payload)),
     trace_of (first_run var (signed_request vote_payload)))
  /\ status (first_response var (signed_request vote_payload)) = 201.
Proof. destruct var; split; vm_compute; reflexivity. Qed.

Lemma created_vote_stays_readable_witness :
  get_prop (signed_request vote_payload) "data" = Some vote_payload
  /\ parsable vote_payload = true
  /\ status (first_response CallerSigned (signed_request vote_payload)) = 201
  /\ exists id res',
       record_field (first_response CallerSigned (signed_request vote_payload))
         "id" = Some (JStr id)
       /\ get_route CallerSigned id
            (run demo_ethers demo_wallet CallerSigned later_requests
               (table_of (first_run CallerSigned (signed_request vote_payload))))
          = (inr res',
             run demo_ethers demo_wallet CallerSigned later_requests
               (table_of (first_run CallerSigned (signed_request vote_payload))),
             [EvDb (SelectById id)])
       /\ status res' = 200
       /\ record_field res' "id" = Some (JStr id)
       /\ record_field res' "data" = Some (reparsed vote_payload)
       /\ (well_formed vote_payload = true ->
           record_field res' "data" = Some vote_payload)
       /\ record_field res' "signature"
          = record_field
              (first_response CallerSigned (signed_request vote_payload))
              "signature"
       /\ record_field res' "createdAt" = Some (JInt 5).
Proof.
  split; [reflexivity|]. split; [reflexivity|].
  split; [apply first_run_created|].
  apply (created_vote_stays_readable demo_ethers demo_wallet CallerSigned 5
           (signed_request vote_payload) vote_payload []
           (table_of (first_run CallerSigned (signed_request vote_payload)))
           (first_response CallerSigned (signed_request vote_payload))
           (trace_of (first_run CallerSigned (signed_request vote_payload)))
           later_requests).
  - reflexivity.
  - reflexivity.
  - apply first_run_created.
  - apply first_run_created.
Defined.

Lemma signed_request_verified :
  verified_request demo_ethers (signed_request vote_payload).
Proof. repeat split; vm_compute; reflexivity. Qed.

Lemma create_request_not_verified :
  ~ verified_request demo_ethers (create_request vote_payload).
Proof. intros (_ & H & _). vm_compute in H. discriminate H. Qed.


Lemma malformed_signature_fails_witness :
  wrong_length (str "0x1234")
  /\ Signed.validateSignature demo_ethers (Some vote_payload)
       (Some (JStr (str "0x1234"))) None
     = Signed.failed.
Proof.
  assert (H : wrong_length (str "0x1234")) by (vm_compute; split; lia).
  split; [exact H|].
  apply (malformed_signature_fails demo_ethers (Some vote_payload) None
           (str "0x1234")).
  exact H.
Defined.

Lemma list_is_complete_witness :
  pagination QUndefined QUndefined = (10, 0)
  /\ Z.of_nat (length (demo_table Unsigned)) <= 10
  /\ exists res rows,
       result_of (handleGetAllVotes QUndefined QUndefined
                    (demo_table Unsigned)) = inr res
       /\ status res = 200
       /\ listed res rows
       /\ Permutation rows (demo_table Unsigned)
       /\ newest_first rows.
Proof.
  assert (H : Z.of_nat (length (demo_table Unsigned)) <= 10)
    by (rewrite demo_table_rows; lia).
  split; [reflexivity|]. split; [exact H|].
  apply (list_is_complete QUndefined QUndefined (demo_table Unsigned) 10).
  - reflexivity.
  - exact H.
Defined.

Lemma wallet_key_is_configured_witness :
  validateEnvironment demo_env = None
  /\ exists key,
       demo_env "OPERATOR_PRIVATE_KEY"%string = Some key /\ key <> []
       /\ initializeWallet (fun _ => Some demo_wallet) demo_env
          = Some demo_wallet.
Proof.
  split; [reflexivity|].
  apply (wallet_key_is_configured (fun _ => Some demo_wallet) demo_env).
  reflexivity.
Defined.

Lemma legacy_first_run :
  Legacy.post_votes demo_wallet 5 (create_request vote_payload) []
  = (Some (Legacy.saved vote_payload_id
             (operator_signature demo_wallet (id_bytes vote_payload))),
     snd (legacy_first vote_payload)).
Proof. vm_compute. reflexivity. Qed.

Lemma legacy_duplicate_is_server_error_witness :
  Legacy.post_votes demo_wallet 5 (create_request vote_payload) []
  = (Some (Legacy.saved vote_payload_id
             (operator_signature demo_wallet (id_bytes vote_payload))),
     snd (legacy_first vote_payload))
  /\ Legacy.post_votes demo_wallet 6 (create_request vote_payload)
       (snd (legacy_first vote_payload))
     = (Some Legacy.save_failed, snd (legacy_first vote_payload))
  /\ status Legacy.save_failed = 500.
Proof.
  split; [exact legacy_first_run|].
  apply (legacy_duplicate_is_server_error demo_wallet 5 6
           (create_request vote_payload) [] (snd (legacy_first vote_payload))
           vote_payload_id
           (operator_signature demo_wallet (id_bytes vote_payload))).
  exact legacy_first_run.
Defined.

Lemma legacy_text_run :
  Legacy.post_votes demo_wallet 5 (create_request (text "yes")) []
  = (Some (Legacy.saved (hexlify (id_bytes (text "yes")))
             (operator_signature demo_wallet (id_bytes (text "yes")))),
     snd (legacy_first (text "yes"))).
Proof. vm_compute. reflexivity. Qed.

Lemma legacy_create_then_get_witness :
  get_prop (create_request (text "yes")) "data" = Some (text "yes")
  /\ parsable (text "yes") = true
  /\ Legacy.post_votes demo_wallet 5 (create_request (text "yes")) []
     = (Some (Legacy.saved (hexlify (id_bytes (text "yes")))
                (operator_signature demo_wallet (id_bytes (text "yes")))),
        snd (legacy_first (text "yes")))
  /\ Legacy.get_vote (hexlify (id_bytes (text "yes")))
       (snd (legacy_first (text "yes")))
     = Some (Legacy.found (reparsed (text "yes"))).
Proof.
  split; [reflexivity|]. split; [reflexivity|].
  split; [exact legacy_text_run|].
  apply (legacy_create_then_get demo_wallet 5 (create_request (text "yes"))
           (text "yes") [] (snd (legacy_first (text "yes")))
           (hexlify (id_bytes (text "yes")))
           (operator_signature demo_wallet (id_bytes (text "yes")))).
  - reflexivity.
  - reflexivity.
  - exact legacy_text_run.
Defined.

Lemma legacy_missing_vote_reads_as_empty_witness :
  upper_id <> []
  /\ Legacy.select_vote upper_id [] = []
  /\ Legacy.get_vote upper_id [] = Some (Legacy.found (JArr []))
  /\ Legacy.get_vote (str "no such vote") [] = Some (Legacy.found (JArr [])).
Proof.
  split; [discriminate|]. split; [reflexivity|]. split.
  - apply (legacy_missing_vote_reads_as_empty demo_wallet 5 [] upper_id).
    + discriminate.
    + reflexivity.
  - apply (legacy_missing_vote_reads_as_empty demo_wallet 5 []
             (str "no such vote")).
    + discriminate.
    + reflexivity.
Defined.

Lemma verify_agrees_with_create_witness :
  verified_request demo_ethers (signed_request vote_payload)
  /\ (exists res id signer digest data signature,
        Signed.post_verify_signature demo_ethers
          (signed_request vote_payload) []
        = (inr res, [], [])
        /\ status res = 200
        /\ record_field res "dataHash" = Some (JStr id)
        /\ record_field res "recoveredSigner" = Some (JStr signer)
        /\ trace_of (Signed.post_votes demo_ethers demo_wallet 5
                       (signed_request vote_payload) [])
           = [EvSign digest; EvDb (Insert id data signature (Some signer))])
  /\ ~ verified_request demo_ethers (create_request vote_payload)
  /\ exists res,
       Signed.post_verify_signature demo_ethers
         (create_request vote_payload) []
       = (inr res, [], [])
       /\ status res = 400.
Proof.
  split; [exact signed_request_verified|]. split.
  - apply (verify_agrees_with_create demo_ethers demo_wallet 5
             (signed_request vote_payload) []).
    exact signed_request_verified.
  - split; [exact create_request_not_verified|].
    apply (verify_agrees_with_create demo_ethers demo_wallet 5
             (create_request vote_payload) []).
    exact create_request_not_verified.
Defined.

Lemma two_creates_parsed : Forall parsed two_creates.
Proof. repeat constructor. Qed.

Lemma get_never_fails_witness :
  Forall parsed two_creates
  /\ Forall parses_back (demo_table CallerSigned)
  /\ exists res,
       get_route CallerSigned vote_payload_id (demo_table CallerSigned)
       = (inr res, demo_table CallerSigned,
          if hex_id vote_payload_id
          then [EvDb (SelectById vote_payload_id)] else [])
       /\ status res
          = if hex_id vote_payload_id return Z
            then match select_by_id vote_payload_id (demo_table CallerSigned)
                   return Z
                 with
                 | [] => 404
                 | _ :: _ => 200
                 end
            else 400.
Proof.
  split; [exact two_creates_parsed|].
  apply (get_never_fails demo_ethers demo_wallet CallerSigned two_creates
           vote_payload_id).
  exact two_creates_parsed.
Defined.

Lemma created_answer_reports_row_witness :
  status (first_response CallerSigned (signed_request vote_payload)) = 201
  /\ exists r,
       table_of (first_run CallerSigned (signed_request vote_payload))
       = [] ++ [r]
       /\ row_created_at r = 5
       /\ record_field
            (first_response CallerSigned (signed_request vote_payload)) "id"
          = Some (JStr (row_id r))
       /\ record_field
            (first_response CallerSigned (signed_request vote_payload))
            "signature"
          = Some (JStr (row_signature r))
       /\ record_field
            (first_response CallerSigned (signed_request vote_payload))
            "operator"
          = Some (JStr (address demo_wallet))
       /\ record_field
            (first_response CallerSigned (signed_request vote_payload))
            "signer"
          = Some (opt_json (row_signer r)).
Proof.
  split; [apply first_run_created|].
  apply (created_answer_reports_row demo_ethers demo_wallet CallerSigned 5
           (signed_request vote_payload) []
           (table_of (first_run CallerSigned (signed_request vote_payload)))
           (first_response CallerSigned (signed_request vote_payload))
           (trace_of (first_run CallerSigned (signed_request vote_payload)))).
  - apply first_run_created.
  - apply first_run_created.
Defined.

Lemma created_vote_is_listed_witness :
  status (first_response Unsigned (signed_request vote_payload)) = 201
  /\ pagination QUndefined QUndefined = (10, 0)
  /\ Z.of_nat
       (length (table_of (first_run Unsigned (signed_request vote_payload))))
     <= 10
  /\ exists id res' items,
       record_field (first_response Unsigned (signed_request vote_payload))
         "id" = Some (JStr id)
       /\ result_of
            (handleGetAllVotes QUndefined QUndefined
               (table_of (first_run Unsigned (signed_request vote_payload))))
          = inr res'
       /\ status res' = 200
       /\ get_prop (body res') "data" = Some (JArr items)
       /\ In (JObj [field "id" (JStr id); field "created_at" (JInt 5)]) items.
Proof.
  assert (H : Z.of_nat
                (length (table_of (first_run Unsigned
                                     (signed_request vote_payload))))
              <= 10) by (vm_compute; discriminate).
  split; [apply first_run_created|]. split; [reflexivity|].
  split; [exact H|].
  apply (created_vote_is_listed demo_ethers demo_wallet Unsigned 5
           (signed_request vote_payload) []
           (table_of (first_run Unsigned (signed_request vote_payload)))
           (first_response Unsigned (signed_request vote_payload))
           (trace_of (first_run Unsigned (signed_request vote_payload)))
           QUndefined QUndefined 10).
  - apply first_run_created.
  - apply first_run_created.
  - reflexivity.
  - exact H.
Defined.
